(** * DungeonScene: the real-time simulation core of the dungeon crawler

    A shallow embedding of the per-frame simulation of the [DungeonScene]
    component (player movement with collision, creature pursuit, projectile
    life cycle and the deferred cleanup queue), of the effect that builds
    the scene for a map, of the input handlers, and of the parts of the
    page around the scene that use them (player stats, map view, radar,
    crossbow), followed by the properties stated about them.

    Numbers.  JavaScript numbers are modelled by exact rationals [Q]; the
    integer frame counter [life] by [Z].  [Math.sin], [Math.cos],
    [Math.sqrt], the random shuffle, the clock and the two three.js
    queries that depend on an object's orientation are variables of the
    section below, so every theorem holds for any value they return.

    Mutable references.  Every [useRef] cell of the component is a field of
    the record [World]; a function of the component becomes a function
    [World -> World].  Calls of [dispose()] are recorded in the ghost field
    [disposed]; object identity is a natural number drawn from [nextId].
    The scene is the list of the identities of its children.

    Events and React state.  An event handler is a function of the event's
    data and the world; the set [keysRef] is a list without repetition.  A
    React state cell read by a handler is an argument of the handler, its
    updater a function of the previous state.

    Left out: rendering, textures, [console.log], the window resize
    handler, and the two sinks [onPlayerMove] and [onCreatureUpdate],
    which receive values and do not write to any reference. *)

From Stdlib Require Import List String ZArith QArith Qround Bool Lia Permutation Lqa FinFun.
Import ListNotations.

Local Open Scope string_scope.
Local Open Scope list_scope.
Local Open Scope Q_scope.

(** ** three.js values *)

Record Vector3 := mkVector3 { vx : Q; vy : Q; vz : Q }.

Definition vadd (a b : Vector3) : Vector3 :=
  mkVector3 (vx a + vx b) (vy a + vy b) (vz a + vz b).

Definition multiplyScalar (a : Vector3) (s : Q) : Vector3 :=
  mkVector3 (vx a * s) (vy a * s) (vz a * s).

Record Box3 := mkBox3 { bmin : Vector3; bmax : Vector3 }.

(** [this.intersectsBox(box)] of three.js: the six separating planes, with
    touching boxes counted as intersecting. *)
Definition intersectsBox (this box : Box3) : bool :=
  Qle_bool (vx (bmin this)) (vx (bmax box)) && Qle_bool (vx (bmin box)) (vx (bmax this)) &&
  Qle_bool (vy (bmin this)) (vy (bmax box)) && Qle_bool (vy (bmin box)) (vy (bmax this)) &&
  Qle_bool (vz (bmin this)) (vz (bmax box)) && Qle_bool (vz (bmin box)) (vz (bmax this)).

(** [box.setFromCenterAndSize(center, size)]. *)
Definition setFromCenterAndSize (center size : Vector3) : Box3 :=
  let halfSize := multiplyScalar size 0.5 in
  mkBox3 (mkVector3 (vx center - vx halfSize) (vy center - vy halfSize) (vz center - vz halfSize))
         (vadd center halfSize).

Record Material := mkMaterial { mat_id : nat; opacity : Q }.

(** [mesh.material] is one material or an array of materials. *)
Inductive MaterialSlot :=
| OneMaterial (m : Material)
| MaterialArray (ms : list Material).

(** A mesh with the meshes added to it by [add]. *)
#[warnings="-register-all"]
Inductive Mesh := mkMesh {
  mesh_id : nat;
  position : Vector3;
  geometry : nat;
  material : MaterialSlot;
  children : list Mesh
}.

Record PointLight := mkPointLight { light_id : nat; light_position : Vector3 }.

Record Camera := mkCamera { cam_position : Vector3; cam_rotation : Vector3 }.

(** What a [dispose()] call released. *)
Inductive Disposal :=
| GeometryDisposed (g : nat)
| MaterialDisposed (m : nat)
| LightDisposed (l : nat).

(** ** The references of the component *)

Record Player := mkPlayer { px : Q; py : Q; angle : Q }.

Record Mouse := mkMouse { mouse_x : Q; mouse_y : Q; sensitivity : Q; isLocked : bool }.

Record Projectile := mkProjectile { mesh : Mesh; velocity : Vector3; life : Z }.

Record Creature := mkCreature {
  body : Mesh;
  leftEye : Mesh;
  rightEye : Mesh;
  light : PointLight;
  targetX : Q;
  targetZ : Q;
  collisionBox : Box3
}.

Record CleanupItem := mkCleanupItem {
  item_body : Mesh;
  item_leftEye : Mesh;
  item_rightEye : Mesh;
  item_light : PointLight
}.

Record Bob := mkBob { bob_time : Q; bob_isMoving : bool; baseY : Q }.

(** [mapData.walls]: rows of cell codes, 0 = open space, 1 = wall. *)
Definition Grid := list (list Z).

Record MapData := mkMapData { walls : option Grid }.

Record World := mkWorld {
  sceneRef : option (list nat);
  cameraRef : option Camera;
  playerRef : Player;
  keysRef : list string;
  mouseRef : Mouse;
  wallsRef : list Box3;
  projectilesRef : list Projectile;
  creaturesRef : list Creature;
  mapDataRef : option MapData;
  bobRef : Bob;
  cleanupQueueRef : list CleanupItem;
  disposed : list Disposal;
  nextId : nat
}.

Definition set_scene (s : option (list nat)) (w : World) : World :=
  mkWorld s (cameraRef w) (playerRef w) (keysRef w) (mouseRef w) (wallsRef w)
          (projectilesRef w) (creaturesRef w) (mapDataRef w) (bobRef w)
          (cleanupQueueRef w) (disposed w) (nextId w).

Definition set_camera (c : option Camera) (w : World) : World :=
  mkWorld (sceneRef w) c (playerRef w) (keysRef w) (mouseRef w) (wallsRef w)
          (projectilesRef w) (creaturesRef w) (mapDataRef w) (bobRef w)
          (cleanupQueueRef w) (disposed w) (nextId w).

Definition set_player (p : Player) (w : World) : World :=
  mkWorld (sceneRef w) (cameraRef w) p (keysRef w) (mouseRef w) (wallsRef w)
          (projectilesRef w) (creaturesRef w) (mapDataRef w) (bobRef w)
          (cleanupQueueRef w) (disposed w) (nextId w).

Definition set_projectiles (ps : list Projectile) (w : World) : World :=
  mkWorld (sceneRef w) (cameraRef w) (playerRef w) (keysRef w) (mouseRef w) (wallsRef w)
          ps (creaturesRef w) (mapDataRef w) (bobRef w)
          (cleanupQueueRef w) (disposed w) (nextId w).

Definition set_creatures (cs : list Creature) (w : World) : World :=
  mkWorld (sceneRef w) (cameraRef w) (playerRef w) (keysRef w) (mouseRef w) (wallsRef w)
          (projectilesRef w) cs (mapDataRef w) (bobRef w)
          (cleanupQueueRef w) (disposed w) (nextId w).

Definition set_bob (b : Bob) (w : World) : World :=
  mkWorld (sceneRef w) (cameraRef w) (playerRef w) (keysRef w) (mouseRef w) (wallsRef w)
          (projectilesRef w) (creaturesRef w) (mapDataRef w) b
          (cleanupQueueRef w) (disposed w) (nextId w).

Definition set_cleanupQueue (q : list CleanupItem) (w : World) : World :=
  mkWorld (sceneRef w) (cameraRef w) (playerRef w) (keysRef w) (mouseRef w) (wallsRef w)
          (projectilesRef w) (creaturesRef w) (mapDataRef w) (bobRef w)
          q (disposed w) (nextId w).

Definition set_disposed (d : list Disposal) (w : World) : World :=
  mkWorld (sceneRef w) (cameraRef w) (playerRef w) (keysRef w) (mouseRef w) (wallsRef w)
          (projectilesRef w) (creaturesRef w) (mapDataRef w) (bobRef w)
          (cleanupQueueRef w) d (nextId w).

Definition set_keys (ks : list string) (w : World) : World :=
  mkWorld (sceneRef w) (cameraRef w) (playerRef w) ks (mouseRef w) (wallsRef w)
          (projectilesRef w) (creaturesRef w) (mapDataRef w) (bobRef w)
          (cleanupQueueRef w) (disposed w) (nextId w).

Definition set_walls (bs : list Box3) (w : World) : World :=
  mkWorld (sceneRef w) (cameraRef w) (playerRef w) (keysRef w) (mouseRef w) bs
          (projectilesRef w) (creaturesRef w) (mapDataRef w) (bobRef w)
          (cleanupQueueRef w) (disposed w) (nextId w).

Definition set_mapData (m : option MapData) (w : World) : World :=
  mkWorld (sceneRef w) (cameraRef w) (playerRef w) (keysRef w) (mouseRef w) (wallsRef w)
          (projectilesRef w) (creaturesRef w) m (bobRef w)
          (cleanupQueueRef w) (disposed w) (nextId w).

Definition set_nextId (n : nat) (w : World) : World :=
  mkWorld (sceneRef w) (cameraRef w) (playerRef w) (keysRef w) (mouseRef w) (wallsRef w)
          (projectilesRef w) (creaturesRef w) (mapDataRef w) (bobRef w)
          (cleanupQueueRef w) (disposed w) n.

(** [scene.remove(obj)] and [scene.add(obj)] on the scene's children; both
    are used only where the scene is known to exist. *)
Fixpoint remove_child (o : nat) (children : list nat) : list nat :=
  match children with
  | [] => []
  | c :: rest => if Nat.eqb c o then rest else c :: remove_child o rest
  end.

Definition scene_remove (o : nat) (w : World) : World :=
  match sceneRef w with
  | Some children => set_scene (Some (remove_child o children)) w
  | None => w
  end.

Definition scene_add (o : nat) (w : World) : World :=
  match sceneRef w with
  | Some children => set_scene (Some (children ++ [o])) w
  | None => w
  end.

(** [keysRef.current.has(code)]. *)
Definition has (code : string) (keys : list string) : bool :=
  existsb (String.eqb code) keys.

(** ** Movement Controller *)

Definition playerBox (newX newZ : Q) : Box3 :=
  mkBox3 (mkVector3 (newX - 0.3) 0 (newZ - 0.3))
         (mkVector3 (newX + 0.3) 2 (newZ + 0.3)).

Definition checkCollision (w : World) (newX newZ : Q) : bool :=
  if existsb (fun wallBox => intersectsBox (playerBox newX newZ) wallBox) (wallsRef w)
  then true
  else if existsb (fun creature => intersectsBox (playerBox newX newZ) (collisionBox creature))
                  (creaturesRef w)
  then true
  else false.

(** The block guarded by [if (!checkCollision(newX, newZ))], which the
    source repeats under each movement key; the boolean is the local
    [isMoving]. *)
Definition moveTo (newX newZ : Q) (st : World * bool) : World * bool :=
  let (w, isMoving) := st in
  if negb (checkCollision w newX newZ) then
    let w := set_player (mkPlayer newX newZ (angle (playerRef w))) w in
    let w := set_camera
               (option_map (fun camera =>
                  mkCamera (mkVector3 (px (playerRef w)) (vy (cam_position camera)) (py (playerRef w)))
                           (cam_rotation camera))
                  (cameraRef w)) w in
    (w, true)
  else (w, isMoving).

(** [player.angle += delta; camera.rotation.y = player.angle]. *)
Definition turn (delta : Q) (w : World) : World :=
  let p := playerRef w in
  let w := set_player (mkPlayer (px p) (py p) (angle p + delta)) w in
  set_camera
    (option_map (fun camera =>
       mkCamera (cam_position camera)
                (mkVector3 (vx (cam_rotation camera)) (angle (playerRef w)) (vz (cam_rotation camera))))
       (cameraRef w)) w.

Definition baseSpeed : Q := 0.04.
Definition sprintMultiplier : Q := 2.
Definition rotateSpeed : Q := 0.05.

(** [Math.PI]: the double nearest to pi, 884279719003555 / 2^48. *)
Definition Math_PI : Q := 884279719003555 # 281474976710656.

(** [Math.max(a, b)], [Math.min(a, b)] and [Math.round(v)], which rounds
    halves up. *)
Definition Math_max (a b : Q) : Q := if Qle_bool a b then b else a.
Definition Math_min (a b : Q) : Q := if Qle_bool a b then a else b.
Definition Math_round (v : Q) : Z := Qfloor (v + 1 / 2).

(** ** The page around the scene *)

Module Page.

Record PlayerState := mkPlayerState {
  x : Q;
  y : Q;
  angle : Q;
  health : Q;
  maxHealth : Q;
  mana : Q;
  maxMana : Q;
  level : Q;
  experience : Q
}.

(** The updater of [handlePlayerMove]. *)
Definition handlePlayerMove (x y angle : Q) (prev : PlayerState) : PlayerState :=
  mkPlayerState x y angle (health prev) (maxHealth prev) (mana prev) (maxMana prev)
                (level prev) (experience prev).

(** [handleAction(action)] on the player state: [playerState] is the
    state of the render whose closure runs, which the guards read, and
    [prev] the state that the updater receives.  The game message and its
    timer are left out; the call of [dungeonShoot], which does not touch
    the player state, is in [handleActionOnScene]. *)
Definition handleAction (action : string) (playerState prev : PlayerState) : PlayerState :=
  if String.eqb action "cast" then
    if Qle_bool 10 (mana playerState)
    then mkPlayerState (x prev) (y prev) (angle prev) (health prev) (maxHealth prev)
                       (mana prev - 10) (maxMana prev) (level prev) (experience prev)
    else prev
  else if String.eqb action "heal" then
    if Qle_bool 15 (mana playerState) &&
       negb (Qle_bool (maxHealth playerState) (health playerState))
    then mkPlayerState (x prev) (y prev) (angle prev)
                       (Math_min (health prev + 20) (maxHealth prev)) (maxHealth prev)
                       (mana prev - 15) (maxMana prev) (level prev) (experience prev)
    else prev
  else prev.

(** [handleShoot] on the references of the scene: [dungeonShoot] is the
    function that the scene registered on [window], if any. *)
Definition handleShoot (dungeonShoot : option (World -> World)) (w : World) : World :=
  match dungeonShoot with
  | Some fire => fire w
  | None => w
  end.

(** [handleAction(action)] on the references of the scene. *)
Definition handleActionOnScene (dungeonShoot : option (World -> World)) (action : string)
           (w : World) : World :=
  if String.eqb action "shoot" then handleShoot dungeonShoot w else w.

(** The map view: [length || 16], the grid centre and the cell in which a
    world position is drawn. *)
Definition lengthOr16 (n : nat) : Q :=
  if (n =? 0)%nat then 16 else inject_Z (Z.of_nat n).

Definition cellSize : Q := 2.

Definition gridCenterX (walls : Grid) : Q := lengthOr16 (List.length (nth 0 walls [])) / 2.
Definition gridCenterY (walls : Grid) : Q := lengthOr16 (List.length walls) / 2.

Definition playerGridX (walls : Grid) (x : Q) : Z := Math_round (x / cellSize + gridCenterX walls).
Definition playerGridY (walls : Grid) (y : Q) : Z := Math_round (y / cellSize + gridCenterY walls).

End Page.

(** ** The radar *)

Module Minimap.

Record Viewport := mkViewport {
  offsetX : Z;
  offsetY : Z;
  playerRadarX : Z;
  playerRadarY : Z
}.

Definition radarSize : Z := 8.
Definition cellSize : Q := 2.

(** [length || 16] on the length of an array. *)
Definition lengthOr16 (n : nat) : Z := if (n =? 0)%nat then 16%Z else Z.of_nat n.

Definition mapWidth (walls : Grid) : Z := lengthOr16 (List.length (nth 0 walls [])).
Definition mapHeight (walls : Grid) : Z := lengthOr16 (List.length walls).

(** [Math.round(player / cellSize + size / 2)]. *)
Definition playerGrid (size : Z) (player : Q) : Z :=
  Math_round (player / cellSize + inject_Z size / 2).

(** [Math.max(0, Math.min(playerGrid - Math.floor(radarSize / 2), size -
    radarSize))]. *)
Definition clampOffset (playerGrid size : Z) : Z :=
  Z.max 0 (Z.min (playerGrid - 4) (size - radarSize)).

(** [radarViewport], with [mapData?.walls] as argument. *)
Definition radarViewport (walls : option Grid) (playerX playerY : Q) : Viewport :=
  match walls with
  | None => mkViewport 0 0 4 4
  | Some walls =>
    let playerGridX := playerGrid (mapWidth walls) playerX in
    let playerGridY := playerGrid (mapHeight walls) playerY in
    let offsetX := clampOffset playerGridX (mapWidth walls) in
    let offsetY := clampOffset playerGridY (mapHeight walls) in
    mkViewport offsetX offsetY (playerGridX - offsetX) (playerGridY - offsetY)
  end.

(** The cell pushed for the radar position [(x, y)]; [None] stands for
    [undefined], read from a row shorter than the first one. *)
Definition radarCell (walls : Grid) (viewport : Viewport) (x y : Z) : option Z :=
  let mapX := (offsetX viewport + x)%Z in
  let mapY := (offsetY viewport + y)%Z in
  if (0 <=? mapY)%Z && (mapY <? Z.of_nat (List.length walls))%Z &&
     (0 <=? mapX)%Z && (mapX <? Z.of_nat (List.length (nth 0 walls [])))%Z
  then nth_error (nth (Z.to_nat mapY) walls []) (Z.to_nat mapX)
  else Some 2%Z.

(** [radarGrid], with [mapData?.walls] as argument. *)
Definition radarGrid (walls : option Grid) (viewport : Viewport) : list (list (option Z)) :=
  match walls with
  | None => repeat (repeat (Some 0%Z) 8) 8
  | Some walls =>
    map (fun y => map (fun x => radarCell walls viewport (Z.of_nat x) (Z.of_nat y)) (seq 0 8))
        (seq 0 8)
  end.

End Minimap.

(** ** The action bar *)

Module ActionBar.

(** [handleShoot] of the crossbow: the state [isShooting] after the
    click, and the world after [onAction("shoot")] where it is called. *)
Definition handleShoot (onAction : string -> World -> World) (st : bool * World)
  : bool * World :=
  let (isShooting, w) := st in
  if isShooting then (isShooting, w) else (true, onAction "shoot" w).

(** What happens to the action bar: a click on the crossbow, or the
    callback of a timer set by [handleShoot], which resets [isShooting]. *)
Inductive Event := Click | TimerFired.

Definition step (onAction : string -> World -> World) (st : bool * World) (event : Event)
  : bool * World :=
  match event with
  | Click => handleShoot onAction st
  | TimerFired => (false, snd st)
  end.

Definition run (onAction : string -> World -> World) (events : list Event)
           (st : bool * World) : bool * World :=
  fold_left (step onAction) events st.

Definition timersFired (events : list Event) : nat :=
  List.length (filter (fun event => match event with TimerFired => true | Click => false end)
                      events).

End ActionBar.

Section Simulation.

(** [Math.sin], [Math.cos] and [Math.sqrt]. *)
Variables sin cos sqrt : Q -> Q.

(** One [if (key held) { newX = ...; newZ = ...; if (!checkCollision(newX,
    newZ)) {...} }] block; [candidate] gives [(newX, newZ)] from the player
    as the block finds it. *)
Definition tryKey (held : bool) (candidate : Player -> Q * Q) (st : World * bool) : World * bool :=
  if held
  then moveTo (fst (candidate (playerRef (fst st)))) (snd (candidate (playerRef (fst st)))) st
  else st.

(** The four candidates of the source: forward, backward, and the two
    sideways ones that the keys A/Q and D/E share. *)
Definition forwardOf (moveSpeed : Q) (player : Player) : Q * Q :=
  (px player - sin (angle player) * moveSpeed, py player - cos (angle player) * moveSpeed).

Definition backwardOf (moveSpeed : Q) (player : Player) : Q * Q :=
  (px player + sin (angle player) * moveSpeed, py player + cos (angle player) * moveSpeed).

Definition leftOf (moveSpeed : Q) (player : Player) : Q * Q :=
  (px player - cos (angle player) * moveSpeed, py player + sin (angle player) * moveSpeed).

Definition rightOf (moveSpeed : Q) (player : Player) : Q * Q :=
  (px player + cos (angle player) * moveSpeed, py player - sin (angle player) * moveSpeed).

Definition handleMovement (w : World) : World :=
  match cameraRef w with
  | None => w
  | Some _ =>
    let keys := keysRef w in
    let isShiftHeld := has "ShiftLeft" keys || has "ShiftRight" keys in
    let moveSpeed := baseSpeed * (if isShiftHeld then sprintMultiplier else 1) in
    let locked := isLocked (mouseRef w) in
    let w :=
      if negb locked then
        let w := if has "ArrowLeft" keys || has "KeyA" keys then turn (- rotateSpeed) w else w in
        if has "ArrowRight" keys || has "KeyD" keys then turn rotateSpeed w else w
      else w in
    let st := (w, false) in
    let st := tryKey (has "ArrowUp" keys || has "KeyW" keys) (forwardOf moveSpeed) st in
    let st := tryKey (has "ArrowDown" keys || has "KeyS" keys) (backwardOf moveSpeed) st in
    let st := tryKey (has "KeyA" keys && locked) (leftOf moveSpeed) st in
    let st := tryKey (has "KeyD" keys && locked) (rightOf moveSpeed) st in
    let st := tryKey (has "KeyQ" keys && negb locked) (leftOf moveSpeed) st in
    let st := tryKey (has "KeyE" keys && negb locked) (rightOf moveSpeed) st in
    let (w, isMoving) := st in
    let bob := bobRef w in
    let setCameraY (y : Q) (w : World) :=
      set_camera
        (option_map (fun camera =>
           mkCamera (mkVector3 (vx (cam_position camera)) y (vz (cam_position camera)))
                    (cam_rotation camera))
           (cameraRef w)) w in
    let cameraY := match cameraRef w with
                   | Some camera => vy (cam_position camera)
                   | None => 0
                   end in
    if isMoving then
      let bobSpeedMultiplier := if isShiftHeld then 1.5 else 1 in
      let time := bob_time bob + 0.15 * bobSpeedMultiplier in
      let bobAmount := sin time * 0.05 in
      setCameraY (baseY bob + bobAmount) (set_bob (mkBob time isMoving (baseY bob)) w)
    else
      let currentBob := cameraY - baseY bob in
      setCameraY (baseY bob + currentBob * 0.9) (set_bob (mkBob 0 isMoving (baseY bob)) w)
  end.

(** ** Deferred Cleanup Queue *)

Definition disposeMaterial (m : MaterialSlot) : list Disposal :=
  match m with
  | MaterialArray ms => map (fun mat => MaterialDisposed (mat_id mat)) ms
  | OneMaterial mat => [MaterialDisposed (mat_id mat)]
  end.

(** [m.geometry.dispose()] followed by the disposal of [m.material]. *)
Definition disposeMesh (m : Mesh) : list Disposal :=
  GeometryDisposed (geometry m) :: disposeMaterial (material m).

(** The body of [itemsToClean.forEach]. *)
Definition cleanItem (item : CleanupItem) : list Disposal :=
  disposeMesh (item_body item) ++ disposeMesh (item_leftEye item) ++ disposeMesh (item_rightEye item).

Definition processCleanupQueue (w : World) : World :=
  match cleanupQueueRef w with
  | [] => w
  | queue =>
    let itemsToClean := firstn 2 queue in
    let w := set_cleanupQueue (skipn 2 queue) w in
    set_disposed (disposed w ++ flat_map cleanItem itemsToClean) w
  end.

(** ** Projectile System *)

(** [new THREE.Box3().setFromObject(projectile.mesh)]: the world box of the
    bolt, which depends on its orientation. *)
Variable setFromObject : Mesh -> Box3.

(** [new THREE.Vector3(0, 0, -1).applyQuaternion(camera.quaternion)]. *)
Variable cameraDirection : Camera -> Vector3.

(** [shoot].  The six identities drawn are those of the bolt's geometry,
    material and mesh and of the glow's geometry, material and mesh; the
    glow is a child of the bolt and no reference holds it. *)
Definition shoot (w : World) : World :=
  match sceneRef w, cameraRef w with
  | Some _, Some camera =>
    let n := nextId w in
    let boltGeometry := n in
    let boltMaterial := mkMaterial (n + 1) 0.9 in
    let glowGeometry := (n + 3)%nat in
    let glowMaterial := mkMaterial (n + 4) 0.3 in
    let glow := mkMesh (n + 5) (mkVector3 0 0 0) glowGeometry (OneMaterial glowMaterial) [] in
    let bolt := mkMesh (n + 2)
                       (mkVector3 (vx (cam_position camera)) (vy (cam_position camera) - 0.2)
                                  (vz (cam_position camera)))
                       boltGeometry (OneMaterial boltMaterial) [glow] in
    let direction := cameraDirection camera in
    let w := set_nextId (n + 6) w in
    let w := scene_add (mesh_id bolt) w in
    set_projectiles (projectilesRef w ++ [mkProjectile bolt (multiplyScalar direction 0.8) 100]) w
  | _, _ => w
  end.

(** [array.splice(i, 1)]. *)
Definition splice1 {A : Type} (i : nat) (l : list A) : list A :=
  firstn i l ++ skipn (S i) l.

(** The body of [if (projectileBox.intersectsBox(creature.collisionBox))]. *)
Definition destroyCreature (i : nat) (creature : Creature) (w : World) : World :=
  let w := scene_remove (mesh_id (body creature)) w in
  let w := scene_remove (mesh_id (leftEye creature)) w in
  let w := scene_remove (mesh_id (rightEye creature)) w in
  let w := scene_remove (light_id (light creature)) w in
  let w := set_cleanupQueue
             (cleanupQueueRef w ++
              [mkCleanupItem (body creature) (leftEye creature) (rightEye creature) (light creature)]) w in
  set_creatures (splice1 i (creaturesRef w)) w.

(** [for (let i = creatures.length - 1; i >= 0; i--)], with [n] the number
    of indices still to visit, so that the index visited is [n - 1].  The
    boolean is [hitCreature]. *)
Fixpoint scanCreatures (projectileBox : Box3) (n : nat) (w : World) : bool * World :=
  match n with
  | O => (false, w)
  | S i =>
    match nth_error (creaturesRef w) i with
    | Some creature =>
      if intersectsBox projectileBox (collisionBox creature)
      then (true, destroyCreature i creature w)
      else scanCreatures projectileBox i w
    | None => (false, w)
    end
  end.

(** [projectile.mesh.position.add(projectile.velocity); projectile.life--]. *)
Definition advance (projectile : Projectile) : Projectile :=
  let m := mesh projectile in
  mkProjectile (mkMesh (mesh_id m) (vadd (position m) (velocity projectile)) (geometry m) (material m)
                       (children m))
               (velocity projectile) (life projectile - 1).

(** The callback of [projectilesRef.current.filter]: the projectile as it
    is after the call, whether it is kept, and the world. *)
Definition stepProjectile (projectile : Projectile) (w : World) : (bool * Projectile) * World :=
  let projectile := advance projectile in
  let projectileBox := setFromObject (mesh projectile) in
  let hitWall := existsb (fun wallBox => intersectsBox projectileBox wallBox) (wallsRef w) in
  let (hitCreature, w) := scanCreatures projectileBox (List.length (creaturesRef w)) w in
  if hitWall || hitCreature || (life projectile <=? 0)%Z then
    let w := scene_remove (mesh_id (mesh projectile)) w in
    let w := set_disposed (disposed w ++ disposeMesh (mesh projectile)) w in
    ((false, projectile), w)
  else ((true, projectile), w).

Fixpoint filterProjectiles (ps : list Projectile) (w : World) : list Projectile * World :=
  match ps with
  | [] => ([], w)
  | projectile :: rest =>
    let '((keep, projectile), w) := stepProjectile projectile w in
    let (kept, w) := filterProjectiles rest w in
    (if keep then projectile :: kept else kept, w)
  end.

Definition updateProjectiles (w : World) : World :=
  match sceneRef w with
  | None => w
  | Some _ =>
    let (kept, w) := filterProjectiles (projectilesRef w) w in
    set_projectiles kept w
  end.

(** ** Creature AI Pool *)

Definition cellSize : Q := 2.

(** [walls[0].length] and [walls.length] as numbers.  An empty matrix has
    no first row; no creature exists then, and the width is read as 0. *)
Definition rowLength (walls : Grid) : Q :=
  inject_Z (Z.of_nat (List.length (nth 0 walls []))).

Definition rowCount (walls : Grid) : Q :=
  inject_Z (Z.of_nat (List.length walls)).

(** [walls[row][col]], [None] standing for [undefined]; used only with
    [row] inside the matrix. *)
Definition cellAt (walls : Grid) (row col : Z) : option Z :=
  if (row <? 0)%Z || (col <? 0)%Z then None
  else match nth_error walls (Z.to_nat row) with
       | Some cells => nth_error cells (Z.to_nat col)
       | None => None
       end.

(** [value === 0] on a cell. *)
Definition isOpen (cell : option Z) : bool :=
  match cell with
  | Some v => (v =? 0)%Z
  | None => false
  end.

(** World to grid, as [updateCreatures] computes it. *)
Definition gridXOf (walls : Grid) (x : Q) : Z :=
  Qfloor ((x + (rowLength walls * cellSize) / 2) / cellSize).

Definition gridZOf (walls : Grid) (z : Q) : Z :=
  Qfloor ((z + (rowCount walls * cellSize) / 2) / cellSize).

(** [a > b] on numbers. *)
Definition Qgtb (a b : Q) : bool := negb (Qle_bool a b).

Definition setOpacity (o : Q) (m : Mesh) : Mesh :=
  match material m with
  | OneMaterial mat =>
    mkMesh (mesh_id m) (position m) (geometry m) (OneMaterial (mkMaterial (mat_id mat) o))
           (children m)
  | MaterialArray _ => m
  end.

Definition setPositionY (y : Q) (m : Mesh) : Mesh :=
  mkMesh (mesh_id m) (mkVector3 (vx (position m)) y (vz (position m))) (geometry m) (material m)
         (children m).

Definition setPositionXZ (x z : Q) (m : Mesh) : Mesh :=
  mkMesh (mesh_id m) (mkVector3 x (vy (position m)) z) (geometry m) (material m) (children m).

(** [Date.now()] as read while the creature at the given index is
    updated. *)
Variable dateNow : nat -> Q.

(** The callback of [creaturesRef.current.forEach] in [updateCreatures]. *)
Definition stepCreature (walls : Grid) (playerX playerZ : Q) (wallBoxes : list Box3)
           (index : nat) (creature : Creature) : Creature :=
  let time := dateNow index * 0.001 in
  let idx := inject_Z (Z.of_nat index) in
  let creature :=
    mkCreature (setPositionY (0.8 + sin (time + idx) * 0.1) (body creature))
               (setOpacity (0.7 + sin (time * 2 + idx) * 0.2) (leftEye creature))
               (setOpacity (0.7 + sin (time * 2 + idx) * 0.2) (rightEye creature))
               (light creature) (targetX creature) (targetZ creature) (collisionBox creature) in
  let dx := playerX - vx (position (body creature)) in
  let dz := playerZ - vz (position (body creature)) in
  let distance := sqrt (dx * dx + dz * dz) in
  if Qgtb distance 1.5 then
    let moveSpeed := 0.02 in
    let dirX := dx / distance in
    let dirZ := dz / distance in
    let newX := vx (position (body creature)) + dirX * moveSpeed in
    let newZ := vz (position (body creature)) + dirZ * moveSpeed in
    let gridX := gridXOf walls newX in
    let gridZ := gridZOf walls newZ in
    if (0 <=? gridX)%Z && (gridX <? Z.of_nat (List.length (nth 0 walls [])))%Z &&
       (0 <=? gridZ)%Z && (gridZ <? Z.of_nat (List.length walls))%Z &&
       isOpen (cellAt walls gridZ gridX)
    then
      let creatureBox := mkBox3 (mkVector3 (newX - 0.4) 0 (newZ - 0.4))
                                (mkVector3 (newX + 0.4) 1.6 (newZ + 0.4)) in
      let canMove := negb (existsb (fun wallBox => intersectsBox creatureBox wallBox) wallBoxes) in
      if canMove then
        mkCreature (setPositionXZ newX newZ (body creature))
                   (setPositionXZ (newX - 0.1) (newZ + 0.3) (leftEye creature))
                   (setPositionXZ (newX + 0.1) (newZ + 0.3) (rightEye creature))
                   (mkPointLight (light_id (light creature))
                                 (mkVector3 newX (vy (light_position (light creature))) newZ))
                   (targetX creature) (targetZ creature)
                   (setFromCenterAndSize (mkVector3 newX 0.8 newZ) (mkVector3 0.8 1.6 0.8))
      else creature
    else creature
  else creature.

(** [array.forEach((item, index) => ...)] over objects updated in place. *)
Fixpoint mapi_from {A B : Type} (f : nat -> A -> B) (i : nat) (l : list A) : list B :=
  match l with
  | [] => []
  | a :: rest => f i a :: mapi_from f (S i) rest
  end.

Definition updateCreatures (w : World) : World :=
  match mapDataRef w with
  | Some mapData =>
    match walls mapData with
    | Some grid =>
      set_creatures
        (mapi_from (stepCreature grid (px (playerRef w)) (py (playerRef w)) (wallsRef w)) 0
                   (creaturesRef w)) w
    | None => w
    end
  | None => w
  end.

(** ** Creature creation *)

(** The two nested loops that collect [openSpaces], row by row. *)
Definition openSpacesOf (grid : Grid) : list (Q * Q) :=
  List.concat
    (mapi_from
       (fun row cells =>
          List.concat
            (mapi_from
               (fun col cell =>
                  if (cell =? 0)%Z
                  then [((inject_Z (Z.of_nat col) - rowLength grid / 2) * cellSize,
                         (inject_Z (Z.of_nat row) - rowCount grid / 2) * cellSize)]
                  else [])
               0%nat cells))
       0%nat grid).

(** The collision boxes that [createWalls] returns, in the order of its
    loops: for each cell of code 1, the box of a [cellSize] x [wallHeight]
    x [cellSize] block centred at the cell's world position, at height
    [wallHeight / 2]. *)
Definition wallHeight : Q := 2.4.

Definition collisionBoxesOf (grid : Grid) : list Box3 :=
  List.concat
    (mapi_from
       (fun row cells =>
          List.concat
            (mapi_from
               (fun col cell =>
                  if (cell =? 1)%Z
                  then [setFromCenterAndSize
                          (mkVector3 ((inject_Z (Z.of_nat col) - rowLength grid / 2) * cellSize)
                                     (wallHeight / 2)
                                     ((inject_Z (Z.of_nat row) - rowCount grid / 2) * cellSize))
                          (mkVector3 cellSize wallHeight cellSize)]
                  else [])
               0%nat cells))
       0%nat grid).

(** [openSpaces.sort(() => Math.random() - 0.5)]. *)
Variable shuffle : list (Q * Q) -> list (Q * Q).

(** [Math.min(5, Math.max(3, Math.floor(n / 10)))]. *)
Definition numCreaturesOf (n : nat) : nat :=
  Nat.min 5 (Nat.max 3 (n / 10)).

(** One pass of the creation loop for a defined [pos]. *)
Definition spawnCreature (pos : Q * Q) (w : World) : World :=
  let (x, z) := pos in
  let n := nextId w in
  let bodyGeometry := n in
  let bodyMaterial := mkMaterial (n + 1) 0.8 in
  let body := mkMesh (n + 2) (mkVector3 x 0.8 z) bodyGeometry (OneMaterial bodyMaterial) [] in
  let eyeGeometry := (n + 3)%nat in
  let eyeMaterial := mkMaterial (n + 4) 0.9 in
  let leftEye := mkMesh (n + 5) (mkVector3 (x - 0.1) 1.3 (z + 0.3)) eyeGeometry
                        (OneMaterial eyeMaterial) [] in
  let rightEye := mkMesh (n + 6) (mkVector3 (x + 0.1) 1.3 (z + 0.3)) eyeGeometry
                         (OneMaterial eyeMaterial) [] in
  let glowLight := mkPointLight (n + 7) (mkVector3 x 1 z) in
  let collisionBox := mkBox3 (mkVector3 (x - 0.4) 0 (z - 0.4)) (mkVector3 (x + 0.4) 1.6 (z + 0.4)) in
  let w := set_nextId (n + 8) w in
  let w := scene_add (mesh_id body) w in
  let w := scene_add (mesh_id leftEye) w in
  let w := scene_add (mesh_id rightEye) w in
  let w := scene_add (light_id glowLight) w in
  set_creatures
    (creaturesRef w ++ [mkCreature body leftEye rightEye glowLight x z collisionBox]) w.

(** [for (let i = ...; i < numCreatures; i++)] with [remaining] passes
    left; a pass whose [shuffledSpaces[i]] is undefined is skipped. *)
Fixpoint spawnLoop (shuffledSpaces : list (Q * Q)) (i remaining : nat) (w : World) : World :=
  match remaining with
  | O => w
  | S remaining' =>
    let w := match nth_error shuffledSpaces i with
             | Some pos => spawnCreature pos w
             | None => w
             end in
    spawnLoop shuffledSpaces (S i) remaining' w
  end.

(** The body of the first [forEach] of [createShadowCreatures]. *)
Definition retireCreature (w : World) (creature : Creature) : World :=
  let w := scene_remove (mesh_id (body creature)) w in
  let w := scene_remove (mesh_id (leftEye creature)) w in
  let w := scene_remove (mesh_id (rightEye creature)) w in
  let w := scene_remove (light_id (light creature)) w in
  set_cleanupQueue
    (cleanupQueueRef w ++
     [mkCleanupItem (body creature) (leftEye creature) (rightEye creature) (light creature)]) w.

(** [createShadowCreatures(scene)], with [scene] the scene of [sceneRef]. *)
Definition createShadowCreatures (w : World) : World :=
  let w := fold_left retireCreature (creaturesRef w) w in
  let w := set_creatures [] w in
  match mapDataRef w with
  | Some mapData =>
    match walls mapData with
    | Some grid =>
      let openSpaces := openSpacesOf grid in
      let numCreatures := numCreaturesOf (List.length openSpaces) in
      let shuffledSpaces := shuffle openSpaces in
      spawnLoop shuffledSpaces 0 numCreatures w
    | None => w
    end
  | None => w
  end.

(** ** Frame Scheduler *)

(** One call of [animate], up to the rendering of the frame. *)
Definition animate (w : World) : World :=
  let w := handleMovement w in
  let w := updateProjectiles w in
  let w := updateCreatures w in
  processCleanupQueue w.

(** ** Input handlers *)

Definition set_mouse (m : Mouse) (w : World) : World :=
  mkWorld (sceneRef w) (cameraRef w) (playerRef w) (keysRef w) m (wallsRef w)
          (projectilesRef w) (creaturesRef w) (mapDataRef w) (bobRef w)
          (cleanupQueueRef w) (disposed w) (nextId w).

(** [keysRef.current.add(code)] and [keysRef.current.delete(code)] on the
    set held as a list without repetition, in insertion order. *)
Definition keysAdd (code : string) (keys : list string) : list string :=
  if has code keys then keys else keys ++ [code].

Definition keysDelete (code : string) (keys : list string) : list string :=
  filter (fun key => negb (String.eqb code key)) keys.

Definition handleKeyDown (code : string) (w : World) : World :=
  let w := set_keys (keysAdd code (keysRef w)) w in
  if String.eqb code "Space" then shoot w else w.

Definition handleKeyUp (code : string) (w : World) : World :=
  set_keys (keysDelete code (keysRef w)) w.

(** [handleMouseMove], with [event.movementX || 0] and
    [event.movementY || 0] as arguments. *)
Definition handleMouseMove (movementX movementY : Q) (w : World) : World :=
  if negb (isLocked (mouseRef w)) then w
  else
    let mouse := mouseRef w in
    let player := playerRef w in
    let w := set_player (mkPlayer (px player) (py player)
                                  (angle player - movementX * sensitivity mouse)) w in
    let y := mouse_y mouse - movementY * sensitivity mouse in
    let y := Math_max (- Math_PI / 3) (Math_min (Math_PI / 3) y) in
    let w := set_mouse (mkMouse (mouse_x mouse) y (sensitivity mouse) (isLocked mouse)) w in
    set_camera
      (option_map (fun camera =>
         mkCamera (cam_position camera)
                  (mkVector3 (mouse_y (mouseRef w)) (angle (playerRef w)) 0))
         (cameraRef w)) w.

(** [handlePointerLockChange], with the outcome of the comparison of
    [document.pointerLockElement] with the canvas as argument. *)
Definition handlePointerLockChange (onCanvas : bool) (w : World) : World :=
  let mouse := mouseRef w in
  set_mouse (mkMouse (mouse_x mouse) (mouse_y mouse) (sensitivity mouse) onCanvas) w.

(** [handleClick] where the canvas exists; the boolean of the result
    tells whether [requestPointerLock()] was called.  [handleClick] is a
    closure of the effect that builds the scene: [inventoryVisible] is the
    prop as it was in the render in which that effect ran, not as it is
    when the click comes. *)
Definition handleClick (inventoryVisible : bool) (w : World) : World * bool :=
  if isLocked (mouseRef w) then (shoot w, false)
  else if negb inventoryVisible then (w, true)
  else (w, false).

(** A later render, with whether [mapData] changed and the value of
    [inventoryVisible]: the effect has [mapData] as its only dependency,
    so it runs again, and registers a click listener closed over the new
    value, only when [mapData] changed; otherwise the listener registered
    before stays. *)
Definition rerender (listener : World -> World * bool) (render : bool * bool)
  : World -> World * bool :=
  let (mapDataChanged, inventoryVisible) := render in
  if mapDataChanged then handleClick inventoryVisible else listener.

(** The click listener in place after the effect ran with
    [inventoryVisible] and the given renders followed. *)
Definition clickListener (inventoryVisible : bool) (renders : list (bool * bool))
  : World -> World * bool :=
  fold_left rerender renders (handleClick inventoryVisible).

(** ** Scene construction *)

(** The verdict of the filter of [createWalls] on a child of the scene:
    a mesh with a box geometry whose [position.y] is [wallHeight / 2]. *)
Variable isWallMesh : nat -> bool.

(** The first loop of [createWalls]: the first cell of code 0 in reading
    order, as [(row, col)]. *)
Fixpoint firstOpenInRow (cells : list Z) (col : nat) : option nat :=
  match cells with
  | [] => None
  | cell :: rest => if (cell =? 0)%Z then Some col else firstOpenInRow rest (S col)
  end.

Fixpoint firstOpenCell (rows : Grid) (row : nat) : option (nat * nat) :=
  match rows with
  | [] => None
  | cells :: rest =>
    match firstOpenInRow cells 0 with
    | Some col => Some (row, col)
    | None => firstOpenCell rest (S row)
    end
  end.

(** [(col - walls[0].length / 2) * cellSize] and
    [(row - walls.length / 2) * cellSize]. *)
Definition cellCentreX (grid : Grid) (col : nat) : Q :=
  (inject_Z (Z.of_nat col) - rowLength grid / 2) * cellSize.

Definition cellCentreZ (grid : Grid) (row : nat) : Q :=
  (inject_Z (Z.of_nat row) - rowCount grid / 2) * cellSize.

(** The body of [if (walls[row][col] === 0)] in the spawn loop. *)
Definition placeSpawn (grid : Grid) (w : World) : World :=
  match firstOpenCell grid 0 with
  | Some (row, col) =>
    let spawnX := cellCentreX grid col in
    let spawnZ := cellCentreZ grid row in
    let w := set_player (mkPlayer spawnX spawnZ Math_PI) w in
    set_camera
      (option_map (fun camera =>
         mkCamera (mkVector3 spawnX (vy (cam_position camera)) spawnZ)
                  (mkVector3 (vx (cam_rotation camera)) (angle (playerRef w))
                             (vz (cam_rotation camera))))
         (cameraRef w)) w
  | None => w
  end.

(** The positions of the cells of code 1, in the order of the second pair
    of loops of [createWalls]. *)
Definition wallPositionsOf (grid : Grid) : list (Q * Q) :=
  List.concat
    (mapi_from
       (fun row cells =>
          List.concat
            (mapi_from
               (fun col cell =>
                  if (cell =? 1)%Z then [(cellCentreX grid col, cellCentreZ grid row)] else [])
               0%nat cells))
       0%nat grid).

(** The body of [if (walls[row][col] === 1)]: a geometry and a mesh are
    created, the mesh joins the scene and its box the collision boxes. *)
Definition addWall (st : list Box3 * World) (pos : Q * Q) : list Box3 * World :=
  let (collisionBoxes, w) := st in
  let (x, z) := pos in
  let n := nextId w in
  let mesh := (n + 1)%nat in
  let w := set_nextId (n + 2) w in
  let w := scene_add mesh w in
  (collisionBoxes ++
   [setFromCenterAndSize (mkVector3 x (wallHeight / 2) z) (mkVector3 cellSize wallHeight cellSize)],
   w).

(** [createWalls(scene)] for the [mapData] of the render; the first
    identity drawn is that of the wall material. *)
Definition createWalls (mapData : option MapData) (w : World) : list Box3 * World :=
  let w := set_nextId (nextId w + 1) w in
  match mapData with
  | Some data =>
    match walls data with
    | Some grid =>
      let existingWalls := match sceneRef w with
                           | Some children => filter isWallMesh children
                           | None => []
                           end in
      let w := fold_left (fun w wall => scene_remove wall w) existingWalls w in
      let w := placeSpawn grid w in
      fold_left addWall (wallPositionsOf grid) ([], w)
    | None => ([], w)
    end
  | None => ([], w)
  end.

(** [createDoors(scene)]: geometry, material, mesh. *)
Definition createDoors (w : World) : World :=
  let n := nextId w in
  scene_add (n + 2) (set_nextId (n + 3) w).

(** [createDungeonEnvironment(scene)]: the floor and the ceiling (geometry,
    material, mesh each), the walls, the door. *)
Definition createDungeonEnvironment (mapData : option MapData) (w : World) : World :=
  let w := set_mapData mapData w in
  let n := nextId w in
  let w := scene_add (n + 2) (set_nextId (n + 3) w) in
  let n := nextId w in
  let w := scene_add (n + 2) (set_nextId (n + 3) w) in
  let (wallCollisions, w) := createWalls mapData w in
  let w := set_walls wallCollisions w in
  createDoors w.

(** [createTorchAtPosition]: holder, handle and flame (geometry and mesh
    each) and a point light; the four objects join the scene. *)
Definition createTorchAtPosition (w : World) (pos : Q * Q) : World :=
  let n := nextId w in
  let w := set_nextId (n + 7) w in
  let w := scene_add (n + 1) w in
  let w := scene_add (n + 3) w in
  let w := scene_add (n + 4) w in
  scene_add (n + 6) w.

(** [walls[row][col] === code], false when the cell is missing. *)
Definition cellIs (grid : Grid) (row col : nat) (code : Z) : bool :=
  match nth_error grid row with
  | Some cells =>
    match nth_error cells col with
    | Some cell => (cell =? code)%Z
    | None => false
    end
  | None => false
  end.

(** [directions.find((dir) => dir.check)] and the torch it gives, for a
    wall cell inside the border. *)
Definition torchFor (grid : Grid) (row col : nat) : list (Q * Q) :=
  let baseX := cellCentreX grid col in
  let baseZ := cellCentreZ grid row in
  if cellIs grid (row - 1) col 0 then [(baseX + 0, baseZ + - cellSize * 0.4)]
  else if cellIs grid (row + 1) col 0 then [(baseX + 0, baseZ + cellSize * 0.4)]
  else if cellIs grid row (col - 1) 0 then [(baseX + - cellSize * 0.4, baseZ + 0)]
  else if cellIs grid row (col + 1) 0 then [(baseX + cellSize * 0.4, baseZ + 0)]
  else [].

(** The loops of [createTorchLights] over the rows and columns inside the
    border: [for (row = 1; row < walls.length - 1; row++)] and the like. *)
Definition torchPositionsOf (grid : Grid) : list (Q * Q) :=
  flat_map
    (fun row =>
       flat_map
         (fun col => if cellIs grid row col 1 then torchFor grid row col else [])
         (seq 1 (List.length (nth row grid []) - 2)))
    (seq 1 (List.length grid - 2)).

(** [array.filter((_, index) => keep(index))]. *)
Fixpoint filterIndex {A : Type} (keep : nat -> bool) (i : nat) (l : list A) : list A :=
  match l with
  | [] => []
  | a :: rest => if keep i then a :: filterIndex keep (S i) rest else filterIndex keep (S i) rest
  end.

Definition maxTorches : nat := 8.

Definition selectedPositionsOf (torchPositions : list (Q * Q)) : list (Q * Q) :=
  firstn maxTorches
    (filterIndex
       (fun index => (index mod Nat.max 1 (List.length torchPositions / maxTorches) =? 0)%nat)
       0 torchPositions).

(** The positions used when the stored map has no walls. *)
Definition fallbackTorches : list (Q * Q) :=
  [(-10, -10); (10, -10); (-10, 10); (10, 10); (0, 0)].

(** [createTorchLights(scene)]; the first three identities are those of
    the shared materials. *)
Definition createTorchLights (w : World) : World :=
  let w := set_nextId (nextId w + 3) w in
  match match mapDataRef w with Some data => walls data | None => None end with
  | None => fold_left createTorchAtPosition fallbackTorches w
  | Some grid =>
    let w := fold_left createTorchAtPosition (selectedPositionsOf (torchPositionsOf grid)) w in
    createShadowCreatures w
  end.

(** The body of the effect that builds the scene, where the mount point
    exists, up to the first call of [animate]: nothing is done while
    [mapData] is missing. *)
Definition mountScene (mapData : option MapData) (w : World) : World :=
  match mapData with
  | None => w
  | Some _ =>
    let w := set_scene (Some []) w in
    let w := set_camera (Some (mkCamera (mkVector3 0 1.6 0) (mkVector3 0 0 0))) w in
    let w := createDungeonEnvironment mapData w in
    let n := nextId w in
    let w := scene_add n (set_nextId (n + 1) w) in
    createTorchLights w
  end.

(** ** Vocabulary of the properties *)

(** The number of open (code 0) cells of a map. *)
Definition openCellCount (grid : Grid) : nat :=
  List.length (filter (fun cell => (cell =? 0)%Z) (List.concat grid)).

(** The references as they stand once the scene exists and before a map
    is stored: an empty scene, the camera at eye level, no key held. *)
Definition initialWorld : World :=
  mkWorld (Some []) (Some (mkCamera (mkVector3 0 1.6 0) (mkVector3 0 0 0)))
          (mkPlayer 0 0 0) [] (mkMouse 0 0 0.002 false) [] [] [] None
          (mkBob 0 false 1.6) [] [] 0.

(** The map and its wall boxes stored, as [createDungeonEnvironment]
    stores them. *)
Definition withMap (grid : Grid) (w : World) : World :=
  set_walls (collisionBoxesOf grid) (set_mapData (Some (mkMapData (Some grid))) w).

(** The player, and the camera with it, at a given pose. *)
Definition standingAt (x z a : Q) (w : World) : World :=
  set_camera (Some (mkCamera (mkVector3 x 1.6 z) (mkVector3 0 a 0)))
             (set_player (mkPlayer x z a) w).

(** An 8 x 8 map with 50 open cells. *)
Definition grid50 : Grid :=
  [ [1;1;1;1;1;1;1;1];
    [0;0;0;0;0;0;0;0];
    [0;0;0;0;0;0;0;0];
    [0;0;0;0;0;0;0;0];
    [0;0;0;0;0;0;0;0];
    [0;0;0;0;0;0;0;0];
    [0;0;0;0;0;0;0;0];
    [1;1;1;1;1;1;0;0] ]%Z.

(** A map with a single open cell. *)
Definition grid1 : Grid := [ [1;1;1]; [1;0;1]; [1;1;1] ]%Z.

(** A 4 x 4 map without walls, and one with a single wall cell, whose
    block is centred at the origin of the world. *)
Definition openGrid : Grid :=
  [ [0;0;0;0]; [0;0;0;0]; [0;0;0;0]; [0;0;0;0] ]%Z.

Definition pillarGrid : Grid :=
  [ [0;0;0;0]; [0;0;0;0]; [0;0;1;0]; [0;0;0;0] ]%Z.

(** The box of a projectile once advanced meets a wall box, respectively
    the collision box of a creature of the pool. *)
Definition hitsWall (w : World) (projectile : Projectile) : bool :=
  existsb (fun wallBox => intersectsBox (setFromObject (mesh (advance projectile))) wallBox)
          (wallsRef w).

Definition hitsCreature (w : World) (projectile : Projectile) : bool :=
  existsb (fun creature =>
             intersectsBox (setFromObject (mesh (advance projectile))) (collisionBox creature))
          (creaturesRef w).

(** The materials of a mesh: its one material, or the entries of its
    material array. *)
Definition materialsOf (m : Mesh) : list Material :=
  match material m with
  | OneMaterial mat => [mat]
  | MaterialArray ms => ms
  end.

(** What the release of a mesh's own resources records: its geometry,
    then each of its materials.  The resources of its children are not
    among them. *)
Definition releaseOf (m : Mesh) : list Disposal :=
  GeometryDisposed (geometry m) :: map (fun mat => MaterialDisposed (mat_id mat)) (materialsOf m).

(** The bundle pushed on the cleanup queue for a creature. *)
Definition bundleOf (creature : Creature) : CleanupItem :=
  mkCleanupItem (body creature) (leftEye creature) (rightEye creature) (light creature).

(** A camera looking down the negative z axis, the box of a bolt fired
    that way (length 0.8 along z, glow radius 0.08), and the bolt that
    [shoot] creates with them when the player stands at the origin and no
    identity has been drawn yet. *)
Definition lookingForward : Camera -> Vector3 := fun _ => mkVector3 0 0 (-1).

Definition boltBoxAlongZ (m : Mesh) : Box3 :=
  setFromCenterAndSize (position m) (mkVector3 0.16 0.16 0.8).

Definition firstBolt : Projectile :=
  mkProjectile (mkMesh 2 (mkVector3 0 (1.6 - 0.2) 0) 0 (OneMaterial (mkMaterial 1 0.9))
                       [mkMesh 5 (mkVector3 0 0 0) 3 (OneMaterial (mkMaterial 4 0.3)) []])
               (multiplyScalar (mkVector3 0 0 (-1)) 0.8) 100.

(** The player stands clear: the validation box around the position meets
    no wall box and no collision box of a creature of the pool. *)
Definition standsClear (w : World) (x z : Q) : Prop :=
  (forall wallBox, In wallBox (wallsRef w) -> intersectsBox (playerBox x z) wallBox = false) /\
  (forall creature, In creature (creaturesRef w) ->
                    intersectsBox (playerBox x z) (collisionBox creature) = false).

(** The invariant carried through the translation blocks of one frame,
    started from [w0]. *)
Definition keepsClear (w0 : World) (st : World * bool) : Prop :=
  wallsRef (fst st) = wallsRef w0 /\
  creaturesRef (fst st) = creaturesRef w0 /\
  checkCollision w0 (px (playerRef (fst st))) (py (playerRef (fst st))) = false.

(** [Math.sin] and [Math.cos] at the two headings of the examples, 0 and
    0.6435 radians, to six decimals. *)
Definition sinTable (a : Q) : Q := if Qeq_bool a 0 then 0 else 0.599999.
Definition cosTable (a : Q) : Q := if Qeq_bool a 0 then 1 else 0.800001.

(** The player one unit in front of the face z = 1 of the pillar, facing
    it, [W] held. *)
Definition walkWorld : World :=
  set_keys ["KeyW"] (standingAt 0 2 0 (withMap pillarGrid initialWorld)).

(** The player 0.02 away from that face, heading into it at 0.6435
    radians, [W] held. *)
Definition slideWorld : World :=
  set_keys ["KeyW"] (standingAt 0 1.32 0.6435 (withMap pillarGrid initialWorld)).

(** The player 0.02 away from the opposite face of the pillar, its back
    to it at 0.6435 radians, [S] held. *)
Definition slideBackWorld : World :=
  set_keys ["KeyS"] (standingAt 0 (-1.32) 0.6435 (withMap pillarGrid initialWorld)).

(** The pose that the block of one movement key leaves, as the amended
    claim words it: the candidate, both coordinates at once, when the key
    is held and the candidate pose is free in the world of the frame; the
    pose as it was, in both coordinates, otherwise. *)
Definition wholeOrNothing (w : World) (pose : Player) (block : bool * (Player -> Q * Q))
  : Player :=
  let newX := fst (snd block pose) in
  let newZ := snd (snd block pose) in
  if fst block && negb (checkCollision w newX newZ)
  then mkPlayer newX newZ (angle pose)
  else pose.

(** The movement keys of a frame in the order of their blocks, each with
    whether it counts as held and with its candidate. *)
Definition movementKeys (w : World) : list (bool * (Player -> Q * Q)) :=
  let keys := keysRef w in
  let locked := isLocked (mouseRef w) in
  let speed := baseSpeed * (if has "ShiftLeft" keys || has "ShiftRight" keys
                            then sprintMultiplier else 1) in
  [ (has "ArrowUp" keys || has "KeyW" keys,
     fun pose => (px pose - sin (angle pose) * speed, py pose - cos (angle pose) * speed));
    (has "ArrowDown" keys || has "KeyS" keys,
     fun pose => (px pose + sin (angle pose) * speed, py pose + cos (angle pose) * speed));
    (has "KeyA" keys && locked,
     fun pose => (px pose - cos (angle pose) * speed, py pose + sin (angle pose) * speed));
    (has "KeyD" keys && locked,
     fun pose => (px pose + cos (angle pose) * speed, py pose - sin (angle pose) * speed));
    (has "KeyQ" keys && negb locked,
     fun pose => (px pose - cos (angle pose) * speed, py pose + sin (angle pose) * speed));
    (has "KeyE" keys && negb locked,
     fun pose => (px pose + cos (angle pose) * speed, py pose - sin (angle pose) * speed)) ].

(** The pose once the turn keys, which come before the translation, have
    been served. *)
Definition turnedPose (w : World) : Player :=
  let keys := keysRef w in
  let turned (delta : Q) (pose : Player) := mkPlayer (px pose) (py pose) (angle pose + delta) in
  if isLocked (mouseRef w) then playerRef w
  else
    let pose := if has "ArrowLeft" keys || has "KeyA" keys
                then turned (- rotateSpeed) (playerRef w) else playerRef w in
    if has "ArrowRight" keys || has "KeyD" keys then turned rotateSpeed pose else pose.

(** The bounds test of [updateCreatures] on a target cell. *)
Definition inBounds (grid : Grid) (gridX gridZ : Z) : bool :=
  (0 <=? gridX)%Z && (gridX <? Z.of_nat (List.length (nth 0 grid [])))%Z &&
  (0 <=? gridZ)%Z && (gridZ <? Z.of_nat (List.length grid))%Z.

(** The candidate position [(newX, newZ)] of a creature's step. *)
Definition candidateOf (playerX playerZ : Q) (creature : Creature) : Q * Q :=
  let dx := playerX - vx (position (body creature)) in
  let dz := playerZ - vz (position (body creature)) in
  let distance := sqrt (dx * dx + dz * dz) in
  (vx (position (body creature)) + dx / distance * 0.02,
   vz (position (body creature)) + dz / distance * 0.02).

(** The grid cell of a creature, derived from the position of its body by
    the world-to-grid transform, is an open cell of the map. *)
Definition onFloor (grid : Grid) (creature : Creature) : Prop :=
  isOpen (cellAt grid (gridZOf grid (vz (position (body creature))))
                      (gridXOf grid (vx (position (body creature))))) = true.

(** A square root that is exact on the squares of integers, the only
    arguments the examples give it. *)
Definition sqrtOnSquares (q : Q) : Q := inject_Z (Z.sqrt (Qfloor q)).

(** Two worlds that differ at most in the player, the camera and the
    head bob. *)
Definition sameBeyondPose (w0 w : World) : Prop :=
  creaturesRef w = creaturesRef w0 /\ cleanupQueueRef w = cleanupQueueRef w0 /\
  disposed w = disposed w0 /\ projectilesRef w = projectilesRef w0 /\
  sceneRef w = sceneRef w0 /\ mapDataRef w = mapDataRef w0 /\ wallsRef w = wallsRef w0.

(** The creature after the floating animation of [stepCreature], and
    after the commit of a step to [(newX, newZ)]. *)
Definition animatedAt (index : nat) (creature : Creature) : Creature :=
  let time := dateNow index * 0.001 in
  let idx := inject_Z (Z.of_nat index) in
  mkCreature (setPositionY (0.8 + sin (time + idx) * 0.1) (body creature))
             (setOpacity (0.7 + sin (time * 2 + idx) * 0.2) (leftEye creature))
             (setOpacity (0.7 + sin (time * 2 + idx) * 0.2) (rightEye creature))
             (light creature) (targetX creature) (targetZ creature) (collisionBox creature).

Definition movedTo (newX newZ : Q) (creature : Creature) : Creature :=
  mkCreature (setPositionXZ newX newZ (body creature))
             (setPositionXZ (newX - 0.1) (newZ + 0.3) (leftEye creature))
             (setPositionXZ (newX + 0.1) (newZ + 0.3) (rightEye creature))
             (mkPointLight (light_id (light creature))
                           (mkVector3 newX (vy (light_position (light creature))) newZ))
             (targetX creature) (targetZ creature)
             (setFromCenterAndSize (mkVector3 newX 0.8 newZ) (mkVector3 0.8 1.6 0.8)).

(** The creature that [spawnCreature] creates at [pos] when the next
    identity is [n]. *)
Definition freshCreature (n : nat) (pos : Q * Q) : Creature :=
  let (x, z) := pos in
  mkCreature (mkMesh (n + 2) (mkVector3 x 0.8 z) n (OneMaterial (mkMaterial (n + 1) 0.8)) [])
             (mkMesh (n + 5) (mkVector3 (x - 0.1) 1.3 (z + 0.3)) (n + 3)
                     (OneMaterial (mkMaterial (n + 4) 0.9)) [])
             (mkMesh (n + 6) (mkVector3 (x + 0.1) 1.3 (z + 0.3)) (n + 3)
                     (OneMaterial (mkMaterial (n + 4) 0.9)) [])
             (mkPointLight (n + 7) (mkVector3 x 1 z)) x z
             (mkBox3 (mkVector3 (x - 0.4) 0 (z - 0.4)) (mkVector3 (x + 0.4) 1.6 (z + 0.4))).

(** The parts of a creature are where its body is: the collision box is
    the 0.8 x 1.6 x 0.8 box around the body's x and z, the eyes and the
    light keep their offsets from it. *)
Definition tracksBody (creature : Creature) : Prop :=
  let x := vx (position (body creature)) in
  let z := vz (position (body creature)) in
  let box := collisionBox creature in
  (vx (bmin box) == x - 0.4 /\ vy (bmin box) == 0 /\ vz (bmin box) == z - 0.4) /\
  (vx (bmax box) == x + 0.4 /\ vy (bmax box) == 1.6 /\ vz (bmax box) == z + 0.4) /\
  (vx (position (leftEye creature)) == x - 0.1 /\ vz (position (leftEye creature)) == z + 0.3) /\
  (vx (position (rightEye creature)) == x + 0.1 /\ vz (position (rightEye creature)) == z + 0.3) /\
  (vx (light_position (light creature)) == x /\ vz (light_position (light creature)) == z).

(** The collision box of a creature meets none of the given wall boxes. *)
Definition clearOfWalls (wallBoxes : list Box3) (creature : Creature) : Prop :=
  forall wallBox, In wallBox wallBoxes -> intersectsBox (collisionBox creature) wallBox = false.

(** The box that [createWalls] stores for a wall cell at a position. *)
Definition wallBoxAt (pos : Q * Q) : Box3 :=
  setFromCenterAndSize (mkVector3 (fst pos) (wallHeight / 2) (snd pos))
                       (mkVector3 cellSize wallHeight cellSize).

(** Two worlds that differ at most in the scene, the head bob and the next
    identity. *)
Definition onlySceneChanged (w0 w : World) : Prop :=
  playerRef w = playerRef w0 /\ keysRef w = keysRef w0 /\ mouseRef w = mouseRef w0 /\
  wallsRef w = wallsRef w0 /\ projectilesRef w = projectilesRef w0 /\
  creaturesRef w = creaturesRef w0 /\ mapDataRef w = mapDataRef w0 /\
  cleanupQueueRef w = cleanupQueueRef w0 /\ disposed w = disposed w0 /\
  cameraRef w = cameraRef w0.

(** Two worlds that differ at most in the pool, the cleanup queue, the
    scene, the head bob and the next identity. *)
Definition onlyPoolChanged (w0 w : World) : Prop :=
  playerRef w = playerRef w0 /\ keysRef w = keysRef w0 /\ mouseRef w = mouseRef w0 /\
  wallsRef w = wallsRef w0 /\ projectilesRef w = projectilesRef w0 /\
  mapDataRef w = mapDataRef w0 /\ disposed w = disposed w0 /\
  cameraRef w = cameraRef w0.

(** A function with values between -1 and 1, as [Math.sin] and [Math.cos]
    are. *)
Definition withinUnit (f : Q -> Q) : Prop := forall a, -1 <= f a /\ f a <= 1.

(** The body of a creature is within 0.62 of a position on both axes:
    the player's validation box around any position one step (at most
    0.08) away still meets the creature's collision box. *)
Definition standsOver (creature : Creature) (x z : Q) : Prop :=
  (vx (position (body creature)) - 0.62 <= x /\ x <= vx (position (body creature)) + 0.62) /\
  (vz (position (body creature)) - 0.62 <= z /\ z <= vz (position (body creature)) + 0.62).

(** The invariant carried through the translation blocks of one frame
    when the player cannot move. *)
Definition pinned (w0 : World) (st : World * bool) : Prop :=
  creaturesRef (fst st) = creaturesRef w0 /\
  px (playerRef (fst st)) = px (playerRef w0) /\
  py (playerRef (fst st)) = py (playerRef w0).

(** The camera is where the player is and looks where the player
    faces. *)
Definition cameraFollows (w : World) : Prop :=
  match cameraRef w with
  | Some camera =>
    vx (cam_position camera) = px (playerRef w) /\
    vz (cam_position camera) = py (playerRef w) /\
    vy (cam_rotation camera) = angle (playerRef w)
  | None => True
  end.

(** Two worlds with the same player and the same camera. *)
Definition samePose (w0 w : World) : Prop :=
  playerRef w = playerRef w0 /\ cameraRef w = cameraRef w0.

(** The distance kept from the edges and from the centre line of a block
    where the cells of a position are compared. *)
Definition edgeMargin : Q := 0.000001.

(** ** Frame lemmas: what the scene operations leave untouched *)

Ltac scene_frame :=
  intros; unfold scene_remove, scene_add;
  match goal with |- context [sceneRef ?w] => destruct (sceneRef w) end; reflexivity.

Lemma scene_remove_queue o w : cleanupQueueRef (scene_remove o w) = cleanupQueueRef w.
Proof. scene_frame. Qed.
Lemma scene_remove_creatures o w : creaturesRef (scene_remove o w) = creaturesRef w.
Proof. scene_frame. Qed.
Lemma scene_remove_disposed o w : disposed (scene_remove o w) = disposed w.
Proof. scene_frame. Qed.
Lemma scene_remove_walls o w : wallsRef (scene_remove o w) = wallsRef w.
Proof. scene_frame. Qed.
Lemma scene_remove_mapData o w : mapDataRef (scene_remove o w) = mapDataRef w.
Proof. scene_frame. Qed.
Lemma scene_remove_player o w : playerRef (scene_remove o w) = playerRef w.
Proof. scene_frame. Qed.
Lemma scene_add_queue o w : cleanupQueueRef (scene_add o w) = cleanupQueueRef w.
Proof. scene_frame. Qed.
Lemma scene_add_creatures o w : creaturesRef (scene_add o w) = creaturesRef w.
Proof. scene_frame. Qed.
Lemma scene_add_disposed o w : disposed (scene_add o w) = disposed w.
Proof. scene_frame. Qed.
Lemma scene_add_mapData o w : mapDataRef (scene_add o w) = mapDataRef w.
Proof. scene_frame. Qed.

Create Rewrite HintDb world.
Hint Rewrite scene_remove_queue scene_remove_creatures scene_remove_disposed
     scene_remove_walls scene_remove_mapData scene_remove_player
     scene_add_queue scene_add_creatures scene_add_disposed scene_add_mapData : world.

(** ** Properties of the Deferred Cleanup Queue *)

(** The disposal of a mesh releases its geometry and each of its
    materials, and nothing of its children. *)
Lemma disposeMesh_releaseOf (m : Mesh) : disposeMesh m = releaseOf m.
Proof.
  unfold disposeMesh, releaseOf, materialsOf, disposeMaterial.
  destruct (material m) as [mat|ms]; reflexivity.
Qed.

Lemma processCleanupQueue_queue (w : World) :
  cleanupQueueRef (processCleanupQueue w) = skipn 2 (cleanupQueueRef w).
Proof.
  unfold processCleanupQueue.
  destruct (cleanupQueueRef w) as [|item queue] eqn:Hq; [now rewrite Hq|reflexivity].
Qed.

Lemma processCleanupQueue_disposed (w : World) :
  disposed (processCleanupQueue w) =
  disposed w ++ flat_map cleanItem (firstn 2 (cleanupQueueRef w)).
Proof.
  unfold processCleanupQueue.
  destruct (cleanupQueueRef w) as [|item queue] eqn:Hq; [|reflexivity].
  simpl. now rewrite app_nil_r.
Qed.

Lemma passes_queue (k : nat) (w : World) :
  cleanupQueueRef (Nat.iter k processCleanupQueue w) = skipn (2 * k) (cleanupQueueRef w).
Proof.
  induction k as [|k IH].
  - reflexivity.
  - cbn [Nat.iter nat_rect]. rewrite processCleanupQueue_queue.
    change (nat_rect (fun _ => World) w (fun _ => processCleanupQueue) k)
      with (Nat.iter k processCleanupQueue w).
    rewrite IH, skipn_skipn. f_equal. lia.
Qed.

(** C6.  One pass of the Cleanup Queue releases the entries of a prefix of
    the queue of length at most 2 (the front entries, in queue order) and
    leaves the rest queued in the same order; a queue of N entries that
    receives no new entry is empty after k passes exactly when
    k >= ceil(N/2), so it first becomes empty after ceil(N/2) passes. *)
Theorem cleanup_queue_drains_two_per_pass (w : World) :
  (exists released,
      cleanupQueueRef w = released ++ cleanupQueueRef (processCleanupQueue w) /\
      (List.length released <= 2)%nat /\
      disposed (processCleanupQueue w) = disposed w ++ flat_map cleanItem released) /\
  (forall k : nat,
      cleanupQueueRef (Nat.iter k processCleanupQueue w) = [] <->
      ((List.length (cleanupQueueRef w) + 1) / 2 <= k)%nat).
Proof.
  split.
  - exists (firstn 2 (cleanupQueueRef w)). repeat split.
    + rewrite processCleanupQueue_queue. symmetry. apply firstn_skipn.
    + apply firstn_le_length.
    + apply processCleanupQueue_disposed.
  - intro k. rewrite passes_queue, <- skipn_all_iff.
    set (n := List.length (cleanupQueueRef w)).
    split; intro H.
    + assert (Hlt : ((n + 1) / 2 < k + 1)%nat)
        by (apply Nat.Div0.div_lt_upper_bound; lia).
      lia.
    + assert (Hd : (n + 1 < 2 * ((n + 1) / 2) + 2)%nat).
      { pose proof (Nat.div_mod_eq (n + 1) 2) as E.
        pose proof (Nat.mod_upper_bound (n + 1) 2). lia. }
      lia.
Qed.

(** C9.  A pass of the Cleanup Queue records, for each entry it drains,
    the disposal of the geometry and the material(s) of the body, the left
    eye and the right eye, in that order, and nothing else: after the pass
    the geometry and every material of each of the three meshes of a
    drained entry are in the disposal record, and no light is ever
    disposed by a pass, although the bundle enqueued for a creature that a
    projectile destroys carries the creature's light. *)
Theorem cleanup_never_disposes_light (w : World) :
  let drained := firstn 2 (cleanupQueueRef w) in
  disposed (processCleanupQueue w) =
    disposed w ++
    flat_map (fun item =>
                releaseOf (item_body item) ++ releaseOf (item_leftEye item) ++
                releaseOf (item_rightEye item))
             drained /\
  (forall item,
      In item drained ->
      In (GeometryDisposed (geometry (item_body item))) (disposed (processCleanupQueue w)) /\
      In (GeometryDisposed (geometry (item_leftEye item))) (disposed (processCleanupQueue w)) /\
      In (GeometryDisposed (geometry (item_rightEye item))) (disposed (processCleanupQueue w)) /\
      (forall mat,
          In mat (materialsOf (item_body item) ++ materialsOf (item_leftEye item) ++
                  materialsOf (item_rightEye item)) ->
          In (MaterialDisposed (mat_id mat)) (disposed (processCleanupQueue w)))) /\
  (forall l,
      ~ In (LightDisposed l)
           (flat_map (fun item =>
                        releaseOf (item_body item) ++ releaseOf (item_leftEye item) ++
                        releaseOf (item_rightEye item))
                     drained)) /\
  (forall i creature w0,
      cleanupQueueRef (destroyCreature i creature w0) =
      cleanupQueueRef w0 ++
      [mkCleanupItem (body creature) (leftEye creature) (rightEye creature) (light creature)]).
Proof.
  cbv zeta.
  assert (Hd : disposed (processCleanupQueue w) =
               disposed w ++
               flat_map (fun item =>
                           releaseOf (item_body item) ++ releaseOf (item_leftEye item) ++
                           releaseOf (item_rightEye item))
                        (firstn 2 (cleanupQueueRef w))).
  { rewrite processCleanupQueue_disposed. f_equal. apply flat_map_ext. intro item.
    now rewrite <- !disposeMesh_releaseOf. }
  split; [exact Hd|]. split; [|split].
  - intros item Hitem.
    assert (Hrel : forall x,
               In x (releaseOf (item_body item) ++ releaseOf (item_leftEye item) ++
                     releaseOf (item_rightEye item)) ->
               In x (disposed (processCleanupQueue w))).
    { intros x Hx. rewrite Hd. apply in_or_app. right. apply in_flat_map. now exists item. }
    split; [apply Hrel, in_or_app; left; now left|].
    split; [apply Hrel, in_or_app; right; apply in_or_app; left; now left|].
    split; [apply Hrel, in_or_app; right; apply in_or_app; right; now left|].
    intros mat Hmat. apply Hrel.
    assert (Hone : forall m, In mat (materialsOf m) ->
                             In (MaterialDisposed (mat_id mat)) (releaseOf m)).
    { intros m Hm. right. apply in_map_iff. now exists mat. }
    apply in_app_or in Hmat. destruct Hmat as [Hmat|Hmat];
      [apply in_or_app; left; now apply Hone|].
    apply in_app_or in Hmat. apply in_or_app. right. apply in_or_app.
    destruct Hmat as [Hmat|Hmat]; [left|right]; now apply Hone.
  - intros l Hin. apply in_flat_map in Hin. destruct Hin as [item [_ Hin]].
    assert (Hmesh : forall m, ~ In (LightDisposed l) (releaseOf m)).
    { intros m [H|H]; [discriminate|].
      apply in_map_iff in H. destruct H as [x [H _]]. discriminate. }
    repeat (apply in_app_or in Hin; destruct Hin as [Hin|Hin]);
      now apply Hmesh in Hin.
  - intros i creature w0. unfold destroyCreature. cbn [cleanupQueueRef set_creatures set_cleanupQueue].
    now autorewrite with world.
Qed.

(** ** Properties of the Movement Controller *)

Lemma checkCollision_clear (w : World) (x z : Q) :
  checkCollision w x z = false <-> standsClear w x z.
Proof.
  unfold checkCollision, standsClear. split.
  - intro H.
    destruct (existsb _ (wallsRef w)) eqn:Hw; [discriminate|].
    destruct (existsb _ (creaturesRef w)) eqn:Hc; [discriminate|].
    split.
    + intros b Hb. apply not_true_is_false. intro Hx.
      assert (E : existsb (fun wallBox => intersectsBox (playerBox x z) wallBox) (wallsRef w) = true)
        by (apply existsb_exists; eauto).
      congruence.
    + intros c Hin. apply not_true_is_false. intro Hx.
      assert (E : existsb (fun creature => intersectsBox (playerBox x z) (collisionBox creature))
                          (creaturesRef w) = true)
        by (apply existsb_exists; eauto).
      congruence.
  - intros [Hw Hc].
    destruct (existsb _ (wallsRef w)) eqn:Ew.
    + apply existsb_exists in Ew. destruct Ew as [b [Hb Hx]]. rewrite (Hw b Hb) in Hx. discriminate.
    + destruct (existsb _ (creaturesRef w)) eqn:Ec; [|reflexivity].
      apply existsb_exists in Ec. destruct Ec as [c [Hin Hx]]. rewrite (Hc c Hin) in Hx. discriminate.
Qed.

Lemma checkCollision_ext (w w' : World) (x z : Q) :
  wallsRef w' = wallsRef w -> creaturesRef w' = creaturesRef w ->
  checkCollision w' x z = checkCollision w x z.
Proof. intros Hw Hc. unfold checkCollision. now rewrite Hw, Hc. Qed.

Lemma moveTo_player (x z : Q) (w : World) (isMoving : bool) :
  playerRef (fst (moveTo x z (w, isMoving))) =
  if checkCollision w x z then playerRef w else mkPlayer x z (angle (playerRef w)).
Proof. unfold moveTo. now destruct (checkCollision w x z). Qed.

Lemma moveTo_frame (x z : Q) (w : World) (isMoving : bool) :
  wallsRef (fst (moveTo x z (w, isMoving))) = wallsRef w /\
  creaturesRef (fst (moveTo x z (w, isMoving))) = creaturesRef w.
Proof. unfold moveTo. now destruct (checkCollision w x z). Qed.

Lemma tryKey_keepsClear (w0 : World) (held : bool) (candidate : Player -> Q * Q)
      (st : World * bool) :
  keepsClear w0 st -> keepsClear w0 (tryKey held candidate st).
Proof.
  intros [Hw [Hc Hclear]]. unfold tryKey. destruct held; [|now repeat split].
  destruct st as [w isMoving]. cbn [fst] in *.
  destruct (moveTo_frame (fst (candidate (playerRef w))) (snd (candidate (playerRef w)))
                         w isMoving) as [Hw' Hc'].
  repeat split; [congruence|congruence|].
  rewrite moveTo_player.
  destruct (checkCollision w _ _) eqn:Hhit; [assumption|].
  cbn [px py]. rewrite <- Hhit. symmetry. now apply checkCollision_ext.
Qed.

Lemma turn_frame (delta : Q) (w : World) :
  wallsRef (turn delta w) = wallsRef w /\ creaturesRef (turn delta w) = creaturesRef w /\
  px (playerRef (turn delta w)) = px (playerRef w) /\
  py (playerRef (turn delta w)) = py (playerRef w).
Proof. now repeat split. Qed.

(** What a frame of movement does to the player, the walls and the pool:
    the bob after the six blocks leaves them as the blocks left them. *)
Lemma handleMovement_blocks (w : World) :
  exists st : World * bool,
    playerRef (handleMovement w) = playerRef (fst st) /\
    wallsRef (handleMovement w) = wallsRef (fst st) /\
    creaturesRef (handleMovement w) = creaturesRef (fst st) /\
    (keepsClear w (w, false) -> keepsClear w st).
Proof.
  unfold handleMovement.
  destruct (cameraRef w) as [camera|];
    [|exists (w, false); do 3 (split; [reflexivity|]); exact (fun H => H)].
  cbv zeta.
  match goal with
  | |- context [let (w1, isMoving) := ?X in _] => set (blocks := X)
  end.
  exists blocks. destruct blocks as [w6 isMoving] eqn:E.
  cbn [fst].
  split; [now destruct isMoving|]. split; [now destruct isMoving|].
  split; [now destruct isMoving|].
  intro H0. rewrite <- E. subst blocks.
  repeat apply tryKey_keepsClear.
  destruct H0 as [_ [_ H0]]. cbn [fst] in H0.
  destruct (negb (isLocked (mouseRef w))); [|now repeat split].
  destruct (has "ArrowLeft" (keysRef w) || has "KeyA" (keysRef w));
    destruct (has "ArrowRight" (keysRef w) || has "KeyD" (keysRef w));
    now repeat split.
Qed.

(** C3.  No-clip invariant.  If the validation box around the player's
    position (half-extent 0.3 in x and z, height 0 to 2) meets no wall box
    and no collision box of a creature of the pool before
    [handleMovement], the same holds of the position after it, whatever
    keys are held; the walls and the pool are not changed by the step.
    The same holds of each single guarded translation block. *)
Theorem no_clip_invariant (w : World) :
  standsClear w (px (playerRef w)) (py (playerRef w)) ->
  (wallsRef (handleMovement w) = wallsRef w /\
   creaturesRef (handleMovement w) = creaturesRef w /\
   standsClear (handleMovement w)
               (px (playerRef (handleMovement w))) (py (playerRef (handleMovement w)))) /\
  (forall held candidate isMoving,
      standsClear (fst (tryKey held candidate (w, isMoving)))
                  (px (playerRef (fst (tryKey held candidate (w, isMoving)))))
                  (py (playerRef (fst (tryKey held candidate (w, isMoving)))))).
Proof.
  intro Hclear. apply checkCollision_clear in Hclear.
  split.
  - destruct (handleMovement_blocks w) as [st [Hp [Hw [Hc Hinv]]]].
    destruct Hinv as [Hw' [Hc' Hfree]]; [now repeat split|].
    rewrite Hp, Hw, Hc. repeat split; try assumption.
    + apply checkCollision_clear.
      rewrite (checkCollision_ext w (handleMovement w)); [assumption|congruence|congruence].
    + apply checkCollision_clear.
      rewrite (checkCollision_ext w (handleMovement w)); [assumption|congruence|congruence].
  - intros held candidate isMoving.
    destruct (tryKey_keepsClear w held candidate (w, isMoving)) as [Hw [Hc Hfree]];
      [now repeat split|].
    apply checkCollision_clear. now rewrite (checkCollision_ext w _ _ _ Hw Hc).
Qed.

Lemma tryKey_wholeOrNothing (w0 : World) (held : bool) (candidate : Player -> Q * Q)
      (st : World * bool) :
  wallsRef (fst st) = wallsRef w0 -> creaturesRef (fst st) = creaturesRef w0 ->
  wallsRef (fst (tryKey held candidate st)) = wallsRef w0 /\
  creaturesRef (fst (tryKey held candidate st)) = creaturesRef w0 /\
  playerRef (fst (tryKey held candidate st)) =
    wholeOrNothing w0 (playerRef (fst st)) (held, candidate).
Proof.
  intros Hw Hc. destruct st as [w isMoving]. cbn [fst] in *.
  unfold tryKey, wholeOrNothing. cbn [fst snd]. destruct held; cbn [andb]; [|now repeat split].
  destruct (moveTo_frame (fst (candidate (playerRef w))) (snd (candidate (playerRef w)))
                         w isMoving) as [Hw' Hc'].
  split; [congruence|]. split; [congruence|].
  rewrite moveTo_player, (checkCollision_ext w0 w _ _ Hw Hc).
  now destruct (checkCollision w0 _ _).
Qed.

Lemma serve_keys (w0 : World) (blocks : list (bool * (Player -> Q * Q))) (st : World * bool) :
  wallsRef (fst st) = wallsRef w0 -> creaturesRef (fst st) = creaturesRef w0 ->
  playerRef (fst (fold_left (fun st block => tryKey (fst block) (snd block) st) blocks st)) =
  fold_left (wholeOrNothing w0) blocks (playerRef (fst st)).
Proof.
  revert st. induction blocks as [|[held candidate] blocks IH]; intros st Hw Hc; [reflexivity|].
  cbn [fold_left fst snd].
  destruct (tryKey_wholeOrNothing w0 held candidate st Hw Hc) as [Hw' [Hc' Hp]].
  rewrite IH by assumption. now rewrite Hp.
Qed.

(** The pose after a frame of movement, for any set of held keys. *)
Lemma handleMovement_serves_keys (w : World) :
  cameraRef w <> None ->
  playerRef (handleMovement w) = fold_left (wholeOrNothing w) (movementKeys w) (turnedPose w).
Proof.
  intro Hcam. unfold handleMovement.
  destruct (cameraRef w) as [camera|]; [|congruence].
  cbv zeta.
  match goal with
  | |- context [let (w1, isMoving) := ?X in _] => set (blocks := X)
  end.
  transitivity (playerRef (fst blocks)).
  { destruct blocks as [w6 isMoving]. now destruct isMoving. }
  subst blocks.
  match goal with
  | |- context [tryKey _ _ (?w1, false)] => set (turned := w1)
  end.
  assert (Hturned : wallsRef turned = wallsRef w /\ creaturesRef turned = creaturesRef w /\
                    playerRef turned = turnedPose w).
  { subst turned. unfold turnedPose. cbv zeta.
    destruct (isLocked (mouseRef w)); cbn [negb]; [now repeat split|].
    destruct (has "ArrowLeft" (keysRef w) || has "KeyA" (keysRef w));
      destruct (has "ArrowRight" (keysRef w) || has "KeyD" (keysRef w));
      now repeat split. }
  destruct Hturned as [Hw [Hc Hp]]. rewrite <- Hp.
  exact (serve_keys w (movementKeys w) (turned, false) Hw Hc).
Qed.

(** C1, as amended.  A translation block validates its candidate pose as
    one combined (x, z) pair and applies it whole or not at all: the
    player's position after the block is the candidate when the key is
    held and [checkCollision] accepts the candidate, and is unchanged in
    both coordinates otherwise.  The blocks of the keys held in one frame
    run one after the other, each on the pose the previous one left: for
    every set of held keys, the player's pose after [handleMovement] is
    the pose obtained by serving the six movement keys in the order of
    their blocks, each whole or not at all, from the pose the turn keys
    left; the walls and the pool against which the candidates are tested
    are those of the start of the frame.  In a frame where [W] is the only
    key held, the player ends on the forward candidate or exactly where it
    was. *)
Theorem translation_is_all_or_nothing
        (held : bool) (candidate : Player -> Q * Q) (w : World) (isMoving : bool) :
  playerRef (fst (tryKey held candidate (w, isMoving))) =
    (if held && negb (checkCollision w (fst (candidate (playerRef w)))
                                       (snd (candidate (playerRef w))))
     then mkPlayer (fst (candidate (playerRef w))) (snd (candidate (playerRef w)))
                   (angle (playerRef w))
     else playerRef w) /\
  snd (tryKey held candidate (w, isMoving)) =
    (if held && negb (checkCollision w (fst (candidate (playerRef w)))
                                       (snd (candidate (playerRef w))))
     then true else isMoving) /\
  (forall w0 : World,
      cameraRef w0 <> None -> keysRef w0 = ["KeyW"] ->
      playerRef (handleMovement w0) =
        (if checkCollision w0 (fst (forwardOf (baseSpeed * 1) (playerRef w0)))
                              (snd (forwardOf (baseSpeed * 1) (playerRef w0)))
         then playerRef w0
         else mkPlayer (fst (forwardOf (baseSpeed * 1) (playerRef w0)))
                       (snd (forwardOf (baseSpeed * 1) (playerRef w0)))
                       (angle (playerRef w0)))) /\
  (forall w0 : World,
      cameraRef w0 <> None ->
      playerRef (handleMovement w0) =
        fold_left (wholeOrNothing w0) (movementKeys w0) (turnedPose w0)).
Proof.
  split; [|split; [|split]]; [| | |exact handleMovement_serves_keys].
  - unfold tryKey. destruct held; cbn [andb fst snd]; [|reflexivity].
    rewrite moveTo_player. now destruct (checkCollision w _ _).
  - unfold tryKey. destruct held; cbn [andb fst snd]; [|reflexivity].
    unfold moveTo. now destruct (checkCollision w _ _).
  - intros w0 Hcam Hkeys. unfold handleMovement.
    destruct (cameraRef w0) as [camera|]; [|congruence].
    rewrite Hkeys. cbv zeta.
    repeat match goal with
           | |- context [has ?k ["KeyW"]] =>
             let b := eval vm_compute in (has k ["KeyW"]) in
             change (has k ["KeyW"]) with b
           end.
    cbn [orb andb]. unfold tryKey at 1 2 3 4 5. cbv iota.
    replace (if negb (isLocked (mouseRef w0)) then w0 else w0) with w0
      by (now destruct (isLocked (mouseRef w0))).
    unfold tryKey. cbn [fst].
    pose proof (moveTo_player (fst (forwardOf (baseSpeed * 1) (playerRef w0)))
                              (snd (forwardOf (baseSpeed * 1) (playerRef w0))) w0 false) as Hp.
    destruct (moveTo _ _ (w0, false)) as [w1 moved]. cbn [fst] in Hp.
    rewrite <- Hp. now destruct moved.
Qed.

Lemma tryKey_sameBeyondPose (w0 : World) (held : bool) (candidate : Player -> Q * Q)
      (st : World * bool) :
  sameBeyondPose w0 (fst st) -> sameBeyondPose w0 (fst (tryKey held candidate st)).
Proof.
  intro H. unfold tryKey. destruct held; [|exact H].
  destruct st as [w isMoving]. unfold moveTo.
  destruct (checkCollision w _ _); exact H.
Qed.

Lemma handleMovement_sameBeyondPose (w : World) : sameBeyondPose w (handleMovement w).
Proof.
  unfold handleMovement.
  destruct (cameraRef w) as [camera|]; [|now repeat split].
  cbv zeta.
  match goal with
  | |- context [let (w1, isMoving) := ?X in _] => set (blocks := X)
  end.
  assert (H : sameBeyondPose w (fst blocks)).
  { subst blocks. repeat apply tryKey_sameBeyondPose. cbn [fst].
    destruct (negb (isLocked (mouseRef w))); [|now repeat split].
    destruct (has "ArrowLeft" (keysRef w) || has "KeyA" (keysRef w));
      destruct (has "ArrowRight" (keysRef w) || has "KeyD" (keysRef w));
      now repeat split. }
  destruct blocks as [w6 isMoving]. cbn [fst] in H.
  destruct isMoving; exact H.
Qed.

Lemma updateCreatures_queue (w : World) :
  cleanupQueueRef (updateCreatures w) = cleanupQueueRef w /\
  disposed (updateCreatures w) = disposed w.
Proof.
  unfold updateCreatures. destruct (mapDataRef w) as [[[grid|]]|]; now split.
Qed.

(** ** Properties of the Projectile System *)

Lemma destroyCreature_creatures i creature w :
  creaturesRef (destroyCreature i creature w) = splice1 i (creaturesRef w).
Proof.
  unfold destroyCreature. cbn [creaturesRef set_creatures set_cleanupQueue].
  now autorewrite with world.
Qed.

Lemma destroyCreature_queue i creature w :
  cleanupQueueRef (destroyCreature i creature w) = cleanupQueueRef w ++ [bundleOf creature].
Proof.
  unfold destroyCreature. cbn [cleanupQueueRef set_creatures set_cleanupQueue].
  now autorewrite with world.
Qed.

Lemma destroyCreature_disposed i creature w :
  disposed (destroyCreature i creature w) = disposed w.
Proof.
  unfold destroyCreature. cbn [disposed set_creatures set_cleanupQueue].
  now autorewrite with world.
Qed.

Lemma destroyCreature_walls i creature w :
  wallsRef (destroyCreature i creature w) = wallsRef w.
Proof.
  unfold destroyCreature. cbn [wallsRef set_creatures set_cleanupQueue].
  now autorewrite with world.
Qed.

(** The reverse scan: either no visited creature meets the box and the
    world is untouched, or the creature of highest index that meets it is
    destroyed and nothing else happens. *)
Lemma scanCreatures_spec (box : Box3) (n : nat) (w : World) :
  (n <= List.length (creaturesRef w))%nat ->
  (fst (scanCreatures box n w) = false /\
   snd (scanCreatures box n w) = w /\
   forall j c, (j < n)%nat -> nth_error (creaturesRef w) j = Some c ->
               intersectsBox box (collisionBox c) = false) \/
  (fst (scanCreatures box n w) = true /\
   exists i c, (i < n)%nat /\ nth_error (creaturesRef w) i = Some c /\
               intersectsBox box (collisionBox c) = true /\
               (forall j c', (i < j < n)%nat -> nth_error (creaturesRef w) j = Some c' ->
                             intersectsBox box (collisionBox c') = false) /\
               snd (scanCreatures box n w) = destroyCreature i c w).
Proof.
  induction n as [|n IH]; intro Hn.
  - left. cbn. repeat split. intros j c Hj. lia.
  - cbn [scanCreatures].
    destruct (nth_error (creaturesRef w) n) as [creature|] eqn:Hc.
    + destruct (intersectsBox box (collisionBox creature)) eqn:Hhit.
      * right. split; [reflexivity|]. exists n, creature. repeat split; auto.
        intros j c' Hj. lia.
      * destruct IH as [[Hf [Hw Hno]]|[Ht [i [c [Hi [Hnth [Hx [Hafter Hw]]]]]]]]; [lia| |].
        -- left. repeat split; auto. intros j c Hj Hjc.
           destruct (Nat.eq_dec j n) as [->|Hne]; [congruence|]. apply (Hno j c); [lia|assumption].
        -- right. split; [assumption|]. exists i, c. repeat split; auto.
           intros j c' Hj Hjc.
           destruct (Nat.eq_dec j n) as [->|Hne]; [congruence|]. apply (Hafter j c'); [lia|assumption].
    + apply nth_error_None in Hc. lia.
Qed.

Lemma scanCreatures_flag (projectile : Projectile) (w : World) :
  fst (scanCreatures (setFromObject (mesh (advance projectile)))
                     (List.length (creaturesRef w)) w) = hitsCreature w projectile.
Proof.
  unfold hitsCreature.
  destruct (scanCreatures_spec (setFromObject (mesh (advance projectile)))
              (List.length (creaturesRef w)) w (Nat.le_refl _))
    as [[Hf [_ Hno]]|[Ht [i [c [_ [Hnth [Hx _]]]]]]].
  - rewrite Hf. symmetry. apply not_true_is_false. intro Hex.
    apply existsb_exists in Hex. destruct Hex as [c [Hin Hx]].
    apply In_nth_error in Hin. destruct Hin as [j Hj].
    rewrite (Hno j c) in Hx; [discriminate| |assumption].
    apply nth_error_Some. congruence.
  - rewrite Ht. symmetry. apply existsb_exists. exists c. split; [|assumption].
    eapply nth_error_In; eassumption.
Qed.

(** [stepProjectile] spelled out on the two flags and the expiry test. *)
Lemma stepProjectile_unfold (projectile : Projectile) (w : World) :
  let scanned := snd (scanCreatures (setFromObject (mesh (advance projectile)))
                                    (List.length (creaturesRef w)) w) in
  stepProjectile projectile w =
  if hitsWall w projectile || hitsCreature w projectile || (life (advance projectile) <=? 0)%Z
  then ((false, advance projectile),
        set_disposed (disposed scanned ++ disposeMesh (mesh (advance projectile)))
                     (scene_remove (mesh_id (mesh (advance projectile))) scanned))
  else ((true, advance projectile), scanned).
Proof.
  cbv zeta. unfold stepProjectile. cbv zeta.
  rewrite <- scanCreatures_flag. unfold hitsWall.
  destruct (scanCreatures (setFromObject (mesh (advance projectile)))
                          (List.length (creaturesRef w)) w) as [hitCreature w'].
  cbn [fst snd].
  destruct (_ || _ || _); [|reflexivity].
  now rewrite scene_remove_disposed.
Qed.

(** C5.  While one projectile is updated, the creature scan visits the
    pool from the last index down and stops at the first creature whose
    box it meets: either no creature of the pool meets the projectile's
    box and both the pool and the cleanup queue are unchanged, or the
    creature of highest index that meets it, and no other, is removed from
    the pool and its bundle alone is appended to the cleanup queue.  So a
    projectile removes and enqueues at most one creature per frame. *)
Theorem one_creature_per_projectile (projectile : Projectile) (w : World) :
  let box := setFromObject (mesh (advance projectile)) in
  let w' := snd (stepProjectile projectile w) in
  ((creaturesRef w' = creaturesRef w /\ cleanupQueueRef w' = cleanupQueueRef w /\
    forall c, In c (creaturesRef w) -> intersectsBox box (collisionBox c) = false) \/
   (exists i c,
       nth_error (creaturesRef w) i = Some c /\
       intersectsBox box (collisionBox c) = true /\
       (forall j c', (i < j)%nat -> nth_error (creaturesRef w) j = Some c' ->
                     intersectsBox box (collisionBox c') = false) /\
       creaturesRef w' = firstn i (creaturesRef w) ++ skipn (S i) (creaturesRef w) /\
       cleanupQueueRef w' = cleanupQueueRef w ++ [bundleOf c])) /\
  (List.length (creaturesRef w) <= S (List.length (creaturesRef w')))%nat /\
  (List.length (cleanupQueueRef w') <= S (List.length (cleanupQueueRef w)))%nat.
Proof.
  cbv zeta.
  assert (Hframe : creaturesRef (snd (stepProjectile projectile w)) =
                   creaturesRef (snd (scanCreatures (setFromObject (mesh (advance projectile)))
                                                    (List.length (creaturesRef w)) w)) /\
                   cleanupQueueRef (snd (stepProjectile projectile w)) =
                   cleanupQueueRef (snd (scanCreatures (setFromObject (mesh (advance projectile)))
                                                       (List.length (creaturesRef w)) w))).
  { pose proof (stepProjectile_unfold projectile w) as E. cbv zeta in E. rewrite E.
    destruct (_ || _ || _); cbn [snd creaturesRef cleanupQueueRef set_disposed];
      autorewrite with world; split; reflexivity. }
  destruct Hframe as [Hcs Hq]. rewrite Hcs, Hq.
  destruct (scanCreatures_spec (setFromObject (mesh (advance projectile)))
              (List.length (creaturesRef w)) w (Nat.le_refl _))
    as [[_ [Hw Hno]]|[_ [i [c [Hi [Hnth [Hx [Hafter Hw]]]]]]]]; rewrite Hw.
  - split; [|split; lia]. left. repeat split.
    intros c Hin. apply In_nth_error in Hin. destruct Hin as [j Hj].
    apply (Hno j c); [|assumption]. apply nth_error_Some. congruence.
  - rewrite destroyCreature_creatures, destroyCreature_queue. unfold splice1.
    split; [|split].
    + right. exists i, c. repeat split; auto.
      intros j c' Hj Hjc. apply (Hafter j c'); [|assumption].
      split; [assumption|]. apply nth_error_Some. congruence.
    + pose proof (firstn_skipn_middle i (creaturesRef w) Hnth) as E.
      rewrite <- E at 1. rewrite !length_app. cbn [List.length]. lia.
    + rewrite length_app. cbn [List.length]. lia.
Qed.

Lemma filterProjectiles_app (ps1 ps2 : list Projectile) (w : World) :
  filterProjectiles (ps1 ++ ps2) w =
  (fst (filterProjectiles ps1 w) ++ fst (filterProjectiles ps2 (snd (filterProjectiles ps1 w))),
   snd (filterProjectiles ps2 (snd (filterProjectiles ps1 w)))).
Proof.
  revert w. induction ps1 as [|p ps1 IH]; intro w.
  - cbn. now destruct (filterProjectiles ps2 w).
  - cbn [app filterProjectiles].
    destruct (stepProjectile p w) as [[keep p'] w1].
    rewrite IH.
    destruct (filterProjectiles ps1 w1) as [kept1 w2]. cbn [fst snd].
    now destruct keep.
Qed.

Lemma advance_life (k : nat) (projectile : Projectile) :
  life (Nat.iter k advance projectile) = (life projectile - Z.of_nat k)%Z.
Proof.
  induction k as [|k IH].
  - cbn. lia.
  - cbn [Nat.iter nat_rect].
    change (nat_rect (fun _ => Projectile) projectile (fun _ => advance) k)
      with (Nat.iter k advance projectile).
    unfold advance at 1. cbn [life]. rewrite IH. lia.
Qed.

(** X22.  In a frame, [updateProjectiles] calls the update of each
    projectile of the list in turn.  The projectile leaves the list in that
    frame if and only if, once advanced, its box meets a wall box, or it
    hit a creature of the pool as it stands at its turn, or its life after
    the decrement is <= 0; when it leaves, the disposal of the geometry
    and of the material(s) of its mesh is recorded at once, and that of
    nothing else (so not of the resources of the mesh's children);
    otherwise nothing is disposed.  In
    particular a projectile with life 100 whose box meets no wall and no
    creature in any of its first 100 updates is kept by the updates 1 to
    99 and retired by the 100th, with neither hit flag set; this holds
    whatever its velocity is, so also for a velocity of magnitude 0.8. *)
Theorem projectile_retired_iff
        (w : World) (before after : list Projectile) (projectile : Projectile) :
  sceneRef w <> None ->
  projectilesRef w = before ++ projectile :: after ->
  let w1 := snd (filterProjectiles before w) in
  let w2 := snd (stepProjectile projectile w1) in
  let retired :=
    hitsWall w1 projectile || hitsCreature w1 projectile || (life projectile - 1 <=? 0)%Z in
  fst (stepProjectile projectile w1) = (negb retired, advance projectile) /\
  projectilesRef (updateProjectiles w) =
    fst (filterProjectiles before w) ++
    (if retired then [] else [advance projectile]) ++
    fst (filterProjectiles after w2) /\
  disposed w2 =
    disposed w1 ++
    (if retired
     then GeometryDisposed (geometry (mesh projectile)) ::
          map (fun mat => MaterialDisposed (mat_id mat)) (materialsOf (mesh projectile))
     else []) /\
  (forall (p : Projectile) (worldAt : nat -> World),
      life p = 100%Z ->
      (forall k, (1 <= k <= 100)%nat ->
                 hitsWall (worldAt k) (Nat.iter (k - 1) advance p) = false /\
                 hitsCreature (worldAt k) (Nat.iter (k - 1) advance p) = false) ->
      forall k, (1 <= k <= 100)%nat ->
        fst (stepProjectile (Nat.iter (k - 1) advance p) (worldAt k)) =
          ((k <? 100)%nat, Nat.iter k advance p) /\
        fst (scanCreatures (setFromObject (mesh (Nat.iter k advance p)))
                           (List.length (creaturesRef (worldAt k))) (worldAt k)) = false).
Proof.
  intros Hscene Hps. cbv zeta.
  assert (Hstep : forall p0 w0,
             fst (stepProjectile p0 w0) =
             (negb (hitsWall w0 p0 || hitsCreature w0 p0 || (life p0 - 1 <=? 0)%Z), advance p0) /\
             disposed (snd (stepProjectile p0 w0)) =
             disposed w0 ++
             (if hitsWall w0 p0 || hitsCreature w0 p0 || (life p0 - 1 <=? 0)%Z
              then GeometryDisposed (geometry (mesh p0)) ::
                   map (fun mat => MaterialDisposed (mat_id mat)) (materialsOf (mesh p0))
              else [])).
  { intros p0 w0. pose proof (stepProjectile_unfold p0 w0) as E. cbv zeta in E. rewrite E.
    assert (Hd : disposed (snd (scanCreatures (setFromObject (mesh (advance p0)))
                                              (List.length (creaturesRef w0)) w0)) = disposed w0).
    { destruct (scanCreatures_spec (setFromObject (mesh (advance p0)))
                  (List.length (creaturesRef w0)) w0 (Nat.le_refl _))
        as [[_ [Hw _]]|[_ [i [c [_ [_ [_ [_ Hw]]]]]]]]; rewrite Hw;
        [reflexivity|apply destroyCreature_disposed]. }
    change (life (advance p0)) with (life p0 - 1)%Z.
    destruct (_ || _ || _); cbn [fst snd negb disposed set_disposed].
    - now rewrite Hd, disposeMesh_releaseOf.
    - now rewrite Hd, app_nil_r. }
  split; [apply Hstep|]. split; [|split; [apply Hstep|]].
  - unfold updateProjectiles. destruct (sceneRef w); [|congruence].
    rewrite Hps, filterProjectiles_app. cbn [filterProjectiles].
    destruct (Hstep projectile (snd (filterProjectiles before w))) as [Hkeep _].
    destruct (stepProjectile projectile (snd (filterProjectiles before w))) as [[keep p'] w2].
    cbn [fst snd] in *. injection Hkeep as Hk Hp. subst keep p'.
    destruct (filterProjectiles after w2) as [kept w3]. cbn [fst snd projectilesRef set_projectiles].
    now destruct (_ || _ || _).
  - intros p worldAt Hlife Hclear k Hk.
    destruct (Hclear k Hk) as [Hwall Hcreature].
    destruct (Hstep (Nat.iter (k - 1) advance p) (worldAt k)) as [Hkeep _].
    replace (Nat.iter k advance p) with (advance (Nat.iter (k - 1) advance p))
      by (destruct k; [lia|cbn; now rewrite Nat.sub_0_r]).
    split.
    + rewrite Hkeep, Hwall, Hcreature, advance_life, Hlife. cbn [orb]. f_equal.
      destruct (Nat.ltb_spec k 100); destruct (Z.leb_spec (100 - Z.of_nat (k - 1) - 1) 0);
        try reflexivity; lia.
    + now rewrite scanCreatures_flag.
Qed.

(** What the update of one projectile does to the pool, the queue and the
    disposal record. *)
Lemma stepProjectile_effects (projectile : Projectile) (w : World) :
  exists killed : list Creature,
    Permutation (creaturesRef w) (creaturesRef (snd (stepProjectile projectile w)) ++ killed) /\
    cleanupQueueRef (snd (stepProjectile projectile w)) =
      cleanupQueueRef w ++ map bundleOf killed /\
    exists retired : list Projectile,
      incl retired [advance projectile] /\
      disposed (snd (stepProjectile projectile w)) =
        disposed w ++ flat_map (fun p => disposeMesh (mesh p)) retired.
Proof.
  pose proof (stepProjectile_unfold projectile w) as E. cbv zeta in E. rewrite E. clear E.
  destruct (scanCreatures_spec (setFromObject (mesh (advance projectile)))
              (List.length (creaturesRef w)) w (Nat.le_refl _))
    as [[_ [Hw _]]|[_ [i [c [_ [Hnth [_ [_ Hw]]]]]]]]; rewrite Hw.
  - exists []. cbn [map]. rewrite !app_nil_r.
    destruct (_ || _ || _); cbn [snd creaturesRef cleanupQueueRef disposed set_disposed];
      autorewrite with world; (split; [reflexivity|split; [reflexivity|]]).
    + exists [advance projectile]. split; [apply incl_refl|].
      cbn [flat_map]. now rewrite app_nil_r.
    + exists []. split; [apply incl_nil_l|]. cbn [flat_map]. now rewrite app_nil_r.
  - exists [c]. cbn [map].
    assert (Hperm : Permutation (creaturesRef w) (splice1 i (creaturesRef w) ++ [c])).
    { rewrite <- (firstn_skipn_middle i (creaturesRef w) Hnth) at 1. unfold splice1.
      rewrite <- app_assoc. apply Permutation_app_head.
      change (c :: skipn (S i) (creaturesRef w)) with ([c] ++ skipn (S i) (creaturesRef w)).
      apply Permutation_app_comm. }
    destruct (_ || _ || _); cbn [snd creaturesRef cleanupQueueRef disposed set_disposed];
      autorewrite with world;
      rewrite ?destroyCreature_creatures, ?destroyCreature_queue, ?destroyCreature_disposed;
      (split; [exact Hperm|split; [reflexivity|]]).
    + exists [advance projectile]. split; [apply incl_refl|].
      cbn [flat_map]. now rewrite app_nil_r.
    + exists []. split; [apply incl_nil_l|]. cbn [flat_map]. now rewrite app_nil_r.
Qed.

Lemma filterProjectiles_effects (ps : list Projectile) (w : World) :
  exists (killed : list Creature) (retired : list Projectile),
    Permutation (creaturesRef w) (creaturesRef (snd (filterProjectiles ps w)) ++ killed) /\
    cleanupQueueRef (snd (filterProjectiles ps w)) = cleanupQueueRef w ++ map bundleOf killed /\
    incl retired (map advance ps) /\
    disposed (snd (filterProjectiles ps w)) =
      disposed w ++ flat_map (fun p => disposeMesh (mesh p)) retired.
Proof.
  revert w. induction ps as [|p ps IH]; intro w.
  - exists [], []. cbn. rewrite !app_nil_r.
    split; [reflexivity|]. split; [reflexivity|]. split; [apply incl_refl|reflexivity].
  - cbn [filterProjectiles].
    destruct (stepProjectile_effects p w) as [k1 [Hp1 [Hq1 [r1 [Hr1 Hd1]]]]].
    destruct (stepProjectile p w) as [[keep p'] w1]. cbn [snd] in *.
    destruct (IH w1) as [k2 [r2 [Hp2 [Hq2 [Hr2 Hd2]]]]].
    destruct (filterProjectiles ps w1) as [kept w2]. cbn [snd] in *.
    exists (k1 ++ k2), (r1 ++ r2). split; [|split; [|split]].
    + rewrite Hp1, Hp2. rewrite <- !app_assoc. apply Permutation_app_head.
      apply Permutation_app_comm.
    + rewrite Hq2, Hq1, map_app. now rewrite app_assoc.
    + cbn [map]. change (advance p :: map advance ps) with ([advance p] ++ map advance ps).
      now apply incl_app_app.
    + rewrite Hd2, Hd1, flat_map_app. now rewrite app_assoc.
Qed.

(** C2, as amended.  In a frame, the projectile update releases nothing of
    the creatures it removes from the pool: it appends their bundles to
    the tail of the cleanup queue and records the disposal of retired
    projectiles only.  The disposal of a removed creature is the work of a
    cleanup pass, and the pass that ends that same frame releases the
    first two entries of the queue as the update left it; so a creature is
    released in the frame of its removal when fewer than two entries are
    queued ahead of it, and in a later pass otherwise. *)
Theorem disposal_is_left_to_cleanup_pass (w : World) :
  exists (killed : list Creature) (retired : list Projectile),
    Permutation (creaturesRef w)
                (creaturesRef (updateProjectiles (handleMovement w)) ++ killed) /\
    cleanupQueueRef (updateProjectiles (handleMovement w)) =
      cleanupQueueRef w ++ map bundleOf killed /\
    incl retired (map advance (projectilesRef w)) /\
    disposed (updateProjectiles (handleMovement w)) =
      disposed w ++ flat_map (fun p => disposeMesh (mesh p)) retired /\
    disposed (animate w) =
      disposed (updateProjectiles (handleMovement w)) ++
      flat_map cleanItem (firstn 2 (cleanupQueueRef w ++ map bundleOf killed)) /\
    cleanupQueueRef (animate w) = skipn 2 (cleanupQueueRef w ++ map bundleOf killed).
Proof.
  destruct (handleMovement_sameBeyondPose w) as [Hc [Hq [Hd [Hps _]]]].
  assert (H : exists killed retired,
             Permutation (creaturesRef w)
                         (creaturesRef (updateProjectiles (handleMovement w)) ++ killed) /\
             cleanupQueueRef (updateProjectiles (handleMovement w)) =
               cleanupQueueRef w ++ map bundleOf killed /\
             incl retired (map advance (projectilesRef w)) /\
             disposed (updateProjectiles (handleMovement w)) =
               disposed w ++ flat_map (fun p => disposeMesh (mesh p)) retired).
  { unfold updateProjectiles. destruct (sceneRef (handleMovement w)).
    - destruct (filterProjectiles_effects (projectilesRef (handleMovement w)) (handleMovement w))
        as [killed [retired [Hp [Hq' [Hr Hd']]]]].
      destruct (filterProjectiles _ _) as [kept w1]. cbn [snd] in *.
      exists killed, retired. cbn [creaturesRef cleanupQueueRef disposed set_projectiles].
      rewrite <- Hc, <- Hq, <- Hd, <- Hps. now repeat split.
    - exists [], []. cbn [map flat_map]. rewrite !app_nil_r, Hc, Hq, Hd.
      split; [reflexivity|]. split; [reflexivity|]. split; [apply incl_nil_l|reflexivity]. }
  destruct H as [killed [retired [Hp [Hq' [Hr Hd']]]]].
  exists killed, retired. repeat split; try assumption.
  - unfold animate. cbv zeta. rewrite processCleanupQueue_disposed.
    destruct (updateCreatures_queue (updateProjectiles (handleMovement w))) as [Eq Ed].
    now rewrite Eq, Ed, Hq'.
  - unfold animate. cbv zeta. rewrite processCleanupQueue_queue.
    destruct (updateCreatures_queue (updateProjectiles (handleMovement w))) as [Eq Ed].
    now rewrite Eq, Hq'.
Qed.

(** ** Properties of the Creature AI Pool *)

Lemma mapi_from_nth_error {A B : Type} (f : nat -> A -> B) (l : list A) (i0 i : nat) :
  nth_error (mapi_from f i0 l) i = option_map (f (i0 + i)%nat) (nth_error l i).
Proof.
  revert i0 i. induction l as [|a l IH]; intros i0 i.
  - now destruct i.
  - destruct i as [|i]; cbn [mapi_from nth_error option_map].
    + now rewrite Nat.add_0_r.
    + rewrite IH. now rewrite Nat.add_succ_r.
Qed.

Lemma mapi_from_Forall {A : Type} (P : A -> Prop) (f : nat -> A -> A) (l : list A) (i0 : nat) :
  (forall i a, P a -> P (f i a)) -> Forall P l -> Forall P (mapi_from f i0 l).
Proof.
  intros Hf Hl. revert i0. induction Hl as [|a l Ha Hl IH]; intro i0; constructor; auto.
Qed.

(** A step leaves the body at its old x and z, or at a candidate whose
    cell passed the bounds test and is open. *)
Lemma stepCreature_position (grid : Grid) (playerX playerZ : Q) (wallBoxes : list Box3)
      (index : nat) (creature : Creature) :
  let stepped := stepCreature grid playerX playerZ wallBoxes index creature in
  let newX := fst (candidateOf playerX playerZ creature) in
  let newZ := snd (candidateOf playerX playerZ creature) in
  (vx (position (body stepped)) = vx (position (body creature)) /\
   vz (position (body stepped)) = vz (position (body creature))) \/
  (vx (position (body stepped)) = newX /\ vz (position (body stepped)) = newZ /\
   inBounds grid (gridXOf grid newX) (gridZOf grid newZ) = true /\
   isOpen (cellAt grid (gridZOf grid newZ) (gridXOf grid newX)) = true).
Proof.
  cbv zeta. unfold stepCreature, candidateOf, inBounds. cbv zeta.
  cbn [body position setPositionY vx vz fst snd].
  match goal with |- context [Qgtb ?d 1.5] => destruct (Qgtb d 1.5) end;
    [|left; split; reflexivity].
  match goal with |- context [if ?c && isOpen ?o then _ else _] =>
    destruct c eqn:Hb; cbn [andb]; [destruct (isOpen o) eqn:Ho|] end;
    try (left; split; reflexivity).
  match goal with |- context [if negb ?e then _ else _] => destruct (negb e) end;
    [|left; split; reflexivity].
  right. cbn [body position setPositionXZ vx vz]. repeat split; assumption.
Qed.

(** C4.  With the map [grid] stored and every creature of the pool on an
    open cell (as every creature is when created, see
    [created_on_floor]), every creature of the pool is on an open cell
    after [updateCreatures], whether its step was accepted or rejected.
    The creature at each index is the one [stepCreature] returns; when the
    cell of its candidate fails the bounds test, x and z of its body are
    unchanged; and the row [walls[gridZ]] is read only for a [gridZ] that
    names a row of the matrix, so that no read is out of bounds. *)
Theorem creatures_stay_on_floor (w : World) (grid : Grid) :
  mapDataRef w = Some (mkMapData (Some grid)) ->
  Forall (onFloor grid) (creaturesRef w) ->
  Forall (onFloor grid) (creaturesRef (updateCreatures w)) /\
  (forall index creature,
      nth_error (creaturesRef w) index = Some creature ->
      let stepped :=
        stepCreature grid (px (playerRef w)) (py (playerRef w)) (wallsRef w) index creature in
      let newX := fst (candidateOf (px (playerRef w)) (py (playerRef w)) creature) in
      let newZ := snd (candidateOf (px (playerRef w)) (py (playerRef w)) creature) in
      nth_error (creaturesRef (updateCreatures w)) index = Some stepped /\
      (inBounds grid (gridXOf grid newX) (gridZOf grid newZ) = false ->
       vx (position (body stepped)) = vx (position (body creature)) /\
       vz (position (body stepped)) = vz (position (body creature)))) /\
  (forall gridX gridZ,
      inBounds grid gridX gridZ = true ->
      exists cells, nth_error grid (Z.to_nat gridZ) = Some cells /\
                    cellAt grid gridZ gridX = nth_error cells (Z.to_nat gridX)).
Proof.
  intros Hmap Hfloor.
  assert (Hupd : creaturesRef (updateCreatures w) =
                 mapi_from (stepCreature grid (px (playerRef w)) (py (playerRef w)) (wallsRef w))
                           0 (creaturesRef w)).
  { unfold updateCreatures. rewrite Hmap. reflexivity. }
  split; [|split].
  - rewrite Hupd. apply mapi_from_Forall; [|assumption].
    intros i c Hc.
    destruct (stepCreature_position grid (px (playerRef w)) (py (playerRef w)) (wallsRef w) i c)
      as [[Hx Hz]|[Hx [Hz [_ Ho]]]]; unfold onFloor.
    + rewrite Hx, Hz. exact Hc.
    + rewrite Hx, Hz. exact Ho.
  - intros index creature Hnth. cbv zeta. split.
    + rewrite Hupd, mapi_from_nth_error, Hnth. reflexivity.
    + intro Hout.
      destruct (stepCreature_position grid (px (playerRef w)) (py (playerRef w)) (wallsRef w)
                                      index creature)
        as [[Hx Hz]|[_ [_ [Hin _]]]]; [now split|congruence].
  - intros gridX gridZ Hin. unfold inBounds in Hin.
    apply andb_prop in Hin. destruct Hin as [Hin Hz2].
    apply andb_prop in Hin. destruct Hin as [Hin Hz1].
    apply andb_prop in Hin. destruct Hin as [Hx1 Hx2].
    apply Z.leb_le in Hz1, Hx1. apply Z.ltb_lt in Hz2.
    destruct (nth_error grid (Z.to_nat gridZ)) as [cells|] eqn:Hrow.
    + exists cells. split; [reflexivity|]. unfold cellAt.
      destruct (Z.ltb_spec gridZ 0); [lia|]. destruct (Z.ltb_spec gridX 0); [lia|].
      cbn [orb]. now rewrite Hrow.
    + apply nth_error_None in Hrow. lia.
Qed.

(** ** Properties of creature creation *)

Lemma openSpaces_row_length {A : Type} (g : nat -> A) (cells : list Z) (i : nat) :
  List.length
    (List.concat (mapi_from (fun col cell => if (cell =? 0)%Z then [g col] else []) i cells)) =
  List.length (filter (fun cell => (cell =? 0)%Z) cells).
Proof.
  revert i. induction cells as [|cell cells IH]; intro i; [reflexivity|].
  cbn [mapi_from List.concat filter]. rewrite length_app, IH.
  now destruct (cell =? 0)%Z.
Qed.

Lemma openSpaces_length (grid : Grid) :
  List.length (openSpacesOf grid) = openCellCount grid.
Proof.
  unfold openSpacesOf, openCellCount.
  generalize (rowLength grid) (rowCount grid). intros wd ht.
  enough (H : forall i,
             List.length
               (List.concat
                  (mapi_from
                     (fun row cells =>
                        List.concat
                          (mapi_from
                             (fun col cell =>
                                if (cell =? 0)%Z
                                then [((inject_Z (Z.of_nat col) - wd / 2) * cellSize,
                                       (inject_Z (Z.of_nat row) - ht / 2) * cellSize)]
                                else [])
                             0%nat cells))
                     i grid)) =
             List.length (filter (fun cell => (cell =? 0)%Z) (List.concat grid)))
    by apply H.
  induction grid as [|cells grid IH]; intro i; [reflexivity|].
  cbn [mapi_from List.concat]. rewrite filter_app, !length_app, IH.
  f_equal.
  apply (openSpaces_row_length
           (fun col => ((inject_Z (Z.of_nat col) - wd / 2) * cellSize,
                        (inject_Z (Z.of_nat i) - ht / 2) * cellSize))).
Qed.

Lemma spawnCreature_creatures (pos : Q * Q) (w : World) :
  exists creature, creaturesRef (spawnCreature pos w) = creaturesRef w ++ [creature] /\
                   vx (position (body creature)) = fst pos /\
                   vz (position (body creature)) = snd pos.
Proof.
  destruct pos as [x z]. unfold spawnCreature. cbv zeta.
  cbn [creaturesRef set_creatures]. autorewrite with world. cbn [creaturesRef set_nextId].
  eexists. split; [reflexivity|]. split; reflexivity.
Qed.

Lemma spawnCreature_mapData (pos : Q * Q) (w : World) :
  mapDataRef (spawnCreature pos w) = mapDataRef w.
Proof.
  destruct pos as [x z]. unfold spawnCreature. cbv zeta.
  cbn [mapDataRef set_creatures]. autorewrite with world. reflexivity.
Qed.

Lemma spawnLoop_count (shuffledSpaces : list (Q * Q)) (remaining i : nat) (w : World) :
  List.length (creaturesRef (spawnLoop shuffledSpaces i remaining w)) =
  (List.length (creaturesRef w) + Nat.min remaining (List.length shuffledSpaces - i))%nat.
Proof.
  revert i w. induction remaining as [|remaining IH]; intros i w.
  - cbn. lia.
  - cbn [spawnLoop]. rewrite IH.
    destruct (nth_error shuffledSpaces i) as [pos|] eqn:Hi.
    + destruct (spawnCreature_creatures pos w) as [c [Hc _]]. rewrite Hc, length_app. cbn [List.length].
      assert (i < List.length shuffledSpaces)%nat by (apply nth_error_Some; congruence).
      lia.
    + apply nth_error_None in Hi. lia.
Qed.

Lemma retire_all_mapData (cs : list Creature) (w : World) :
  mapDataRef (fold_left retireCreature cs w) = mapDataRef w.
Proof.
  revert w. induction cs as [|c cs IH]; intro w; [reflexivity|].
  cbn [fold_left]. rewrite IH. unfold retireCreature.
  cbn [mapDataRef set_cleanupQueue]. now autorewrite with world.
Qed.

Hypothesis shuffle_permutes : forall l, Permutation l (shuffle l).

Lemma createShadowCreatures_count (w : World) (grid : Grid) :
  mapDataRef w = Some (mkMapData (Some grid)) ->
  List.length (creaturesRef (createShadowCreatures w)) =
  Nat.min (numCreaturesOf (openCellCount grid)) (openCellCount grid).
Proof.
  intro Hmap. unfold createShadowCreatures. cbv zeta.
  cbn [mapDataRef set_creatures]. rewrite retire_all_mapData, Hmap. cbn [walls].
  rewrite spawnLoop_count. cbn [creaturesRef set_creatures List.length].
  rewrite <- (Permutation_length (shuffle_permutes (openSpacesOf grid))), openSpaces_length.
  lia.
Qed.

Lemma in_concat_mapi_from {A B : Type} (f : nat -> A -> list B) (l : list A) (i0 : nat) (y : B) :
  In y (List.concat (mapi_from f i0 l)) ->
  exists k a, nth_error l k = Some a /\ In y (f (i0 + k)%nat a).
Proof.
  revert i0. induction l as [|a l IH]; intros i0 Hin; [contradiction|].
  cbn [mapi_from List.concat] in Hin. apply in_app_or in Hin. destruct Hin as [Hin|Hin].
  - exists 0%nat, a. rewrite Nat.add_0_r. now split.
  - destruct (IH (S i0) Hin) as [k [b [Hk Hb]]].
    exists (S k), b. rewrite Nat.add_succ_r. now split.
Qed.

Lemma gridOf_cell_centre (n : Q) (k : nat) :
  Qfloor (((inject_Z (Z.of_nat k) - n / 2) * cellSize + (n * cellSize) / 2) / cellSize) =
  Z.of_nat k.
Proof.
  rewrite <- (Qfloor_Z (Z.of_nat k)) at 2. apply Qfloor_comp.
  unfold cellSize. field.
Qed.

(** Every position collected in [openSpaces] is the centre of an open
    cell, and the world-to-grid transform sends it back to that cell. *)
Lemma openSpaces_on_floor (grid : Grid) (pos : Q * Q) :
  In pos (openSpacesOf grid) ->
  isOpen (cellAt grid (gridZOf grid (snd pos)) (gridXOf grid (fst pos))) = true.
Proof.
  intro Hin. unfold openSpacesOf in Hin.
  apply in_concat_mapi_from in Hin. destruct Hin as [row [cells [Hrow Hin]]].
  apply in_concat_mapi_from in Hin. destruct Hin as [col [cell [Hcol Hin]]].
  cbn [Nat.add] in Hin.
  destruct (cell =? 0)%Z eqn:Hcell; [|contradiction].
  destruct Hin as [<-|[]]. cbn [fst snd].
  unfold gridXOf, gridZOf. rewrite !gridOf_cell_centre.
  unfold cellAt.
  destruct (Z.ltb_spec (Z.of_nat row) 0); [lia|]. destruct (Z.ltb_spec (Z.of_nat col) 0); [lia|].
  cbn [orb]. rewrite !Nat2Z.id, Hrow, Hcol. exact Hcell.
Qed.

Lemma spawnLoop_on_floor (grid : Grid) (shuffledSpaces : list (Q * Q))
      (remaining i : nat) (w : World) :
  (forall pos, In pos shuffledSpaces -> In pos (openSpacesOf grid)) ->
  Forall (onFloor grid) (creaturesRef w) ->
  Forall (onFloor grid) (creaturesRef (spawnLoop shuffledSpaces i remaining w)).
Proof.
  intro Hsub. revert i w. induction remaining as [|remaining IH]; intros i w Hw; [exact Hw|].
  cbn [spawnLoop]. apply IH.
  destruct (nth_error shuffledSpaces i) as [pos|] eqn:Hi; [|exact Hw].
  destruct (spawnCreature_creatures pos w) as [c [Hc [Hx Hz]]]. rewrite Hc.
  apply Forall_app. split; [exact Hw|]. constructor; [|constructor].
  unfold onFloor. rewrite Hx, Hz. apply openSpaces_on_floor, Hsub.
  eapply nth_error_In; eassumption.
Qed.

(** Every creature that [createShadowCreatures] creates is on an open
    cell. *)
Lemma created_on_floor (w : World) (grid : Grid) :
  mapDataRef w = Some (mkMapData (Some grid)) ->
  Forall (onFloor grid) (creaturesRef (createShadowCreatures w)).
Proof.
  intro Hmap. unfold createShadowCreatures. cbv zeta.
  cbn [mapDataRef set_creatures]. rewrite retire_all_mapData, Hmap. cbn [walls].
  apply spawnLoop_on_floor; [|constructor].
  intros pos Hin. eapply Permutation_in; [|exact Hin].
  apply Permutation_sym, shuffle_permutes.
Qed.

(** C8, as amended.  When the map stored in [mapDataRef] has at least 3
    open cells, the number of creatures [createShadowCreatures] leaves in
    the pool is clamp(floor(openCellCount/10), 3, 5); for a map with 50
    open cells it is 5. *)
Theorem creature_count_is_clamp (w : World) (grid : Grid) :
  mapDataRef w = Some (mkMapData (Some grid)) ->
  (3 <= openCellCount grid)%nat ->
  List.length (creaturesRef (createShadowCreatures w)) =
    Nat.min 5 (Nat.max 3 (openCellCount grid / 10)) /\
  (openCellCount grid = 50%nat ->
   List.length (creaturesRef (createShadowCreatures w)) = 5%nat).
Proof.
  intros Hmap H3. rewrite (createShadowCreatures_count w grid Hmap). unfold numCreaturesOf.
  assert (Hdiv : (openCellCount grid / 10 <= openCellCount grid)%nat)
    by (apply Nat.Div0.div_le_upper_bound; lia).
  split.
  - lia.
  - intro H50. rewrite H50. reflexivity.
Qed.

(** C10.  When the map has fewer open cells than the clamped creature
    count, the creation loop skips the positions that are missing, and the
    number of creatures created is
    min(clamp(floor(openCellCount/10), 3, 5), openCellCount), which is then
    the number of open cells. *)
Theorem creature_count_on_small_map (w : World) (grid : Grid) :
  mapDataRef w = Some (mkMapData (Some grid)) ->
  (openCellCount grid < Nat.min 5 (Nat.max 3 (openCellCount grid / 10)))%nat ->
  List.length (creaturesRef (createShadowCreatures w)) =
    Nat.min (Nat.min 5 (Nat.max 3 (openCellCount grid / 10))) (openCellCount grid) /\
  List.length (creaturesRef (createShadowCreatures w)) = openCellCount grid.
Proof.
  intros Hmap Hsmall. rewrite (createShadowCreatures_count w grid Hmap). unfold numCreaturesOf.
  split; lia.
Qed.

(** ** Further properties: the queue, the projectiles and the scene *)

Lemma passes_disposed (k : nat) (w : World) :
  disposed (Nat.iter k processCleanupQueue w) =
  disposed w ++ flat_map cleanItem (firstn (2 * k) (cleanupQueueRef w)).
Proof.
  induction k as [|k IH].
  - cbn. now rewrite app_nil_r.
  - cbn [Nat.iter nat_rect]. rewrite processCleanupQueue_disposed.
    change (nat_rect (fun _ => World) w (fun _ => processCleanupQueue) k)
      with (Nat.iter k processCleanupQueue w).
    rewrite IH, passes_queue, <- app_assoc, <- flat_map_app. do 2 f_equal.
    rewrite firstn_skipn_comm.
    replace (2 * S k)%nat with (2 * k + 2)%nat by lia.
    rewrite <- (firstn_skipn (2 * k) (firstn (2 * k + 2) (cleanupQueueRef w))) at 2.
    f_equal. rewrite firstn_firstn. f_equal. lia.
Qed.

(** X1.  Cleanup passes dispose of the queued bundles in queue order, each
    exactly once: after k passes without new entries the disposal record
    has grown by the disposals of the first 2k bundles, and once
    k >= ceil(N/2) by those of the whole queue, which is then empty. *)
Theorem cleanup_disposes_each_bundle_once (w : World) (k : nat) :
  disposed (Nat.iter k processCleanupQueue w) =
    disposed w ++ flat_map cleanItem (firstn (2 * k) (cleanupQueueRef w)) /\
  (((List.length (cleanupQueueRef w) + 1) / 2 <= k)%nat ->
   disposed (Nat.iter k processCleanupQueue w) =
     disposed w ++ flat_map cleanItem (cleanupQueueRef w) /\
   cleanupQueueRef (Nat.iter k processCleanupQueue w) = []).
Proof.
  split; [apply passes_disposed|].
  intro Hk.
  assert (Hlen : (List.length (cleanupQueueRef w) <= 2 * k)%nat).
  { pose proof (Nat.div_mod_eq (List.length (cleanupQueueRef w) + 1) 2) as E.
    pose proof (Nat.mod_upper_bound (List.length (cleanupQueueRef w) + 1) 2). lia. }
  split.
  - rewrite passes_disposed. now rewrite firstn_all2.
  - rewrite passes_queue. now apply skipn_all2.
Qed.

Lemma stepProjectile_verdict (projectile : Projectile) (w : World) :
  fst (stepProjectile projectile w) =
  (negb (hitsWall w projectile || hitsCreature w projectile || (life projectile - 1 <=? 0)%Z),
   advance projectile).
Proof.
  pose proof (stepProjectile_unfold projectile w) as E. cbv zeta in E. rewrite E.
  change (life (advance projectile)) with (life projectile - 1)%Z.
  now destruct (_ || _ || _).
Qed.

(** A projectile that destroys a creature is itself retired. *)
Lemma stepProjectile_kills (projectile : Projectile) (w : World) :
  (List.length (creaturesRef w) <=
   List.length (creaturesRef (snd (stepProjectile projectile w))) +
   (if fst (fst (stepProjectile projectile w)) then 0 else 1))%nat.
Proof.
  rewrite stepProjectile_verdict. cbn [fst].
  pose proof (stepProjectile_unfold projectile w) as E. cbv zeta in E. rewrite E. clear E.
  pose proof (scanCreatures_flag projectile w) as Hflag.
  destruct (scanCreatures_spec (setFromObject (mesh (advance projectile)))
              (List.length (creaturesRef w)) w (Nat.le_refl _))
    as [[Hf [Hw _]]|[Ht [i [c [_ [Hnth [_ [_ Hw]]]]]]]]; rewrite Hw.
  - destruct (_ || _ || _); cbn [snd creaturesRef set_disposed negb];
      autorewrite with world; lia.
  - rewrite Ht in Hflag. rewrite <- Hflag. rewrite orb_true_r. cbn [orb negb snd].
    cbn [creaturesRef set_disposed]. autorewrite with world.
    rewrite destroyCreature_creatures. unfold splice1.
    pose proof (firstn_skipn_middle i (creaturesRef w) Hnth) as E.
    rewrite <- E at 1. rewrite !length_app. cbn [List.length]. lia.
Qed.

Lemma filterProjectiles_counts (ps : list Projectile) (w : World) :
  (List.length (creaturesRef w) + List.length (fst (filterProjectiles ps w)) <=
   List.length (creaturesRef (snd (filterProjectiles ps w))) + List.length ps)%nat /\
  Forall (fun p => (0 < life p)%Z) (fst (filterProjectiles ps w)) /\
  (forall L, Forall (fun p => (life p <= L)%Z) ps ->
             Forall (fun p => (life p <= L - 1)%Z) (fst (filterProjectiles ps w))).
Proof.
  revert w. induction ps as [|p ps IH]; intro w.
  - cbn. split; [lia|]. split; [constructor|]. intros L _. constructor.
  - cbn [filterProjectiles].
    pose proof (stepProjectile_kills p w) as Hk.
    pose proof (stepProjectile_verdict p w) as Hv.
    destruct (stepProjectile p w) as [[keep p'] w1]. cbn [fst snd] in *.
    destruct (IH w1) as [Hc [Hpos Hle]].
    destruct (filterProjectiles ps w1) as [kept w2]. cbn [fst snd] in *.
    assert (Hkeep : keep = negb (hitsWall w p || hitsCreature w p || (life p - 1 <=? 0)%Z))
      by congruence.
    assert (Hp' : p' = advance p) by congruence.
    clear Hv. subst p'.
    split; [|split].
    + destruct keep; cbn [List.length]; lia.
    + destruct keep; [|assumption]. constructor; [|assumption].
      symmetry in Hkeep. apply negb_true_iff in Hkeep.
      apply orb_false_iff in Hkeep. destruct Hkeep as [_ Hlife].
      apply Z.leb_gt in Hlife. cbn [advance life]. lia.
    + intros L HL. apply Forall_cons_iff in HL. destruct HL as [Hx Hxs].
      specialize (Hle L Hxs).
      destruct keep; [|assumption]. constructor; [|assumption].
      cbn [advance life]. lia.
Qed.

Lemma remove_child_incl (o : nat) (children : list nat) :
  incl (remove_child o children) children.
Proof.
  induction children as [|c rest IH]; [apply incl_refl|].
  cbn [remove_child]. destruct (Nat.eqb c o).
  - apply incl_tl, incl_refl.
  - apply incl_cons; [now left|]. now apply incl_tl.
Qed.

Lemma remove_child_NoDup (o : nat) (children : list nat) :
  NoDup children -> NoDup (remove_child o children) /\ ~ In o (remove_child o children).
Proof.
  induction children as [|c rest IH]; intro Hnd; [split; [constructor|intros []]|].
  inversion Hnd as [|x xs Hx Hxs]; subst. cbn [remove_child].
  destruct (Nat.eqb_spec c o) as [->|Hne].
  - now split.
  - destruct (IH Hxs) as [Hnd' Hout]. split.
    + constructor; [|assumption]. intro Hin. apply Hx. now apply (remove_child_incl o rest).
    + intros [Heq|Hin]; [congruence|contradiction].
Qed.

Lemma scene_remove_scene (o : nat) (w : World) (children : list nat) :
  sceneRef w = Some children -> sceneRef (scene_remove o w) = Some (remove_child o children).
Proof. intro H. unfold scene_remove. now rewrite H. Qed.

(** What a chain of removals leaves of a scene without repeated child. *)
Lemma scene_remove_keeps (o : nat) (w : World) (children : list nat) (gone : list nat) :
  sceneRef w = Some children -> NoDup children ->
  (forall g, In g gone -> ~ In g children) ->
  exists children',
    sceneRef (scene_remove o w) = Some children' /\ NoDup children' /\
    incl children' children /\
    (forall g, In g (o :: gone) -> ~ In g children').
Proof.
  intros Hs Hnd Hgone. exists (remove_child o children).
  destruct (remove_child_NoDup o children Hnd) as [Hnd' Hout].
  split; [now apply scene_remove_scene|]. split; [assumption|].
  split; [apply remove_child_incl|].
  intros g [<-|Hg]; [assumption|].
  intro Hin. apply (Hgone g Hg). now apply (remove_child_incl o children).
Qed.

Lemma destroyCreature_scene (i : nat) (creature : Creature) (w : World) (children : list nat) :
  sceneRef w = Some children -> NoDup children ->
  exists children',
    sceneRef (destroyCreature i creature w) = Some children' /\ NoDup children' /\
    incl children' children /\
    (forall g, In g [light_id (light creature); mesh_id (rightEye creature);
                     mesh_id (leftEye creature); mesh_id (body creature)] ->
               ~ In g children').
Proof.
  intros Hs Hnd. unfold destroyCreature. cbn [sceneRef set_creatures set_cleanupQueue].
  destruct (scene_remove_keeps (mesh_id (body creature)) w children [] Hs Hnd)
    as [c1 [H1 [N1 [I1 G1]]]]; [intros g []|].
  destruct (scene_remove_keeps (mesh_id (leftEye creature)) _ c1 _ H1 N1 G1)
    as [c2 [H2 [N2 [I2 G2]]]].
  destruct (scene_remove_keeps (mesh_id (rightEye creature)) _ c2 _ H2 N2 G2)
    as [c3 [H3 [N3 [I3 G3]]]].
  destruct (scene_remove_keeps (light_id (light creature)) _ c3 _ H3 N3 G3)
    as [c4 [H4 [N4 [I4 G4]]]].
  exists c4. split; [exact H4|]. split; [exact N4|]. split; [|exact G4].
  intros x Hx. apply I1, I2, I3, I4, Hx.
Qed.

(** X2.  A destroyed creature and a retired projectile are no longer drawn.
    While a projectile is updated in a scene without repeated child, no
    child is added; if the projectile is retired its mesh is no longer a
    child; and if a creature's bundle was pushed on the cleanup queue, the
    creature's body, eyes and light are no longer children. *)
Theorem removed_objects_leave_the_scene
        (projectile : Projectile) (w : World) (children : list nat) :
  sceneRef w = Some children -> NoDup children ->
  exists children',
    sceneRef (snd (stepProjectile projectile w)) = Some children' /\
    NoDup children' /\ incl children' children /\
    (fst (fst (stepProjectile projectile w)) = false ->
     ~ In (mesh_id (mesh projectile)) children') /\
    (forall creature,
        cleanupQueueRef (snd (stepProjectile projectile w)) =
          cleanupQueueRef w ++ [bundleOf creature] ->
        ~ In (mesh_id (body creature)) children' /\
        ~ In (mesh_id (leftEye creature)) children' /\
        ~ In (mesh_id (rightEye creature)) children' /\
        ~ In (light_id (light creature)) children').
Proof.
  intros Hs Hnd.
  assert (Hscan : exists c1,
             sceneRef (snd (scanCreatures (setFromObject (mesh (advance projectile)))
                                          (List.length (creaturesRef w)) w)) = Some c1 /\
             NoDup c1 /\ incl c1 children /\
             (forall creature,
                 cleanupQueueRef (snd (scanCreatures (setFromObject (mesh (advance projectile)))
                                                     (List.length (creaturesRef w)) w)) =
                   cleanupQueueRef w ++ [bundleOf creature] ->
                 forall g, In g [light_id (light creature); mesh_id (rightEye creature);
                                 mesh_id (leftEye creature); mesh_id (body creature)] ->
                           ~ In g c1)).
  { destruct (scanCreatures_spec (setFromObject (mesh (advance projectile)))
                (List.length (creaturesRef w)) w (Nat.le_refl _))
      as [[_ [Hw _]]|[_ [i [c [_ [_ [_ [_ Hw]]]]]]]]; rewrite Hw.
    - exists children. repeat split; try assumption; [apply incl_refl|].
      intros creature Hq. exfalso.
      apply (f_equal (@List.length CleanupItem)) in Hq.
      rewrite length_app in Hq. cbn in Hq. lia.
    - destruct (destroyCreature_scene i c w children Hs Hnd) as [c1 [H1 [N1 [I1 G1]]]].
      exists c1. repeat split; try assumption.
      intros creature Hq. rewrite destroyCreature_queue in Hq.
      apply app_inv_head in Hq. injection Hq as Hb Hl Hr Hli.
      rewrite <- Hb, <- Hl, <- Hr, <- Hli. exact G1. }
  destruct Hscan as [c1 [H1 [N1 [I1 G1]]]].
  pose proof (stepProjectile_verdict projectile w) as Hv.
  pose proof (stepProjectile_unfold projectile w) as E. cbv zeta in E.
  rewrite E in *. clear E.
  destruct (_ || _ || _); cbn [fst snd negb] in *.
  - destruct (scene_remove_keeps (mesh_id (mesh (advance projectile))) _ c1 [] H1 N1)
      as [c2 [H2 [N2 [I2 G2]]]]; [intros g []|].
    exists c2. cbn [sceneRef cleanupQueueRef set_disposed].
    split; [exact H2|]. split; [exact N2|].
    split; [intros x Hx; apply I1, I2, Hx|].
    split.
    + intros _. apply (G2 (mesh_id (mesh (advance projectile)))). now left.
    + intros creature Hq. rewrite scene_remove_queue in Hq.
      specialize (G1 creature Hq).
      repeat split; intro Hin; apply I2 in Hin; revert Hin; apply G1; cbn; tauto.
  - exists c1. split; [exact H1|]. split; [exact N1|]. split; [exact I1|].
    split; [discriminate|].
    intros creature Hq. specialize (G1 creature Hq).
    repeat split; apply G1; cbn; tauto.
Qed.

Lemma mapi_from_length {A B : Type} (f : nat -> A -> B) (i : nat) (l : list A) :
  List.length (mapi_from f i l) = List.length l.
Proof. revert i. induction l as [|a l IH]; intro i; cbn; [reflexivity|now rewrite IH]. Qed.

Lemma updateCreatures_frame (w : World) :
  projectilesRef (updateCreatures w) = projectilesRef w /\
  sceneRef (updateCreatures w) = sceneRef w /\
  wallsRef (updateCreatures w) = wallsRef w /\
  mapDataRef (updateCreatures w) = mapDataRef w /\
  playerRef (updateCreatures w) = playerRef w /\
  List.length (creaturesRef (updateCreatures w)) = List.length (creaturesRef w).
Proof.
  unfold updateCreatures. destruct (mapDataRef w) as [[[grid|]]|] eqn:E; cbn; rewrite ?E;
    repeat split; try reflexivity.
  apply mapi_from_length.
Qed.

Lemma processCleanupQueue_frame (w : World) :
  projectilesRef (processCleanupQueue w) = projectilesRef w /\
  sceneRef (processCleanupQueue w) = sceneRef w /\
  creaturesRef (processCleanupQueue w) = creaturesRef w /\
  playerRef (processCleanupQueue w) = playerRef w.
Proof. unfold processCleanupQueue. destruct (cleanupQueueRef w); now repeat split. Qed.

Lemma scanCreatures_scene_some (box : Box3) (n : nat) (w : World) :
  sceneRef w <> None -> sceneRef (snd (scanCreatures box n w)) <> None.
Proof.
  intro Hs. induction n as [|n IH]; [exact Hs|]. cbn [scanCreatures].
  destruct (nth_error (creaturesRef w) n) as [c|]; [|exact Hs].
  destruct (intersectsBox box (collisionBox c)); [|exact IH].
  cbn [snd]. unfold destroyCreature, scene_remove.
  cbn [sceneRef set_creatures set_cleanupQueue].
  destruct (sceneRef w); [|congruence]. cbn. discriminate.
Qed.

Lemma filterProjectiles_scene_some (ps : list Projectile) (w : World) :
  sceneRef w <> None -> sceneRef (snd (filterProjectiles ps w)) <> None.
Proof.
  revert w. induction ps as [|p ps IH]; intros w Hs; [exact Hs|].
  cbn [filterProjectiles].
  assert (H1 : sceneRef (snd (stepProjectile p w)) <> None).
  { pose proof (stepProjectile_unfold p w) as E. cbv zeta in E. rewrite E.
    pose proof (scanCreatures_scene_some (setFromObject (mesh (advance p)))
                  (List.length (creaturesRef w)) w Hs) as H.
    destruct (_ || _ || _); cbn [snd]; [|exact H].
    cbn [sceneRef set_disposed]. unfold scene_remove.
    destruct (sceneRef (snd (scanCreatures _ _ w))); [cbn; discriminate|congruence]. }
  destruct (stepProjectile p w) as [[keep p'] w1]. cbn [snd] in H1.
  specialize (IH w1 H1). destruct (filterProjectiles ps w1) as [kept w2]. exact IH.
Qed.

(** One frame, seen from the projectile list and the creature pool. *)
Lemma animate_projectiles (w : World) :
  sceneRef w <> None ->
  sceneRef (animate w) <> None /\
  projectilesRef (animate w) = fst (filterProjectiles (projectilesRef w) (handleMovement w)) /\
  List.length (creaturesRef (animate w)) =
    List.length (creaturesRef (snd (filterProjectiles (projectilesRef w) (handleMovement w)))).
Proof.
  intro Hs. unfold animate. cbv zeta.
  destruct (handleMovement_sameBeyondPose w) as [_ [_ [_ [Hps [Hsc _]]]]].
  destruct (processCleanupQueue_frame (updateCreatures (updateProjectiles (handleMovement w))))
    as [P1 [S1 [C1 _]]].
  destruct (updateCreatures_frame (updateProjectiles (handleMovement w)))
    as [P2 [S2 [_ [_ [_ C2]]]]].
  rewrite P1, S1, C1, P2, S2, C2. unfold updateProjectiles.
  destruct (sceneRef (handleMovement w)) eqn:E; [|congruence].
  pose proof (filterProjectiles_scene_some (projectilesRef (handleMovement w))
                (handleMovement w)) as Hf.
  rewrite Hps in *.
  destruct (filterProjectiles (projectilesRef w) (handleMovement w)) as [kept w1].
  cbn [fst snd sceneRef projectilesRef creaturesRef set_projectiles] in *.
  split; [apply Hf; congruence|]. now split.
Qed.

(** A frame with no projectile in flight and nothing queued disposes of
    nothing and leaves both lists empty. *)
Lemma idle_frame (w : World) :
  projectilesRef w = [] -> cleanupQueueRef w = [] ->
  projectilesRef (animate w) = [] /\ cleanupQueueRef (animate w) = [] /\
  disposed (animate w) = disposed w.
Proof.
  intros Hps Hq. unfold animate. cbv zeta.
  destruct (handleMovement_sameBeyondPose w) as [_ [Hq1 [Hd1 [Hps1 _]]]].
  assert (H2 : projectilesRef (updateProjectiles (handleMovement w)) = [] /\
               cleanupQueueRef (updateProjectiles (handleMovement w)) = [] /\
               disposed (updateProjectiles (handleMovement w)) = disposed w).
  { unfold updateProjectiles. rewrite Hps1, Hps.
    destruct (sceneRef (handleMovement w)); cbn [filterProjectiles];
      cbn [projectilesRef cleanupQueueRef disposed set_projectiles];
      rewrite ?Hps1, ?Hq1, ?Hd1; now repeat split. }
  destruct H2 as [Hps2 [Hq2 Hd2]].
  destruct (updateCreatures_queue (updateProjectiles (handleMovement w))) as [Hq3 Hd3].
  destruct (updateCreatures_frame (updateProjectiles (handleMovement w))) as [Hps3 _].
  unfold processCleanupQueue. rewrite Hq3, Hq2. split; [congruence|]. split; congruence.
Qed.

Lemma idle_frames (w : World) (k : nat) :
  projectilesRef w = [] -> cleanupQueueRef w = [] ->
  projectilesRef (Nat.iter k animate w) = [] /\ cleanupQueueRef (Nat.iter k animate w) = [] /\
  disposed (Nat.iter k animate w) = disposed w.
Proof.
  intros Hps Hq. induction k as [|k IH]; [now repeat split|].
  rewrite Nat.iter_succ. destruct IH as [Hps' [Hq' Hd']].
  destruct (idle_frame (Nat.iter k animate w) Hps' Hq') as [H1 [H2 H3]].
  split; [exact H1|]. split; [exact H2|congruence].
Qed.

(** X3.  No projectile outlives its life counter.  In a world with a scene
    whose projectiles all have life at most L, after n frames (n >= 1) the
    projectiles still flying have a life between 1 and L - n, whatever
    they met; so none is left once n >= L.  A bolt, fired with life 100,
    is gone at the latest 100 frames later. *)
Theorem projectile_never_outlives_its_life (w : World) (n : nat) (L : Z) :
  sceneRef w <> None ->
  Forall (fun p => (life p <= L)%Z) (projectilesRef w) ->
  (1 <= n)%nat ->
  Forall (fun p => (0 < life p <= L - Z.of_nat n)%Z) (projectilesRef (Nat.iter n animate w)) /\
  ((L <= Z.of_nat n)%Z -> projectilesRef (Nat.iter n animate w) = []).
Proof.
  intros Hs HL Hn.
  assert (H : sceneRef (Nat.iter n animate w) <> None /\
              Forall (fun p => (0 < life p <= L - Z.of_nat n)%Z)
                     (projectilesRef (Nat.iter n animate w))).
  { destruct n as [|n]; [lia|]. clear Hn.
    induction n as [|n IH].
    - cbn [Nat.iter nat_rect].
      destruct (animate_projectiles w Hs) as [Hs' [Hp _]]. split; [exact Hs'|].
      rewrite Hp.
      destruct (filterProjectiles_counts (projectilesRef w) (handleMovement w))
        as [_ [Hpos Hle]].
      specialize (Hle L HL). apply Forall_forall. intros p Hin.
      rewrite Forall_forall in Hpos, Hle. specialize (Hpos p Hin). specialize (Hle p Hin). lia.
    - destruct IH as [Hs' Hall].
      change (Nat.iter (S (S n)) animate w) with (animate (Nat.iter (S n) animate w)).
      destruct (animate_projectiles _ Hs') as [Hs'' [Hp _]]. split; [exact Hs''|].
      rewrite Hp.
      destruct (filterProjectiles_counts (projectilesRef (Nat.iter (S n) animate w))
                  (handleMovement (Nat.iter (S n) animate w))) as [_ [Hpos Hle]].
      assert (Hup : Forall (fun p => (life p <= L - Z.of_nat (S n))%Z)
                           (projectilesRef (Nat.iter (S n) animate w))).
      { eapply Forall_impl; [|exact Hall]. cbn beta. intros p Hp'. lia. }
      specialize (Hle _ Hup). apply Forall_forall. intros p Hin.
      rewrite Forall_forall in Hpos, Hle. specialize (Hpos p Hin). specialize (Hle p Hin). lia. }
  destruct H as [_ Hall]. split; [exact Hall|].
  intro HLn. destruct (projectilesRef (Nat.iter n animate w)) as [|p ps]; [reflexivity|].
  apply Forall_cons_iff in Hall. destruct Hall as [Hp _]. lia.
Qed.

(** X4.  Every kill costs a projectile.  In one frame the pool never grows,
    and it loses at most as many creatures as the projectile list loses
    projectiles: a creature leaves the pool only through a projectile that
    is retired in the same frame. *)
Theorem each_kill_costs_a_projectile (w : World) :
  (List.length (creaturesRef (animate w)) <= List.length (creaturesRef w))%nat /\
  (List.length (projectilesRef (animate w)) <= List.length (projectilesRef w))%nat /\
  (List.length (creaturesRef w) + List.length (projectilesRef (animate w)) <=
   List.length (creaturesRef (animate w)) + List.length (projectilesRef w))%nat.
Proof.
  destruct (handleMovement_sameBeyondPose w) as [Hc [_ [_ [Hps [Hsc _]]]]].
  destruct (sceneRef w) as [children|] eqn:Hs.
  - assert (Hs' : sceneRef w <> None) by congruence.
    destruct (animate_projectiles w Hs') as [_ [Hp Hcs]].
    rewrite Hp, Hcs.
    destruct (filterProjectiles_counts (projectilesRef w) (handleMovement w)) as [Hcount _].
    destruct (filterProjectiles_effects (projectilesRef w) (handleMovement w))
      as [killed [retired [Hperm _]]].
    apply Permutation_length in Hperm. rewrite length_app in Hperm.
    rewrite Hc in *. lia.
  - unfold animate. cbv zeta.
    destruct (processCleanupQueue_frame (updateCreatures (updateProjectiles (handleMovement w))))
      as [P1 [_ [C1 _]]].
    destruct (updateCreatures_frame (updateProjectiles (handleMovement w)))
      as [P2 [_ [_ [_ [_ C2]]]]].
    rewrite P1, C1, P2, C2. unfold updateProjectiles. rewrite Hsc, Hps, Hc. lia.
Qed.

(** ** Further properties: the creatures *)

Lemma stepCreature_cases (grid : Grid) (playerX playerZ : Q) (wallBoxes : list Box3)
      (index : nat) (creature : Creature) :
  let newX := fst (candidateOf playerX playerZ creature) in
  let newZ := snd (candidateOf playerX playerZ creature) in
  stepCreature grid playerX playerZ wallBoxes index creature = animatedAt index creature \/
  (stepCreature grid playerX playerZ wallBoxes index creature =
     movedTo newX newZ (animatedAt index creature) /\
   existsb (fun wallBox =>
              intersectsBox (mkBox3 (mkVector3 (newX - 0.4) 0 (newZ - 0.4))
                                    (mkVector3 (newX + 0.4) 1.6 (newZ + 0.4))) wallBox)
           wallBoxes = false).
Proof.
  cbv zeta. unfold stepCreature, candidateOf, animatedAt, movedTo. cbv zeta.
  cbn [body position setPositionY vx vz fst snd leftEye rightEye light targetX targetZ
       collisionBox].
  match goal with |- context [Qgtb ?d 1.5] => destruct (Qgtb d 1.5) end;
    [|left; reflexivity].
  match goal with |- context [if ?c && isOpen ?o then _ else _] =>
    destruct (c && isOpen o) end; [|left; reflexivity].
  match goal with |- context [if negb ?e then _ else _] => destruct e eqn:He end;
    cbn [negb]; [left; reflexivity|].
  right. split; reflexivity.
Qed.

Lemma setOpacity_position (o : Q) (m : Mesh) : position (setOpacity o m) = position m.
Proof. unfold setOpacity. now destruct (material m). Qed.

Lemma intersectsBox_true (a b : Box3) :
  intersectsBox a b = true <->
  (vx (bmin a) <= vx (bmax b) /\ vx (bmin b) <= vx (bmax a)) /\
  (vy (bmin a) <= vy (bmax b) /\ vy (bmin b) <= vy (bmax a)) /\
  (vz (bmin a) <= vz (bmax b) /\ vz (bmin b) <= vz (bmax a)).
Proof.
  unfold intersectsBox. rewrite !andb_true_iff, !Qle_bool_iff. tauto.
Qed.

(** The test depends on the bounds of the first box only up to equality
    of rationals. *)
Lemma intersectsBox_same_bounds (a a' b : Box3) :
  vx (bmin a) == vx (bmin a') -> vy (bmin a) == vy (bmin a') -> vz (bmin a) == vz (bmin a') ->
  vx (bmax a) == vx (bmax a') -> vy (bmax a) == vy (bmax a') -> vz (bmax a) == vz (bmax a') ->
  intersectsBox a b = intersectsBox a' b.
Proof.
  intros H1 H2 H3 H4 H5 H6. unfold intersectsBox.
  now rewrite H1, H2, H3, H4, H5, H6.
Qed.

Lemma animatedAt_tracksBody (index : nat) (creature : Creature) :
  tracksBody creature -> tracksBody (animatedAt index creature).
Proof.
  unfold tracksBody, animatedAt. cbv zeta.
  cbn [body leftEye rightEye light collisionBox position setPositionY vx vz].
  now rewrite !setOpacity_position.
Qed.

Lemma movedTo_tracksBody (newX newZ : Q) (creature : Creature) :
  tracksBody (movedTo newX newZ creature).
Proof.
  unfold tracksBody, movedTo, setFromCenterAndSize, multiplyScalar, vadd. cbv zeta.
  cbn [body leftEye rightEye light collisionBox position setPositionXZ vx vy vz
       bmin bmax light_position].
  repeat split; lra.
Qed.

Lemma freshCreature_tracksBody (n : nat) (pos : Q * Q) : tracksBody (freshCreature n pos).
Proof.
  destruct pos as [x z]. unfold tracksBody, freshCreature. cbv zeta.
  cbn [body leftEye rightEye light collisionBox position vx vy vz bmin bmax light_position].
  repeat split; reflexivity.
Qed.

Lemma spawnCreature_fresh (pos : Q * Q) (w : World) :
  creaturesRef (spawnCreature pos w) = creaturesRef w ++ [freshCreature (nextId w) pos].
Proof.
  destruct pos as [x z]. unfold spawnCreature, freshCreature. cbv zeta.
  cbn [creaturesRef set_creatures]. autorewrite with world. reflexivity.
Qed.

Lemma spawnLoop_Forall (P : Creature -> Prop) (shuffledSpaces : list (Q * Q))
      (remaining i : nat) (w : World) :
  (forall n pos, In pos shuffledSpaces -> P (freshCreature n pos)) ->
  Forall P (creaturesRef w) ->
  Forall P (creaturesRef (spawnLoop shuffledSpaces i remaining w)).
Proof.
  intro Hfresh. revert i w. induction remaining as [|remaining IH]; intros i w Hw; [exact Hw|].
  cbn [spawnLoop]. apply IH.
  destruct (nth_error shuffledSpaces i) as [pos|] eqn:Hi; [|exact Hw].
  rewrite spawnCreature_fresh. apply Forall_app. split; [exact Hw|].
  constructor; [|constructor]. apply Hfresh. eapply nth_error_In; eassumption.
Qed.

Lemma createShadowCreatures_Forall (P : Creature -> Prop) (w : World) :
  (forall grid n pos,
      mapDataRef w = Some (mkMapData (Some grid)) ->
      In pos (shuffle (openSpacesOf grid)) -> P (freshCreature n pos)) ->
  Forall P (creaturesRef (createShadowCreatures w)).
Proof.
  intro Hfresh. unfold createShadowCreatures. cbv zeta.
  cbn [mapDataRef set_creatures]. rewrite retire_all_mapData.
  destruct (mapDataRef w) as [[[grid|]]|] eqn:Hmap; cbn [walls]; try constructor.
  apply spawnLoop_Forall; [|constructor].
  intros n pos Hin. now apply (Hfresh grid).
Qed.

(** X5.  The parts of a creature move together.  Every creature that
    [createShadowCreatures] creates has its collision box, eyes and light
    placed around its body; and if this holds of every creature of the
    pool it still holds after [updateCreatures], whether steps were
    accepted or rejected: the collision tests of the player and of the
    projectiles always see the box where the body is. *)
Theorem creature_parts_track_the_body (w : World) :
  Forall tracksBody (creaturesRef w) ->
  Forall tracksBody (creaturesRef (updateCreatures w)) /\
  Forall tracksBody (creaturesRef (createShadowCreatures w)).
Proof.
  intro H. split.
  - unfold updateCreatures. destruct (mapDataRef w) as [[[grid|]]|]; try exact H.
    cbn [creaturesRef set_creatures]. apply mapi_from_Forall; [|exact H].
    intros i c Hc.
    destruct (stepCreature_cases grid (px (playerRef w)) (py (playerRef w)) (wallsRef w) i c)
      as [->|[-> _]].
    + now apply animatedAt_tracksBody.
    + apply movedTo_tracksBody.
  - apply createShadowCreatures_Forall. intros grid n pos _ _. apply freshCreature_tracksBody.
Qed.

(** X6, first half: a creature whose box meets no wall keeps a box that
    meets no wall, since a step is committed only when the box built at
    the candidate position passed the wall test and the box stored has the
    same bounds. *)
Lemma stepCreature_clearOfWalls (grid : Grid) (playerX playerZ : Q) (wallBoxes : list Box3)
      (index : nat) (creature : Creature) :
  clearOfWalls wallBoxes creature ->
  clearOfWalls wallBoxes (stepCreature grid playerX playerZ wallBoxes index creature).
Proof.
  intro Hc.
  destruct (stepCreature_cases grid playerX playerZ wallBoxes index creature)
    as [->|[-> Hfree]].
  - exact Hc.
  - intros wallBox Hin.
    unfold movedTo, setFromCenterAndSize, multiplyScalar, vadd. cbn [collisionBox].
    match type of Hfree with
    | existsb (fun wallBox => intersectsBox ?cb wallBox) _ = false =>
      rewrite (intersectsBox_same_bounds _ cb wallBox)
    end; cbn [bmin bmax vx vy vz]; try lra.
    apply not_true_is_false. intro Hx.
    assert (E : existsb (fun wallBox =>
                   intersectsBox
                     (mkBox3 (mkVector3 (fst (candidateOf playerX playerZ creature) - 0.4) 0
                                        (snd (candidateOf playerX playerZ creature) - 0.4))
                             (mkVector3 (fst (candidateOf playerX playerZ creature) + 0.4) 1.6
                                        (snd (candidateOf playerX playerZ creature) + 0.4)))
                     wallBox) wallBoxes = true).
    { apply existsb_exists. exists wallBox. now split. }
    cbv zeta in Hfree. congruence.
Qed.

(** ** Further properties: cells, walls and the spawn point *)

Lemma in_openSpacesOf (grid : Grid) (pos : Q * Q) :
  In pos (openSpacesOf grid) ->
  exists row col cells,
    nth_error grid row = Some cells /\ nth_error cells col = Some 0%Z /\
    pos = (cellCentreX grid col, cellCentreZ grid row).
Proof.
  intro Hin. unfold openSpacesOf in Hin.
  apply in_concat_mapi_from in Hin. destruct Hin as [row [cells [Hrow Hin]]].
  apply in_concat_mapi_from in Hin. destruct Hin as [col [cell [Hcol Hin]]].
  cbn [Nat.add] in Hin.
  destruct (Z.eqb_spec cell 0) as [->|]; [|contradiction].
  destruct Hin as [<-|[]]. now exists row, col, cells.
Qed.

Lemma in_collisionBoxesOf (grid : Grid) (wallBox : Box3) :
  In wallBox (collisionBoxesOf grid) ->
  exists row col cells,
    nth_error grid row = Some cells /\ nth_error cells col = Some 1%Z /\
    wallBox = wallBoxAt (cellCentreX grid col, cellCentreZ grid row).
Proof.
  intro Hin. unfold collisionBoxesOf in Hin.
  apply in_concat_mapi_from in Hin. destruct Hin as [row [cells [Hrow Hin]]].
  apply in_concat_mapi_from in Hin. destruct Hin as [col [cell [Hcol Hin]]].
  cbn [Nat.add] in Hin.
  destruct (Z.eqb_spec cell 1) as [->|]; [|contradiction].
  destruct Hin as [<-|[]]. now exists row, col, cells.
Qed.

Lemma next_index (a b : nat) :
  (a < b)%nat -> inject_Z (Z.of_nat a) + 1 <= inject_Z (Z.of_nat b).
Proof.
  intro H. change 1 with (inject_Z 1).
  rewrite <- (inject_Z_plus (Z.of_nat a) 1), <- Zle_Qle. lia.
Qed.

(** A box that stays within [h < 1] of the centre of an open cell, in x
    and in z, meets the block of no wall cell. *)
Lemma open_cell_clear_of_wall (grid : Grid) (row col row' col' : nat) (cells cells' : list Z)
      (this : Box3) (h : Q) :
  nth_error grid row = Some cells -> nth_error cells col = Some 0%Z ->
  nth_error grid row' = Some cells' -> nth_error cells' col' = Some 1%Z ->
  h < 1 ->
  cellCentreX grid col - h <= vx (bmin this) -> vx (bmax this) <= cellCentreX grid col + h ->
  cellCentreZ grid row - h <= vz (bmin this) -> vz (bmax this) <= cellCentreZ grid row + h ->
  intersectsBox this (wallBoxAt (cellCentreX grid col', cellCentreZ grid row')) = false.
Proof.
  intros Hrow Hcol Hrow' Hcol' Hh X1 X2 Z1 Z2.
  apply not_true_is_false. intro Hx. apply intersectsBox_true in Hx.
  unfold wallBoxAt, setFromCenterAndSize, multiplyScalar, vadd, cellSize, wallHeight in Hx.
  cbn [bmin bmax vx vy vz fst snd] in Hx.
  unfold cellCentreX, cellCentreZ, cellSize in *.
  destruct Hx as [[Hx1 Hx2] [_ [Hz1 Hz2]]].
  destruct (Nat.lt_total col col') as [Hlt|[Heq|Hlt]].
  - pose proof (next_index _ _ Hlt). lra.
  - subst col'.
    destruct (Nat.lt_total row row') as [Hlt|[Heq|Hlt]].
    + pose proof (next_index _ _ Hlt). lra.
    + subst row'. congruence.
    + pose proof (next_index _ _ Hlt). lra.
  - pose proof (next_index _ _ Hlt). lra.
Qed.

Lemma freshCreature_clearOfWalls (grid : Grid) (n : nat) (pos : Q * Q) :
  In pos (openSpacesOf grid) -> clearOfWalls (collisionBoxesOf grid) (freshCreature n pos).
Proof.
  intros Hpos wallBox Hwall.
  apply in_openSpacesOf in Hpos. destruct Hpos as [row [col [cells [Hrow [Hcol ->]]]]].
  apply in_collisionBoxesOf in Hwall.
  destruct Hwall as [row' [col' [cells' [Hrow' [Hcol' ->]]]]].
  apply (open_cell_clear_of_wall grid row col row' col' cells cells' _ 0.4);
    try assumption; unfold freshCreature; cbn [collisionBox bmin bmax vx vz]; lra.
Qed.

(** X6.  Creatures never overlap a wall.  When the wall boxes are those of
    the stored map, the collision box of every creature that
    [createShadowCreatures] creates meets no wall box; and if the
    collision box of every creature of the pool meets no wall box, this
    still holds after [updateCreatures]. *)
Theorem creatures_stay_clear_of_walls (w : World) (grid : Grid) :
  mapDataRef w = Some (mkMapData (Some grid)) ->
  wallsRef w = collisionBoxesOf grid ->
  Forall (clearOfWalls (wallsRef w)) (creaturesRef (createShadowCreatures w)) /\
  (Forall (clearOfWalls (wallsRef w)) (creaturesRef w) ->
   Forall (clearOfWalls (wallsRef w)) (creaturesRef (updateCreatures w))).
Proof.
  intros Hmap Hwalls. split.
  - apply createShadowCreatures_Forall. intros g n pos Hg Hin.
    assert (g = grid) by congruence. subst g. rewrite Hwalls.
    apply freshCreature_clearOfWalls.
    eapply Permutation_in; [|exact Hin]. apply Permutation_sym, shuffle_permutes.
  - intro Hall. unfold updateCreatures. rewrite Hmap. cbn [walls creaturesRef set_creatures].
    apply mapi_from_Forall; [|exact Hall].
    intros i c Hc. now apply stepCreature_clearOfWalls.
Qed.

Lemma firstOpenInRow_head {A : Type} (f : nat -> A) (cells : list Z) (i : nat) :
  match firstOpenInRow cells i with
  | Some col =>
    exists rest,
      List.concat (mapi_from (fun col cell => if (cell =? 0)%Z then [f col] else []) i cells) =
      f col :: rest
  | None =>
    List.concat (mapi_from (fun col cell => if (cell =? 0)%Z then [f col] else []) i cells) = []
  end.
Proof.
  revert i. induction cells as [|cell cells IH]; intro i; [reflexivity|].
  cbn [firstOpenInRow mapi_from List.concat].
  destruct (cell =? 0)%Z.
  - eexists. reflexivity.
  - cbn [app]. apply IH.
Qed.

(** The spawn cell is the first entry of [openSpaces]; without an open
    cell [openSpaces] is empty. *)
Lemma firstOpenCell_head (grid : Grid) :
  match firstOpenCell grid 0 with
  | Some (row, col) =>
    exists rest, openSpacesOf grid = (cellCentreX grid col, cellCentreZ grid row) :: rest
  | None => openSpacesOf grid = []
  end.
Proof.
  unfold openSpacesOf, cellCentreX, cellCentreZ.
  generalize (rowLength grid) (rowCount grid). intros wd ht.
  enough (H : forall i,
             match firstOpenCell grid i with
             | Some (row, col) =>
               exists rest,
                 List.concat
                   (mapi_from
                      (fun row cells =>
                         List.concat
                           (mapi_from
                              (fun col cell =>
                                 if (cell =? 0)%Z
                                 then [((inject_Z (Z.of_nat col) - wd / 2) * cellSize,
                                        (inject_Z (Z.of_nat row) - ht / 2) * cellSize)]
                                 else [])
                              0%nat cells))
                      i grid) =
                 ((inject_Z (Z.of_nat col) - wd / 2) * cellSize,
                  (inject_Z (Z.of_nat row) - ht / 2) * cellSize) :: rest
             | None =>
               List.concat
                 (mapi_from
                    (fun row cells =>
                       List.concat
                         (mapi_from
                            (fun col cell =>
                               if (cell =? 0)%Z
                               then [((inject_Z (Z.of_nat col) - wd / 2) * cellSize,
                                      (inject_Z (Z.of_nat row) - ht / 2) * cellSize)]
                               else [])
                            0%nat cells))
                    i grid) = []
             end) by apply H.
  induction grid as [|cells grid IH]; intro i; [reflexivity|].
  cbn [firstOpenCell mapi_from List.concat].
  pose proof (firstOpenInRow_head
                (fun col => ((inject_Z (Z.of_nat col) - wd / 2) * cellSize,
                             (inject_Z (Z.of_nat i) - ht / 2) * cellSize)) cells 0) as Hrow.
  destruct (firstOpenInRow cells 0) as [col|].
  - destruct Hrow as [rest Hrow]. rewrite Hrow. eexists. reflexivity.
  - rewrite Hrow. cbn [app]. apply IH.
Qed.

Lemma onlySceneChanged_refl (w : World) : onlySceneChanged w w.
Proof. now repeat split. Qed.

Lemma onlySceneChanged_trans (w0 w1 w2 : World) :
  onlySceneChanged w0 w1 -> onlySceneChanged w1 w2 -> onlySceneChanged w0 w2.
Proof.
  unfold onlySceneChanged. intros H1 H2.
  destruct H1 as (A1 & A2 & A3 & A4 & A5 & A6 & A7 & A8 & A9 & A10).
  destruct H2 as (B1 & B2 & B3 & B4 & B5 & B6 & B7 & B8 & B9 & B10).
  repeat split; congruence.
Qed.

Lemma scene_remove_only (o : nat) (w : World) : onlySceneChanged w (scene_remove o w).
Proof. unfold scene_remove. destruct (sceneRef w); now repeat split. Qed.

Lemma scene_add_only (o : nat) (w : World) : onlySceneChanged w (scene_add o w).
Proof. unfold scene_add. destruct (sceneRef w); now repeat split. Qed.

Lemma set_nextId_only (n : nat) (w : World) : onlySceneChanged w (set_nextId n w).
Proof. now repeat split. Qed.

Lemma fold_scene_remove_only (gone : list nat) (w : World) :
  onlySceneChanged w (fold_left (fun w wall => scene_remove wall w) gone w).
Proof.
  revert w. induction gone as [|o gone IH]; intro w; [apply onlySceneChanged_refl|].
  cbn [fold_left]. eapply onlySceneChanged_trans; [apply scene_remove_only|apply IH].
Qed.

Lemma addWall_fold (positions : list (Q * Q)) (collisionBoxes : list Box3) (w : World) :
  fst (fold_left addWall positions (collisionBoxes, w)) =
    collisionBoxes ++ map wallBoxAt positions /\
  onlySceneChanged w (snd (fold_left addWall positions (collisionBoxes, w))) /\
  cameraRef (snd (fold_left addWall positions (collisionBoxes, w))) = cameraRef w.
Proof.
  revert collisionBoxes w.
  induction positions as [|[x z] positions IH]; intros collisionBoxes w.
  - cbn. rewrite app_nil_r. split; [reflexivity|]. split; [apply onlySceneChanged_refl|reflexivity].
  - cbn [fold_left addWall]. cbv zeta.
    destruct (IH (collisionBoxes ++
                  [setFromCenterAndSize (mkVector3 x (wallHeight / 2) z)
                                        (mkVector3 cellSize wallHeight cellSize)])
                 (scene_add (nextId w + 1) (set_nextId (nextId w + 2) w)))
      as [Hb [Ho Hc]].
    rewrite Hb, Hc. split; [|split].
    + rewrite <- app_assoc. reflexivity.
    + eapply onlySceneChanged_trans; [|exact Ho].
      eapply onlySceneChanged_trans; [apply (set_nextId_only (nextId w + 2))|apply scene_add_only].
    + unfold scene_add. cbn [sceneRef set_nextId]. now destruct (sceneRef w).
Qed.

Lemma wallBoxes_of_positions (grid : Grid) :
  map wallBoxAt (wallPositionsOf grid) = collisionBoxesOf grid.
Proof.
  unfold wallPositionsOf, collisionBoxesOf, cellCentreX, cellCentreZ.
  generalize (rowLength grid) (rowCount grid). intros wd ht.
  generalize 0%nat at 2 4. induction grid as [|cells grid IH]; intro i; [reflexivity|].
  cbn [mapi_from List.concat]. rewrite map_app, IH. f_equal.
  generalize 0%nat. clear IH. induction cells as [|cell cells IH]; intro j; [reflexivity|].
  cbn [mapi_from List.concat]. rewrite map_app, IH. f_equal.
  now destruct (cell =? 1)%Z.
Qed.

Lemma placeSpawn_frame (grid : Grid) (w : World) :
  keysRef (placeSpawn grid w) = keysRef w /\ mouseRef (placeSpawn grid w) = mouseRef w /\
  wallsRef (placeSpawn grid w) = wallsRef w /\
  projectilesRef (placeSpawn grid w) = projectilesRef w /\
  creaturesRef (placeSpawn grid w) = creaturesRef w /\
  mapDataRef (placeSpawn grid w) = mapDataRef w /\
  cleanupQueueRef (placeSpawn grid w) = cleanupQueueRef w /\
  disposed (placeSpawn grid w) = disposed w /\
  sceneRef (placeSpawn grid w) = sceneRef w /\
  nextId (placeSpawn grid w) = nextId w /\
  playerRef (placeSpawn grid w) =
    match firstOpenCell grid 0 with
    | Some (row, col) => mkPlayer (cellCentreX grid col) (cellCentreZ grid row) Math_PI
    | None => playerRef w
    end.
Proof. unfold placeSpawn. destruct (firstOpenCell grid 0) as [[row col]|]; now repeat split. Qed.

Lemma spawn_head_clear (grid : Grid) (row col : nat) :
  firstOpenCell grid 0 = Some (row, col) ->
  In (cellCentreX grid col, cellCentreZ grid row) (openSpacesOf grid) /\
  cellIs grid row col 0 = true /\
  forall wallBox, In wallBox (collisionBoxesOf grid) ->
    intersectsBox (playerBox (cellCentreX grid col) (cellCentreZ grid row)) wallBox = false.
Proof.
  intro Hfirst. pose proof (firstOpenCell_head grid) as Hhead. rewrite Hfirst in Hhead.
  destruct Hhead as [rest Hhead].
  assert (Hin : In (cellCentreX grid col, cellCentreZ grid row) (openSpacesOf grid))
    by (rewrite Hhead; now left).
  split; [exact Hin|].
  destruct (in_openSpacesOf grid _ Hin) as [r [c [cells [Hr [Hc Heq]]]]].
  pose proof (f_equal fst Heq) as Hx. pose proof (f_equal snd Heq) as Hz.
  cbn [fst snd] in Hx, Hz.
  assert (Hcol : col = c).
  { assert (Hq : cellCentreX grid col == cellCentreX grid c) by (rewrite Hx; reflexivity).
    unfold cellCentreX, cellSize in Hq.
    assert (E : inject_Z (Z.of_nat col) == inject_Z (Z.of_nat c)) by lra.
    pose proof (proj1 (inject_Z_injective _ _) E). lia. }
  assert (Hrow : row = r).
  { assert (Hq : cellCentreZ grid row == cellCentreZ grid r) by (rewrite Hz; reflexivity).
    unfold cellCentreZ, cellSize in Hq.
    assert (E : inject_Z (Z.of_nat row) == inject_Z (Z.of_nat r)) by lra.
    pose proof (proj1 (inject_Z_injective _ _) E). lia. }
  subst c r. split.
  - unfold cellIs. now rewrite Hr, Hc.
  - intros wallBox Hwall. apply in_collisionBoxesOf in Hwall.
    destruct Hwall as [row' [col' [cells' [Hrow' [Hcol' ->]]]]].
    apply (open_cell_clear_of_wall grid row col row' col' cells cells' _ 0.3);
      try assumption; unfold playerBox; cbn [bmin bmax vx vz]; lra.
Qed.

Lemma createWalls_spec (w : World) (grid : Grid) :
  fst (createWalls (Some (mkMapData (Some grid))) w) = collisionBoxesOf grid /\
  playerRef (snd (createWalls (Some (mkMapData (Some grid))) w)) =
    match firstOpenCell grid 0 with
    | Some (row, col) => mkPlayer (cellCentreX grid col) (cellCentreZ grid row) Math_PI
    | None => playerRef w
    end /\
  keysRef (snd (createWalls (Some (mkMapData (Some grid))) w)) = keysRef w /\
  wallsRef (snd (createWalls (Some (mkMapData (Some grid))) w)) = wallsRef w /\
  projectilesRef (snd (createWalls (Some (mkMapData (Some grid))) w)) = projectilesRef w /\
  creaturesRef (snd (createWalls (Some (mkMapData (Some grid))) w)) = creaturesRef w /\
  mapDataRef (snd (createWalls (Some (mkMapData (Some grid))) w)) = mapDataRef w /\
  cleanupQueueRef (snd (createWalls (Some (mkMapData (Some grid))) w)) = cleanupQueueRef w /\
  disposed (snd (createWalls (Some (mkMapData (Some grid))) w)) = disposed w.
Proof.
  unfold createWalls. cbv zeta. cbn [walls].
  match goal with
  | |- context [fold_left addWall _ ([], ?w1)] =>
    destruct (addWall_fold (wallPositionsOf grid) [] w1) as [Hb [Ho _]];
      destruct (placeSpawn_frame grid
                  (fold_left (fun w wall => scene_remove wall w)
                     (match sceneRef (set_nextId (nextId w + 1) w) with
                      | Some children => filter isWallMesh children
                      | None => []
                      end) (set_nextId (nextId w + 1) w)))
        as (P1 & P2 & P3 & P4 & P5 & P6 & P7 & P8 & _ & _ & P9)
  end.
  destruct (fold_scene_remove_only
              (match sceneRef (set_nextId (nextId w + 1) w) with
               | Some children => filter isWallMesh children
               | None => []
               end) (set_nextId (nextId w + 1) w))
    as (R1 & R2 & R3 & R4 & R5 & R6 & R7 & R8 & R9 & R10).
  destruct Ho as (O1 & O2 & O3 & O4 & O5 & O6 & O7 & O8 & O9 & O10).
  rewrite Hb, wallBoxes_of_positions. split; [reflexivity|].
  rewrite O1, O2, O4, O5, O6, O7, O8, O9, P9, P1, P3, P4, P5, P6, P7, P8,
          R1, R2, R4, R5, R6, R7, R8, R9.
  now repeat split.
Qed.

(** X7.  The spawn point.  [createWalls] returns one box per wall cell of
    the map.  When the map has an open cell, the player is put at the
    centre of the first one in reading order, facing [Math.PI]; that
    position is the first entry of [openSpaces], and the player's
    validation box around it meets none of the boxes returned.  When the
    map has no open cell the player stays where it was. *)
Theorem spawn_stands_clear_of_walls (w : World) (grid : Grid) :
  fst (createWalls (Some (mkMapData (Some grid))) w) = collisionBoxesOf grid /\
  match firstOpenCell grid 0 with
  | Some (row, col) =>
    playerRef (snd (createWalls (Some (mkMapData (Some grid))) w)) =
      mkPlayer (cellCentreX grid col) (cellCentreZ grid row) Math_PI /\
    cellIs grid row col 0 = true /\
    hd_error (openSpacesOf grid) = Some (cellCentreX grid col, cellCentreZ grid row) /\
    (forall wallBox,
        In wallBox (fst (createWalls (Some (mkMapData (Some grid))) w)) ->
        intersectsBox (playerBox (cellCentreX grid col) (cellCentreZ grid row)) wallBox = false)
  | None =>
    playerRef (snd (createWalls (Some (mkMapData (Some grid))) w)) = playerRef w /\
    openSpacesOf grid = []
  end.
Proof.
  destruct (createWalls_spec w grid) as [Hb [Hp _]]. split; [exact Hb|].
  rewrite Hb, Hp. pose proof (firstOpenCell_head grid) as Hhead.
  destruct (firstOpenCell grid 0) as [[row col]|] eqn:Hfirst.
  - destruct (spawn_head_clear grid row col Hfirst) as [_ [Hcell Hclear]].
    destruct Hhead as [rest Hhead]. rewrite Hhead. now repeat split.
  - now split.
Qed.

(** ** Further properties: building the scene *)

Lemma onlyPoolChanged_trans (w0 w1 w2 : World) :
  onlyPoolChanged w0 w1 -> onlyPoolChanged w1 w2 -> onlyPoolChanged w0 w2.
Proof.
  unfold onlyPoolChanged. intros H1 H2.
  destruct H1 as (A1 & A2 & A3 & A4 & A5 & A6 & A7 & A8).
  destruct H2 as (B1 & B2 & B3 & B4 & B5 & B6 & B7 & B8).
  repeat split; congruence.
Qed.

Lemma onlySceneChanged_pool (w0 w : World) : onlySceneChanged w0 w -> onlyPoolChanged w0 w.
Proof.
  intros (A1 & A2 & A3 & A4 & A5 & A6 & A7 & A8 & A9 & A10). now repeat split.
Qed.

Lemma retireCreature_effects (w : World) (creature : Creature) :
  onlyPoolChanged w (retireCreature w creature) /\
  creaturesRef (retireCreature w creature) = creaturesRef w /\
  cleanupQueueRef (retireCreature w creature) = cleanupQueueRef w ++ [bundleOf creature].
Proof.
  unfold retireCreature. cbv zeta.
  destruct (onlySceneChanged_trans _ _ _
              (onlySceneChanged_trans _ _ _
                 (onlySceneChanged_trans _ _ _
                    (scene_remove_only (mesh_id (body creature)) w)
                    (scene_remove_only (mesh_id (leftEye creature)) _))
                 (scene_remove_only (mesh_id (rightEye creature)) _))
              (scene_remove_only (light_id (light creature)) _))
    as (A1 & A2 & A3 & A4 & A5 & A6 & A7 & A8 & A9 & A10).
  split; [|split].
  - unfold onlyPoolChanged.
    cbn [playerRef keysRef mouseRef wallsRef projectilesRef mapDataRef disposed cameraRef
         set_cleanupQueue].
    now repeat split.
  - cbn [creaturesRef set_cleanupQueue]. exact A6.
  - cbn [cleanupQueueRef set_cleanupQueue]. now rewrite A8.
Qed.

Lemma retire_all_effects (cs : list Creature) (w : World) :
  onlyPoolChanged w (fold_left retireCreature cs w) /\
  cleanupQueueRef (fold_left retireCreature cs w) = cleanupQueueRef w ++ map bundleOf cs.
Proof.
  revert w. induction cs as [|c cs IH]; intro w.
  - cbn. rewrite app_nil_r. split; [now repeat split|reflexivity].
  - cbn [fold_left map].
    destruct (retireCreature_effects w c) as [H1 [_ H3]].
    destruct (IH (retireCreature w c)) as [I1 I2].
    split; [eapply onlyPoolChanged_trans; eassumption|].
    rewrite I2, H3, <- app_assoc. reflexivity.
Qed.

Lemma spawnCreature_effects (pos : Q * Q) (w : World) :
  onlyPoolChanged w (spawnCreature pos w) /\
  cleanupQueueRef (spawnCreature pos w) = cleanupQueueRef w.
Proof.
  destruct pos as [x z]. unfold spawnCreature. cbv zeta.
  match goal with
  | |- context [set_creatures ?cs ?w4] => assert (H : onlySceneChanged w w4)
  end.
  { repeat (eapply onlySceneChanged_trans; [|apply scene_add_only]).
    apply set_nextId_only. }
  destruct H as (A1 & A2 & A3 & A4 & A5 & A6 & A7 & A8 & A9 & A10).
  unfold onlyPoolChanged.
  cbn [playerRef keysRef mouseRef wallsRef projectilesRef mapDataRef disposed cleanupQueueRef
       cameraRef set_creatures].
  now repeat split.
Qed.

Lemma spawnLoop_effects (shuffledSpaces : list (Q * Q)) (remaining i : nat) (w : World) :
  onlyPoolChanged w (spawnLoop shuffledSpaces i remaining w) /\
  cleanupQueueRef (spawnLoop shuffledSpaces i remaining w) = cleanupQueueRef w /\
  incl (creaturesRef w) (creaturesRef (spawnLoop shuffledSpaces i remaining w)).
Proof.
  revert i w. induction remaining as [|remaining IH]; intros i w.
  - cbn. split; [now repeat split|]. split; [reflexivity|apply incl_refl].
  - cbn [spawnLoop].
    destruct (nth_error shuffledSpaces i) as [pos|].
    + destruct (spawnCreature_effects pos w) as [H1 H2].
      destruct (IH (S i) (spawnCreature pos w)) as [I1 [I2 I3]].
      split; [eapply onlyPoolChanged_trans; eassumption|]. split; [congruence|].
      intros c Hc. apply I3. rewrite spawnCreature_fresh. apply in_or_app. now left.
    + apply IH.
Qed.

Lemma createShadowCreatures_effects (w : World) :
  onlyPoolChanged w (createShadowCreatures w) /\
  cleanupQueueRef (createShadowCreatures w) = cleanupQueueRef w ++ map bundleOf (creaturesRef w).
Proof.
  unfold createShadowCreatures. cbv zeta.
  destruct (retire_all_effects (creaturesRef w) w) as [R1 R2].
  assert (H0 : onlyPoolChanged w (set_creatures [] (fold_left retireCreature (creaturesRef w) w))).
  { destruct R1 as (A1 & A2 & A3 & A4 & A5 & A6 & A7 & A8). now repeat split. }
  destruct (mapDataRef (set_creatures [] (fold_left retireCreature (creaturesRef w) w)))
    as [[[grid|]]|]; cbn [walls]; try (split; [exact H0|exact R2]).
  match goal with
  | |- context [spawnLoop ?sh 0 ?k ?w1] => destruct (spawnLoop_effects sh k 0 w1) as [S1 [S2 _]]
  end.
  split; [eapply onlyPoolChanged_trans; eassumption|].
  rewrite S2. exact R2.
Qed.

(** X8.  Recreating the creatures.  [createShadowCreatures] pushes the
    bundle of every creature of the old pool on the cleanup queue, in pool
    order and behind the entries already queued, and disposes of nothing
    itself; the new pool holds only creatures created by the call; and
    when the stored map has no walls the new pool is empty. *)
Theorem recreation_queues_the_old_pool (w : World) :
  cleanupQueueRef (createShadowCreatures w) =
    cleanupQueueRef w ++ map bundleOf (creaturesRef w) /\
  disposed (createShadowCreatures w) = disposed w /\
  Forall (fun creature => exists n pos, creature = freshCreature n pos)
         (creaturesRef (createShadowCreatures w)) /\
  ((match mapDataRef w with Some data => walls data | None => None end) = None ->
   creaturesRef (createShadowCreatures w) = []).
Proof.
  destruct (createShadowCreatures_effects w) as [(_ & _ & _ & _ & _ & _ & Hd & _) Hq].
  split; [exact Hq|]. split; [exact Hd|]. split.
  - apply createShadowCreatures_Forall. intros grid n pos _ _. now exists n, pos.
  - intro Hnone. unfold createShadowCreatures. cbv zeta.
    cbn [mapDataRef set_creatures]. rewrite retire_all_mapData.
    destruct (mapDataRef w) as [[[grid|]]|]; [discriminate| |]; reflexivity.
Qed.

Lemma createTorchAtPosition_only (w : World) (pos : Q * Q) :
  onlySceneChanged w (createTorchAtPosition w pos).
Proof.
  unfold createTorchAtPosition. cbv zeta.
  repeat (eapply onlySceneChanged_trans; [|apply scene_add_only]).
  apply set_nextId_only.
Qed.

Lemma fold_torches_only (positions : list (Q * Q)) (w : World) :
  onlySceneChanged w (fold_left createTorchAtPosition positions w).
Proof.
  revert w. induction positions as [|pos positions IH]; intro w; [apply onlySceneChanged_refl|].
  cbn [fold_left]. eapply onlySceneChanged_trans; [apply createTorchAtPosition_only|apply IH].
Qed.

Lemma add_object_only (k m : nat) (w : World) :
  onlySceneChanged w (scene_add k (set_nextId m w)).
Proof. eapply onlySceneChanged_trans; [apply set_nextId_only|apply scene_add_only]. Qed.

(** What [createDungeonEnvironment] stores for a map with walls. *)
Lemma createDungeonEnvironment_spec (w : World) (grid : Grid) :
  let w1 := createDungeonEnvironment (Some (mkMapData (Some grid))) w in
  mapDataRef w1 = Some (mkMapData (Some grid)) /\
  wallsRef w1 = collisionBoxesOf grid /\
  playerRef w1 =
    match firstOpenCell grid 0 with
    | Some (row, col) => mkPlayer (cellCentreX grid col) (cellCentreZ grid row) Math_PI
    | None => playerRef w
    end /\
  keysRef w1 = keysRef w /\ projectilesRef w1 = projectilesRef w /\
  creaturesRef w1 = creaturesRef w /\ cleanupQueueRef w1 = cleanupQueueRef w /\
  disposed w1 = disposed w.
Proof.
  unfold createDungeonEnvironment. cbv zeta.
  match goal with
  | |- context [createWalls ?md ?w0] =>
    destruct (createWalls_spec w0 grid) as (C0 & C1 & C2 & C3 & C4 & C5 & C6 & C7 & C8);
      assert (H0 : onlySceneChanged (set_mapData md w) w0)
        by (eapply onlySceneChanged_trans; apply add_object_only);
      destruct (createWalls md w0) as [wallCollisions w2]
  end.
  cbn [fst snd] in *.
  destruct H0 as (A1 & A2 & A3 & A4 & A5 & A6 & A7 & A8 & A9 & A10).
  destruct (add_object_only (nextId (set_walls wallCollisions w2) + 2)
                            (nextId (set_walls wallCollisions w2) + 3)
                            (set_walls wallCollisions w2))
    as (D1 & D2 & D3 & D4 & D5 & D6 & D7 & D8 & D9 & D10).
  unfold createDoors. cbv zeta.
  rewrite D1, D2, D4, D5, D6, D7, D8, D9.
  cbn [mapDataRef wallsRef playerRef keysRef projectilesRef creaturesRef cleanupQueueRef
       disposed set_walls].
  rewrite C0, C1, C2, C4, C5, C6, C7, C8, A1, A2, A5, A6, A7, A8, A9.
  now repeat split.
Qed.

(** Mounting the scene for a map with walls ends in a call of
    [createShadowCreatures] on a world that holds the map, its wall boxes
    and the player at the spawn point. *)
Lemma mountScene_shape (w : World) (grid : Grid) :
  exists w',
    mountScene (Some (mkMapData (Some grid))) w = createShadowCreatures w' /\
    mapDataRef w' = Some (mkMapData (Some grid)) /\
    wallsRef w' = collisionBoxesOf grid /\
    playerRef w' =
      match firstOpenCell grid 0 with
      | Some (row, col) => mkPlayer (cellCentreX grid col) (cellCentreZ grid row) Math_PI
      | None => playerRef w
      end /\
    keysRef w' = keysRef w /\ projectilesRef w' = projectilesRef w /\
    creaturesRef w' = creaturesRef w /\ cleanupQueueRef w' = cleanupQueueRef w /\
    disposed w' = disposed w.
Proof.
  unfold mountScene. cbv zeta.
  set (w0 := set_camera _ (set_scene (Some []) w)).
  destruct (createDungeonEnvironment_spec w0 grid) as (E1 & E2 & E3 & E4 & E5 & E6 & E7 & E8).
  set (w1 := createDungeonEnvironment (Some (mkMapData (Some grid))) w0) in *.
  set (w2 := scene_add (nextId w1) (set_nextId (nextId w1 + 1) w1)).
  destruct (add_object_only (nextId w1) (nextId w1 + 1) w1)
    as (A1 & A2 & A3 & A4 & A5 & A6 & A7 & A8 & A9 & A10).
  fold w2 in A1, A2, A3, A4, A5, A6, A7, A8, A9.
  unfold createTorchLights. cbv zeta. cbn [mapDataRef set_nextId].
  rewrite A7, E1. cbn [walls].
  match goal with |- context [createShadowCreatures ?w3] => exists w3 end.
  destruct (fold_torches_only (selectedPositionsOf (torchPositionsOf grid))
                              (set_nextId (nextId w2 + 3) w2))
    as (T1 & T2 & T3 & T4 & T5 & T6 & T7 & T8 & T9 & T10).
  rewrite T1, T2, T4, T5, T6, T7, T8, T9.
  cbn [mapDataRef wallsRef playerRef keysRef projectilesRef creaturesRef cleanupQueueRef
       disposed set_nextId].
  rewrite A1, A2, A4, A5, A6, A7, A8, A9, E1, E2, E3, E4, E5, E6, E7, E8.
  now repeat split.
Qed.

(** X9.  Mounting the scene for a map with walls leaves a consistent
    world: the map and one wall box per wall cell are stored; the player
    stands at the centre of the first open cell (or stays put when there
    is none); the pool holds min(numCreatures, open cells) creatures, each
    on an open cell, with its parts around its body and its collision box
    clear of every wall box; the creatures of the pool of before are
    queued for cleanup and nothing is disposed of; keys and projectiles
    are kept. *)
Theorem mount_builds_a_consistent_world (w : World) (grid : Grid) :
  let w1 := mountScene (Some (mkMapData (Some grid))) w in
  mapDataRef w1 = Some (mkMapData (Some grid)) /\
  wallsRef w1 = collisionBoxesOf grid /\
  playerRef w1 =
    match firstOpenCell grid 0 with
    | Some (row, col) => mkPlayer (cellCentreX grid col) (cellCentreZ grid row) Math_PI
    | None => playerRef w
    end /\
  List.length (creaturesRef w1) =
    Nat.min (numCreaturesOf (openCellCount grid)) (openCellCount grid) /\
  Forall (fun creature =>
            onFloor grid creature /\ tracksBody creature /\ clearOfWalls (wallsRef w1) creature)
         (creaturesRef w1) /\
  cleanupQueueRef w1 = cleanupQueueRef w ++ map bundleOf (creaturesRef w) /\
  disposed w1 = disposed w /\ projectilesRef w1 = projectilesRef w /\ keysRef w1 = keysRef w.
Proof.
  cbv zeta. destruct (mountScene_shape w grid) as (w' & -> & M1 & M2 & M3 & M4 & M5 & M6 & M7 & M8).
  destruct (createShadowCreatures_effects w') as [(P1 & P2 & _ & P4 & P5 & P6 & P7 & _) Hq].
  rewrite P1, P2, P4, P5, P6, P7, Hq, M1, M2, M3, M4, M5, M6, M7, M8.
  repeat split; try reflexivity.
  - now apply createShadowCreatures_count.
  - apply Forall_forall. intros creature Hin.
    pose proof (created_on_floor w' grid M1) as Hfloor.
    rewrite Forall_forall in Hfloor.
    assert (Hfresh : Forall (fun creature =>
                               tracksBody creature /\
                               clearOfWalls (collisionBoxesOf grid) creature)
                            (creaturesRef (createShadowCreatures w'))).
    { apply createShadowCreatures_Forall. intros g n pos Hg Hpos.
      assert (g = grid) by congruence. subst g. split.
      - apply freshCreature_tracksBody.
      - apply freshCreature_clearOfWalls.
        eapply Permutation_in; [|exact Hpos]. apply Permutation_sym, shuffle_permutes. }
    rewrite Forall_forall in Hfresh.
    split; [now apply Hfloor|now apply Hfresh].
Qed.

Lemma createWalls_no_walls (w : World) :
  createWalls (Some (mkMapData None)) w = ([], set_nextId (nextId w + 1) w).
Proof. reflexivity. Qed.

Lemma set_walls_only (wallBoxes : list Box3) (w0 w : World) :
  onlySceneChanged w0 w -> onlySceneChanged (set_walls wallBoxes w0) (set_walls wallBoxes w).
Proof. intros (A1 & A2 & A3 & A4 & A5 & A6 & A7 & A8 & A9 & A10). now repeat split. Qed.

Lemma createDungeonEnvironment_no_walls (w : World) :
  onlySceneChanged (set_walls [] (set_mapData (Some (mkMapData None)) w))
                   (createDungeonEnvironment (Some (mkMapData None)) w).
Proof.
  unfold createDungeonEnvironment. cbv zeta.
  rewrite createWalls_no_walls.
  eapply onlySceneChanged_trans; [|apply add_object_only].
  apply set_walls_only.
  eapply onlySceneChanged_trans; [|apply set_nextId_only].
  eapply onlySceneChanged_trans; apply add_object_only.
Qed.

Lemma createTorchLights_no_walls (w : World) :
  mapDataRef w = Some (mkMapData None) -> onlySceneChanged w (createTorchLights w).
Proof.
  intro Hmap. unfold createTorchLights. cbv zeta. cbn [mapDataRef set_nextId].
  rewrite Hmap. cbn [walls].
  eapply onlySceneChanged_trans; [apply set_nextId_only|apply fold_torches_only].
Qed.

(** X10.  A map without walls.  When the map data carries no [walls],
    mounting the scene stores no wall box and leaves the player, the pool
    and the cleanup queue as they were: the creatures of an earlier map
    are neither retired nor replaced.  They still block the player, since
    [checkCollision] tests their boxes, while [updateCreatures] no longer
    touches them. *)
Theorem map_without_walls_keeps_the_pool (w : World) :
  let w1 := mountScene (Some (mkMapData None)) w in
  wallsRef w1 = [] /\ playerRef w1 = playerRef w /\
  creaturesRef w1 = creaturesRef w /\ cleanupQueueRef w1 = cleanupQueueRef w /\
  disposed w1 = disposed w /\
  updateCreatures w1 = w1 /\
  (forall x z,
      checkCollision w1 x z =
      existsb (fun creature => intersectsBox (playerBox x z) (collisionBox creature))
              (creaturesRef w)).
Proof.
  cbv zeta.
  assert (H : onlySceneChanged
                (set_walls [] (set_mapData (Some (mkMapData None))
                   (set_camera (Some (mkCamera (mkVector3 0 1.6 0) (mkVector3 0 0 0)))
                               (set_scene (Some []) w))))
                (mountScene (Some (mkMapData None)) w)).
  { unfold mountScene. cbv zeta.
    set (w0 := set_camera _ (set_scene (Some []) w)).
    pose proof (createDungeonEnvironment_no_walls w0) as H1.
    set (w1 := createDungeonEnvironment (Some (mkMapData None)) w0) in *.
    pose proof (add_object_only (nextId w1) (nextId w1 + 1) w1) as H2.
    set (w2 := scene_add (nextId w1) (set_nextId (nextId w1 + 1) w1)) in *.
    assert (H3 : onlySceneChanged w2 (createTorchLights w2)).
    { apply createTorchLights_no_walls.
      destruct H2 as (_ & _ & _ & _ & _ & _ & A7 & _ & _).
      destruct H1 as (_ & _ & _ & _ & _ & _ & B7 & _ & _).
      rewrite A7, B7. reflexivity. }
    eapply onlySceneChanged_trans; [|exact H3].
    eapply onlySceneChanged_trans; [|exact H2].
    exact H1. }
  destruct H as (A1 & A2 & A3 & A4 & A5 & A6 & A7 & A8 & A9 & A10).
  cbn [playerRef keysRef mouseRef wallsRef projectilesRef creaturesRef mapDataRef
       cleanupQueueRef disposed set_walls set_mapData set_camera set_scene]
    in A1, A2, A3, A4, A5, A6, A7, A8, A9.
  split; [exact A4|]. split; [exact A1|]. split; [exact A6|]. split; [exact A8|].
  split; [exact A9|]. split.
  - unfold updateCreatures. rewrite A7. reflexivity.
  - intros x z. unfold checkCollision. rewrite A4, A6. cbn [existsb].
    now destruct (existsb _ (creaturesRef w)).
Qed.

(** ** Further properties: a creature on the player *)

Lemma checkCollision_on_creature (w : World) (creature : Creature) (x z : Q) :
  In creature (creaturesRef w) ->
  intersectsBox (playerBox x z) (collisionBox creature) = true ->
  checkCollision w x z = true.
Proof.
  intros Hin Hhit. unfold checkCollision.
  destruct (existsb _ (wallsRef w)); [reflexivity|].
  assert (E : existsb (fun creature => intersectsBox (playerBox x z) (collisionBox creature))
                      (creaturesRef w) = true)
    by (apply existsb_exists; eauto).
  now rewrite E.
Qed.

Lemma near_creature_overlaps (creature : Creature) (x z x' z' : Q) :
  tracksBody creature -> standsOver creature x z ->
  x - 0.08 <= x' -> x' <= x + 0.08 -> z - 0.08 <= z' -> z' <= z + 0.08 ->
  intersectsBox (playerBox x' z') (collisionBox creature) = true.
Proof.
  intros Htracks [[Hx1 Hx2] [Hz1 Hz2]] Ha Hb Hc Hd.
  destruct Htracks as ((B1 & B2 & B3) & (B4 & B5 & B6) & _).
  apply intersectsBox_true. unfold playerBox. cbn [bmin bmax vx vy vz].
  repeat split; lra.
Qed.

Lemma tryKey_pinned (w0 : World) (held : bool) (candidate : Player -> Q * Q)
      (st : World * bool) (creature : Creature) :
  In creature (creaturesRef w0) ->
  (forall p, px p = px (playerRef w0) -> py p = py (playerRef w0) ->
             intersectsBox (playerBox (fst (candidate p)) (snd (candidate p)))
                           (collisionBox creature) = true) ->
  pinned w0 st -> pinned w0 (tryKey held candidate st).
Proof.
  intros Hin Hcand (Hc & Hx & Hz). unfold tryKey.
  destruct held; [|split; [|split]; assumption].
  destruct st as [w isMoving]. cbn [fst] in *. unfold moveTo.
  rewrite (checkCollision_on_creature w creature);
    [cbn [negb fst]; split; [|split]; assumption|now rewrite Hc|now apply Hcand].
Qed.

(** A frame of movement when a creature stands over the player. *)
Lemma handleMovement_pinned (w : World) (creature : Creature) :
  withinUnit sin -> withinUnit cos ->
  In creature (creaturesRef w) -> tracksBody creature ->
  standsOver creature (px (playerRef w)) (py (playerRef w)) ->
  px (playerRef (handleMovement w)) = px (playerRef w) /\
  py (playerRef (handleMovement w)) = py (playerRef w).
Proof.
  intros Hsin Hcos Hin Htracks Hover. unfold handleMovement.
  destruct (cameraRef w) as [camera|]; [|split; reflexivity].
  cbv zeta.
  match goal with
  | |- context [let (w1, isMoving) := ?X in _] => set (blocks := X)
  end.
  assert (Hpin : pinned w blocks).
  { subst blocks.
    set (ms := baseSpeed * (if has "ShiftLeft" (keysRef w) || has "ShiftRight" (keysRef w)
                            then sprintMultiplier else 1)).
    assert (Hms : 0 <= ms /\ ms <= 0.08)
      by (subst ms; destruct (has "ShiftLeft" (keysRef w) || has "ShiftRight" (keysRef w));
          unfold baseSpeed, sprintMultiplier; lra).
    clearbody ms.
    assert (Hstep : forall p : Player,
               px p = px (playerRef w) -> py p = py (playerRef w) ->
               forall candidate,
                 In candidate [forwardOf ms; backwardOf ms; leftOf ms; rightOf ms] ->
                 intersectsBox (playerBox (fst (candidate p)) (snd (candidate p)))
                               (collisionBox creature) = true).
    { intros p Hpx Hpz candidate Hcand.
      destruct (Hsin (angle p)) as [Hs1 Hs2]. destruct (Hcos (angle p)) as [Hc1 Hc2].
      destruct Hms as [Hm1 Hm2].
      apply (near_creature_overlaps creature (px (playerRef w)) (py (playerRef w)));
        try assumption; rewrite <- ?Hpx, <- ?Hpz;
        cbn [In] in Hcand;
        destruct Hcand as [<- | [<- | [<- | [<- | []]]]];
        unfold forwardOf, backwardOf, leftOf, rightOf; cbn [fst snd]; nra. }
    do 6 (apply tryKey_pinned with (creature := creature);
            [exact Hin
            |intros p Hpx Hpz; apply (Hstep p Hpx Hpz); cbn [In];
             repeat first [left; reflexivity | right]
            |]).
    destruct (negb (isLocked (mouseRef w))); [|split; [|split]; reflexivity].
    destruct (has "ArrowLeft" (keysRef w) || has "KeyA" (keysRef w));
      destruct (has "ArrowRight" (keysRef w) || has "KeyD" (keysRef w));
      (split; [|split]; reflexivity). }
  destruct blocks as [w6 isMoving]. destruct Hpin as (_ & Hx & Hz). cbn [fst] in Hx, Hz.
  split; destruct isMoving; assumption.
Qed.

(** X11.  A creature standing over the player pins it.  With sines and
    cosines between -1 and 1, if the pool holds a creature whose parts are
    around its body and whose body is within 0.62 of the player's position
    on both axes, then a frame of movement leaves the player's position
    unchanged, whatever keys are held: every candidate is at most 0.08
    away and is rejected by the collision test. *)
Theorem creature_over_the_player_pins_it (w : World) (creature : Creature) :
  withinUnit sin -> withinUnit cos ->
  In creature (creaturesRef w) -> tracksBody creature ->
  standsOver creature (px (playerRef w)) (py (playerRef w)) ->
  px (playerRef (handleMovement w)) = px (playerRef w) /\
  py (playerRef (handleMovement w)) = py (playerRef w).
Proof. exact (handleMovement_pinned w creature). Qed.

Lemma spawnLoop_covers (shuffledSpaces : list (Q * Q)) (remaining i j : nat) (pos : Q * Q)
      (w : World) :
  (i <= j < i + remaining)%nat -> nth_error shuffledSpaces j = Some pos ->
  exists n, In (freshCreature n pos) (creaturesRef (spawnLoop shuffledSpaces i remaining w)).
Proof.
  revert i w. induction remaining as [|remaining IH]; intros i w Hj Hpos; [lia|].
  cbn [spawnLoop]. destruct (Nat.eq_dec i j) as [->|Hne].
  - rewrite Hpos. exists (nextId w).
    destruct (spawnLoop_effects shuffledSpaces remaining (S j) (spawnCreature pos w))
      as [_ [_ Hincl]].
    apply Hincl. rewrite spawnCreature_fresh. apply in_or_app. right. now left.
  - apply IH; [lia|assumption].
Qed.

Lemma createShadowCreatures_covers (w : World) (grid : Grid) (j : nat) (pos : Q * Q) :
  mapDataRef w = Some (mkMapData (Some grid)) ->
  (j < numCreaturesOf (openCellCount grid))%nat ->
  nth_error (shuffle (openSpacesOf grid)) j = Some pos ->
  exists n, In (freshCreature n pos) (creaturesRef (createShadowCreatures w)).
Proof.
  intros Hmap Hj Hpos. unfold createShadowCreatures. cbv zeta.
  cbn [mapDataRef set_creatures]. rewrite retire_all_mapData, Hmap. cbn [walls].
  rewrite openSpaces_length. apply spawnLoop_covers with (j := j); [lia|exact Hpos].
Qed.

(** X12.  A creature created on the spawn cell pins the player.  After the
    scene is mounted for a map with an open cell, if the shuffle put the
    spawn cell among the first numCreatures open spaces, a frame of
    movement leaves the player at the spawn point whatever keys are held.
    On a map with at most 3 open cells this is always so, since every
    open cell receives a creature. *)
Theorem creature_on_the_spawn_cell_pins_the_player
        (w : World) (grid : Grid) (row col : nat) (keys : list string) :
  withinUnit sin -> withinUnit cos ->
  firstOpenCell grid 0 = Some (row, col) ->
  let w1 := set_keys keys (mountScene (Some (mkMapData (Some grid))) w) in
  (forall j,
      (j < numCreaturesOf (openCellCount grid))%nat ->
      nth_error (shuffle (openSpacesOf grid)) j =
        Some (cellCentreX grid col, cellCentreZ grid row) ->
      px (playerRef (handleMovement w1)) = cellCentreX grid col /\
      py (playerRef (handleMovement w1)) = cellCentreZ grid row) /\
  ((openCellCount grid <= 3)%nat ->
   px (playerRef (handleMovement w1)) = cellCentreX grid col /\
   py (playerRef (handleMovement w1)) = cellCentreZ grid row).
Proof.
  intros Hsin Hcos Hfirst w1.
  destruct (mountScene_shape w grid) as (w' & Hm & M1 & M2 & M3 & _).
  destruct (createShadowCreatures_effects w') as [(P1 & _) _].
  assert (Hplayer : playerRef w1 = mkPlayer (cellCentreX grid col) (cellCentreZ grid row) Math_PI).
  { subst w1. cbn [playerRef set_keys]. now rewrite Hm, P1, M3, Hfirst. }
  assert (Hcore : forall j,
             (j < numCreaturesOf (openCellCount grid))%nat ->
             nth_error (shuffle (openSpacesOf grid)) j =
               Some (cellCentreX grid col, cellCentreZ grid row) ->
             px (playerRef (handleMovement w1)) = cellCentreX grid col /\
             py (playerRef (handleMovement w1)) = cellCentreZ grid row).
  { intros j Hj Hnth.
    destruct (createShadowCreatures_covers w' grid j _ M1 Hj Hnth) as [n Hin].
    destruct (handleMovement_pinned w1 (freshCreature n (cellCentreX grid col, cellCentreZ grid row)))
      as [Hx Hz]; try assumption.
    - subst w1. cbn [creaturesRef set_keys]. now rewrite Hm.
    - apply freshCreature_tracksBody.
    - rewrite Hplayer. unfold standsOver, freshCreature.
      cbn [body position vx vz px py]. repeat split; lra.
    - rewrite Hplayer in Hx, Hz. now split. }
  split; [exact Hcore|].
  intro Hsmall. pose proof (firstOpenCell_head grid) as Hhead. rewrite Hfirst in Hhead.
  destruct Hhead as [rest Hhead].
  assert (Hin : In (cellCentreX grid col, cellCentreZ grid row) (shuffle (openSpacesOf grid))).
  { eapply Permutation_in; [apply shuffle_permutes|]. rewrite Hhead. now left. }
  destruct (In_nth_error _ _ Hin) as [j Hnth].
  apply (Hcore j); [|exact Hnth].
  assert (Hlt : (j < List.length (shuffle (openSpacesOf grid)))%nat)
    by (apply nth_error_Some; congruence).
  rewrite <- (Permutation_length (shuffle_permutes (openSpacesOf grid))), openSpaces_length in Hlt.
  unfold numCreaturesOf. lia.
Qed.

(** ** Further properties: the camera and the player *)

Lemma samePose_trans (w0 w1 w2 : World) : samePose w0 w1 -> samePose w1 w2 -> samePose w0 w2.
Proof. intros [A1 A2] [B1 B2]. split; congruence. Qed.

Lemma cameraFollows_samePose (w0 w : World) :
  samePose w0 w -> cameraFollows w0 -> cameraFollows w.
Proof. intros [A1 A2]. unfold cameraFollows. now rewrite A1, A2. Qed.

Lemma onlySceneChanged_pose (w0 w : World) : onlySceneChanged w0 w -> samePose w0 w.
Proof. intros (A1 & _ & _ & _ & _ & _ & _ & _ & _ & A10). now split. Qed.

Lemma onlyPoolChanged_pose (w0 w : World) : onlyPoolChanged w0 w -> samePose w0 w.
Proof. intros (A1 & _ & _ & _ & _ & _ & _ & A8). now split. Qed.

Lemma destroyCreature_pose (i : nat) (creature : Creature) (w : World) :
  samePose w (destroyCreature i creature w).
Proof.
  unfold destroyCreature. cbv zeta.
  destruct (onlySceneChanged_pose _ _
              (onlySceneChanged_trans _ _ _
                 (onlySceneChanged_trans _ _ _
                    (onlySceneChanged_trans _ _ _
                       (scene_remove_only (mesh_id (body creature)) w)
                       (scene_remove_only (mesh_id (leftEye creature)) _))
                    (scene_remove_only (mesh_id (rightEye creature)) _))
                 (scene_remove_only (light_id (light creature)) _)))
    as [A1 A2].
  split; cbn [playerRef cameraRef set_creatures set_cleanupQueue]; assumption.
Qed.

Lemma scanCreatures_pose (box : Box3) (n : nat) (w : World) :
  samePose w (snd (scanCreatures box n w)).
Proof.
  induction n as [|n IH]; [now split|]. cbn [scanCreatures].
  destruct (nth_error (creaturesRef w) n) as [creature|]; [|now split].
  destruct (intersectsBox box (collisionBox creature)); [|exact IH].
  apply destroyCreature_pose.
Qed.

Lemma stepProjectile_pose (projectile : Projectile) (w : World) :
  samePose w (snd (stepProjectile projectile w)).
Proof.
  pose proof (stepProjectile_unfold projectile w) as E. cbv zeta in E. rewrite E.
  pose proof (scanCreatures_pose (setFromObject (mesh (advance projectile)))
                (List.length (creaturesRef w)) w) as H.
  destruct (_ || _ || _); cbn [snd]; [|exact H].
  eapply samePose_trans; [exact H|].
  destruct (onlySceneChanged_pose _ _
              (scene_remove_only (mesh_id (mesh (advance projectile)))
                 (snd (scanCreatures (setFromObject (mesh (advance projectile)))
                                     (List.length (creaturesRef w)) w)))) as [A1 A2].
  split; cbn [playerRef cameraRef set_disposed]; assumption.
Qed.

Lemma filterProjectiles_pose (ps : list Projectile) (w : World) :
  samePose w (snd (filterProjectiles ps w)).
Proof.
  revert w. induction ps as [|p ps IH]; intro w; [now split|].
  cbn [filterProjectiles]. pose proof (stepProjectile_pose p w) as H1.
  destruct (stepProjectile p w) as [[keep p'] w1]. cbn [snd] in H1.
  specialize (IH w1). destruct (filterProjectiles ps w1) as [kept w2]. cbn [snd] in *.
  eapply samePose_trans; eassumption.
Qed.

Lemma updateProjectiles_pose (w : World) : samePose w (updateProjectiles w).
Proof.
  unfold updateProjectiles. destruct (sceneRef w); [|now split].
  pose proof (filterProjectiles_pose (projectilesRef w) w) as H.
  destruct (filterProjectiles (projectilesRef w) w) as [kept w1]. exact H.
Qed.

Lemma updateCreatures_pose (w : World) : samePose w (updateCreatures w).
Proof. unfold updateCreatures. destruct (mapDataRef w) as [[[grid|]]|]; now split. Qed.

Lemma processCleanupQueue_pose (w : World) : samePose w (processCleanupQueue w).
Proof. unfold processCleanupQueue. destruct (cleanupQueueRef w); now split. Qed.

Lemma shoot_pose (w : World) : samePose w (shoot w).
Proof.
  unfold shoot. destruct (sceneRef w) as [children|] eqn:Hs; [|now split].
  destruct (cameraRef w) as [camera|] eqn:Hc; [|now split].
  cbv zeta. unfold scene_add. cbn [sceneRef set_nextId]. rewrite Hs.
  split; [reflexivity|]. cbn. now rewrite Hc.
Qed.

Lemma tryKey_cameraFollows (held : bool) (candidate : Player -> Q * Q) (st : World * bool) :
  cameraFollows (fst st) -> cameraFollows (fst (tryKey held candidate st)).
Proof.
  intro H. unfold tryKey. destruct held; [|exact H].
  destruct st as [w isMoving]. cbn [fst] in *. unfold moveTo.
  destruct (checkCollision w _ _); [exact H|]. cbn [negb fst].
  unfold cameraFollows in *. cbn [cameraRef playerRef set_camera set_player].
  destruct (cameraRef w) as [camera|]; [|exact I].
  cbn [option_map cam_position cam_rotation vx vz px py angle].
  destruct H as (_ & _ & H). now repeat split.
Qed.

Lemma turn_cameraFollows (delta : Q) (w : World) :
  cameraFollows w -> cameraFollows (turn delta w).
Proof.
  unfold cameraFollows, turn. cbv zeta. cbn [cameraRef playerRef set_camera set_player].
  destruct (cameraRef w) as [camera|]; [|intro; exact I].
  cbn [option_map cam_position cam_rotation vx vy vz px py angle].
  intros (H1 & H2 & _). now repeat split.
Qed.

Lemma handleMovement_cameraFollows (w : World) :
  cameraFollows w -> cameraFollows (handleMovement w).
Proof.
  intro H. unfold handleMovement.
  destruct (cameraRef w) as [camera|] eqn:Hcam; [|exact H].
  cbv zeta.
  match goal with
  | |- context [let (w1, isMoving) := ?X in _] => set (blocks := X)
  end.
  assert (Hblocks : cameraFollows (fst blocks)).
  { subst blocks. do 6 apply tryKey_cameraFollows. cbn [fst].
    destruct (negb (isLocked (mouseRef w))); [|exact H].
    destruct (has "ArrowLeft" (keysRef w) || has "KeyA" (keysRef w));
      destruct (has "ArrowRight" (keysRef w) || has "KeyD" (keysRef w));
      repeat apply turn_cameraFollows; exact H. }
  destruct blocks as [w6 isMoving]. cbn [fst] in Hblocks.
  unfold cameraFollows in *.
  destruct isMoving; cbn [cameraRef playerRef set_camera set_bob];
    (destruct (cameraRef w6) as [camera6|]; [|exact I]);
    cbn [option_map cam_position cam_rotation vx vz]; exact Hblocks.
Qed.

Lemma animate_cameraFollows (w : World) : cameraFollows w -> cameraFollows (animate w).
Proof.
  intro H. unfold animate. cbv zeta.
  eapply cameraFollows_samePose; [apply processCleanupQueue_pose|].
  eapply cameraFollows_samePose; [apply updateCreatures_pose|].
  eapply cameraFollows_samePose; [apply updateProjectiles_pose|].
  now apply handleMovement_cameraFollows.
Qed.

Lemma handleMouseMove_cameraFollows (movementX movementY : Q) (w : World) :
  cameraFollows w -> cameraFollows (handleMouseMove movementX movementY w).
Proof.
  intro H. unfold handleMouseMove. destruct (negb (isLocked (mouseRef w))); [exact H|].
  cbv zeta. unfold cameraFollows in *.
  cbn [cameraRef playerRef set_camera set_mouse set_player].
  destruct (cameraRef w) as [camera|]; [|exact I].
  cbn [option_map cam_position cam_rotation vx vy vz px py angle].
  destruct H as (H1 & H2 & _). now repeat split.
Qed.

Lemma placeSpawn_cameraFollows (grid : Grid) (w : World) :
  firstOpenCell grid 0 <> None -> cameraFollows (placeSpawn grid w).
Proof.
  intro Hopen. unfold placeSpawn.
  destruct (firstOpenCell grid 0) as [[row col]|]; [|congruence].
  cbv zeta. unfold cameraFollows. cbn [cameraRef playerRef set_camera set_player].
  destruct (cameraRef w) as [camera|]; [|exact I].
  cbn [option_map cam_position cam_rotation vx vy vz px py angle]. now repeat split.
Qed.

Lemma createWalls_cameraFollows (w : World) (grid : Grid) :
  firstOpenCell grid 0 <> None ->
  cameraFollows (snd (createWalls (Some (mkMapData (Some grid))) w)).
Proof.
  intro Hopen. unfold createWalls. cbv zeta. cbn [walls].
  match goal with
  | |- context [fold_left addWall _ ([], ?w1)] =>
    destruct (addWall_fold (wallPositionsOf grid) [] w1) as [_ [Ho _]]
  end.
  eapply cameraFollows_samePose; [apply onlySceneChanged_pose; exact Ho|].
  now apply placeSpawn_cameraFollows.
Qed.

Lemma createDungeonEnvironment_cameraFollows (w : World) (grid : Grid) :
  firstOpenCell grid 0 <> None ->
  cameraFollows (createDungeonEnvironment (Some (mkMapData (Some grid))) w).
Proof.
  intro Hopen. unfold createDungeonEnvironment. cbv zeta.
  match goal with
  | |- context [createWalls ?md ?w0] =>
    pose proof (createWalls_cameraFollows w0 grid Hopen) as Hc;
      destruct (createWalls md w0) as [wallCollisions w2]
  end.
  cbn [snd] in Hc. unfold createDoors. cbv zeta.
  eapply cameraFollows_samePose; [apply onlySceneChanged_pose, add_object_only|].
  exact Hc.
Qed.

Lemma createTorchLights_pool (w : World) (grid : Grid) :
  mapDataRef w = Some (mkMapData (Some grid)) -> onlyPoolChanged w (createTorchLights w).
Proof.
  intro Hmap. unfold createTorchLights. cbv zeta. cbn [mapDataRef set_nextId].
  rewrite Hmap. cbn [walls].
  eapply onlyPoolChanged_trans; [|apply createShadowCreatures_effects].
  apply onlySceneChanged_pool.
  eapply onlySceneChanged_trans; [apply set_nextId_only|apply fold_torches_only].
Qed.

Lemma mountScene_cameraFollows (w : World) (grid : Grid) :
  firstOpenCell grid 0 <> None ->
  cameraFollows (mountScene (Some (mkMapData (Some grid))) w).
Proof.
  intro Hopen. unfold mountScene. cbv zeta.
  set (w0 := set_camera _ (set_scene (Some []) w)).
  pose proof (createDungeonEnvironment_cameraFollows w0 grid Hopen) as Hc.
  destruct (createDungeonEnvironment_spec w0 grid) as (E1 & _).
  set (w1 := createDungeonEnvironment (Some (mkMapData (Some grid))) w0) in *.
  pose proof (add_object_only (nextId w1) (nextId w1 + 1) w1) as H2.
  set (w2 := scene_add (nextId w1) (set_nextId (nextId w1 + 1) w1)) in *.
  eapply cameraFollows_samePose.
  - apply onlyPoolChanged_pose, (createTorchLights_pool w2 grid).
    destruct H2 as (_ & _ & _ & _ & _ & _ & A7 & _). now rewrite A7.
  - eapply cameraFollows_samePose; [apply onlySceneChanged_pose; exact H2|exact Hc].
Qed.

(** X13.  The camera follows the player.  Mounting the scene for a map
    with an open cell puts the camera at the player's position, looking
    along the player's angle; a frame, a mouse move, a key press or
    release and a click all keep it so. *)
Theorem camera_follows_the_player :
  (forall (grid : Grid) (w : World),
      firstOpenCell grid 0 <> None ->
      cameraFollows (mountScene (Some (mkMapData (Some grid))) w)) /\
  (forall w : World, cameraFollows w -> cameraFollows (animate w)) /\
  (forall (movementX movementY : Q) (w : World),
      cameraFollows w -> cameraFollows (handleMouseMove movementX movementY w)) /\
  (forall (code : string) (w : World),
      cameraFollows w ->
      cameraFollows (handleKeyDown code w) /\ cameraFollows (handleKeyUp code w)) /\
  (forall (inventoryVisible : bool) (w : World),
      cameraFollows w -> cameraFollows (fst (handleClick inventoryVisible w))).
Proof.
  split; [intros grid w; apply mountScene_cameraFollows|].
  split; [exact animate_cameraFollows|].
  split; [exact handleMouseMove_cameraFollows|].
  split.
  - intros code w H. split; [|exact H].
    unfold handleKeyDown. cbv zeta.
    destruct (String.eqb code "Space"); [|exact H].
    eapply cameraFollows_samePose; [apply shoot_pose|exact H].
  - intros inventoryVisible w H. unfold handleClick.
    destruct (isLocked (mouseRef w)); cbn [fst].
    + eapply cameraFollows_samePose; [apply shoot_pose|exact H].
    + now destruct (negb inventoryVisible).
Qed.

(** ** Further properties: the input handlers *)

Lemma Math_PI_pos : 0 < Math_PI.
Proof. unfold Math_PI, Qlt. cbn. lia. Qed.

Lemma clamp_within (lo hi y : Q) :
  lo <= hi -> lo <= Math_max lo (Math_min hi y) /\ Math_max lo (Math_min hi y) <= hi.
Proof.
  intro Hlohi. unfold Math_max, Math_min.
  destruct (Qle_bool hi y) eqn:E1.
  - destruct (Qle_bool lo hi) eqn:E2; split; lra.
  - assert (H1 : ~ hi <= y) by (intro H; apply Qle_bool_iff in H; congruence).
    destruct (Qle_bool lo y) eqn:E2.
    + apply Qle_bool_iff in E2. split; lra.
    + split; lra.
Qed.

(** X14.  Mouse look.  While the pointer is not locked a mouse move
    changes nothing.  While it is locked, the pitch kept in [mouseRef]
    stays within [-Math.PI / 3] and [Math.PI / 3] whatever the movement,
    the camera takes that pitch and the player's new angle, and the
    player's position is not touched. *)
Theorem mouse_look_is_clamped (movementX movementY : Q) (w : World) :
  (isLocked (mouseRef w) = false -> handleMouseMove movementX movementY w = w) /\
  (isLocked (mouseRef w) = true ->
   let w1 := handleMouseMove movementX movementY w in
   (- Math_PI / 3 <= mouse_y (mouseRef w1) /\ mouse_y (mouseRef w1) <= Math_PI / 3) /\
   angle (playerRef w1) = angle (playerRef w) - movementX * sensitivity (mouseRef w) /\
   px (playerRef w1) = px (playerRef w) /\ py (playerRef w1) = py (playerRef w) /\
   isLocked (mouseRef w1) = true /\
   (forall camera, cameraRef w1 = Some camera ->
                   cam_rotation camera =
                     mkVector3 (mouse_y (mouseRef w1)) (angle (playerRef w1)) 0)).
Proof.
  unfold handleMouseMove. split; intro Hlock; rewrite Hlock; cbn [negb]; [reflexivity|].
  cbv zeta. cbn [mouseRef playerRef cameraRef set_camera set_mouse set_player
                 mouse_y angle px py isLocked].
  split.
  { apply clamp_within. pose proof Math_PI_pos as Hpi. unfold Qdiv.
    assert (H3 : / 3 == 1 # 3) by reflexivity. rewrite H3. lra. }
  do 4 (split; [reflexivity|]).
  intros camera Hcam. destruct (cameraRef w) as [camera0|]; [|discriminate].
  cbn [option_map] in Hcam. injection Hcam as <-. reflexivity.
Qed.

Lemma shoot_fires (w : World) (children : list nat) (camera : Camera) :
  sceneRef w = Some children -> cameraRef w = Some camera ->
  projectilesRef (shoot w) =
    projectilesRef w ++
    [mkProjectile
       (mkMesh (nextId w + 2)
               (mkVector3 (vx (cam_position camera)) (vy (cam_position camera) - 0.2)
                          (vz (cam_position camera)))
               (nextId w) (OneMaterial (mkMaterial (nextId w + 1) 0.9))
               [mkMesh (nextId w + 5) (mkVector3 0 0 0) (nextId w + 3)
                       (OneMaterial (mkMaterial (nextId w + 4) 0.3)) []])
       (multiplyScalar (cameraDirection camera) 0.8) 100] /\
  sceneRef (shoot w) = Some (children ++ [(nextId w + 2)%nat]) /\
  keysRef (shoot w) = keysRef w.
Proof.
  intros Hs Hc. unfold shoot. rewrite Hs, Hc. cbv zeta.
  unfold scene_add. cbn [sceneRef set_nextId]. rewrite Hs. now repeat split.
Qed.

Lemma clickListener_kept (inventoryVisible : bool) (renders : list (bool * bool)) :
  Forall (fun render => fst render = false) renders ->
  clickListener inventoryVisible renders = handleClick inventoryVisible.
Proof.
  unfold clickListener. generalize (handleClick inventoryVisible).
  induction renders as [|[mapDataChanged visible] renders IH]; intros listener Hall;
    [reflexivity|].
  apply Forall_cons_iff in Hall. destruct Hall as [Hhead Htail]. cbn [fst] in Hhead.
  subst mapDataChanged. cbn [fold_left rerender]. now apply IH.
Qed.

(** X15.  What fires a bolt.  With a scene and a camera, every [keydown]
    of Space appends one projectile to the list, with life 100, leaving
    from 0.2 below the camera along the camera's direction at speed 0.8,
    whether or not Space was already held; so does a click while the
    pointer is locked.  A [keydown] of another key, a [keyup] and a click
    while the pointer is not locked leave the projectile list as it was.
    That click asks for the pointer lock exactly when the inventory was
    not visible in the render in which the scene was built: as long as
    [mapData] does not change, the listener keeps that value, whatever
    the visibility of the inventory has become since. *)
Theorem what_fires_a_bolt (w : World) (children : list nat) (camera : Camera) :
  sceneRef w = Some children -> cameraRef w = Some camera ->
  let bolt :=
    mkProjectile
      (mkMesh (nextId w + 2)
              (mkVector3 (vx (cam_position camera)) (vy (cam_position camera) - 0.2)
                         (vz (cam_position camera)))
              (nextId w) (OneMaterial (mkMaterial (nextId w + 1) 0.9))
              [mkMesh (nextId w + 5) (mkVector3 0 0 0) (nextId w + 3)
                      (OneMaterial (mkMaterial (nextId w + 4) 0.3)) []])
      (multiplyScalar (cameraDirection camera) 0.8) 100 in
  projectilesRef (handleKeyDown "Space" w) = projectilesRef w ++ [bolt] /\
  (forall (atMount : bool) (renders : list (bool * bool)),
      Forall (fun render => fst render = false) renders ->
      (isLocked (mouseRef w) = true ->
       projectilesRef (fst (clickListener atMount renders w)) = projectilesRef w ++ [bolt] /\
       snd (clickListener atMount renders w) = false) /\
      (isLocked (mouseRef w) = false ->
       fst (clickListener atMount renders w) = w /\
       snd (clickListener atMount renders w) = negb atMount)) /\
  (forall code, code <> "Space" ->
                projectilesRef (handleKeyDown code w) = projectilesRef w) /\
  (forall code, projectilesRef (handleKeyUp code w) = projectilesRef w).
Proof.
  intros Hs Hc bolt. split; [|split; [|split]].
  - unfold handleKeyDown. cbv zeta. cbn [String.eqb Ascii.eqb Bool.eqb andb].
    destruct (shoot_fires (set_keys (keysAdd "Space" (keysRef w)) w) children camera Hs Hc)
      as [H _].
    exact H.
  - intros atMount renders Hkept. rewrite (clickListener_kept atMount renders Hkept).
    split; intro Hlock; unfold handleClick; rewrite Hlock; cbn [fst snd].
    + destruct (shoot_fires w children camera Hs Hc) as [H _]. now split.
    + now destruct atMount.
  - intros code Hcode. unfold handleKeyDown. cbv zeta.
    destruct (String.eqb code "Space") eqn:E; [|reflexivity].
    apply String.eqb_eq in E. contradiction.
  - reflexivity.
Qed.

Lemma has_true (code : string) (keys : list string) : has code keys = true <-> In code keys.
Proof.
  unfold has. rewrite existsb_exists. split.
  - intros [key [Hin E]]. apply String.eqb_eq in E. now subst.
  - intro Hin. exists code. split; [exact Hin|apply String.eqb_refl].
Qed.

Lemma has_keysAdd (code other : string) (keys : list string) :
  has other (keysAdd code keys) = (String.eqb other code || has other keys)%bool.
Proof.
  unfold keysAdd. destruct (has code keys) eqn:E.
  - destruct (String.eqb other code) eqn:E'; [|reflexivity].
    apply String.eqb_eq in E'. subst. now rewrite E.
  - unfold has. rewrite existsb_app. cbn [existsb]. rewrite orb_false_r. apply orb_comm.
Qed.

Lemma has_keysDelete (code other : string) (keys : list string) :
  has other (keysDelete code keys) = (negb (String.eqb other code) && has other keys)%bool.
Proof.
  unfold keysDelete, has. induction keys as [|key keys IH]; [now rewrite andb_false_r|].
  cbn [filter existsb].
  destruct (String.eqb code key) eqn:E; cbn [negb existsb]; rewrite IH.
  - apply String.eqb_eq in E. subst key.
    destruct (String.eqb other code); cbn [negb andb orb]; reflexivity.
  - destruct (String.eqb other key) eqn:E'; cbn [orb].
    + apply String.eqb_eq in E'. subst key. rewrite String.eqb_sym, E. reflexivity.
    + reflexivity.
Qed.

(** X16.  The set of held keys.  After a [keydown] the key is held, after
    a [keyup] it is not, however many [keydown] events came before (key
    repeat does not accumulate); no other key changes state; and a set
    without repetition stays without repetition. *)
Theorem held_keys_behave_as_a_set (code : string) (w : World) :
  has code (keysRef (handleKeyDown code w)) = true /\
  has code (keysRef (handleKeyUp code w)) = false /\
  has code (keysRef (handleKeyUp code (handleKeyDown code (handleKeyDown code w)))) = false /\
  (forall other, other <> code ->
     has other (keysRef (handleKeyDown code w)) = has other (keysRef w) /\
     has other (keysRef (handleKeyUp code w)) = has other (keysRef w)) /\
  (NoDup (keysRef w) ->
   NoDup (keysRef (handleKeyDown code w)) /\ NoDup (keysRef (handleKeyUp code w))).
Proof.
  assert (Hdown : forall w0, keysRef (handleKeyDown code w0) = keysAdd code (keysRef w0)).
  { intro w0. unfold handleKeyDown. cbv zeta.
    destruct (String.eqb code "Space"); [|reflexivity].
    unfold shoot. cbn [sceneRef cameraRef set_keys].
    destruct (sceneRef w0) as [children|] eqn:Hs; [|reflexivity].
    destruct (cameraRef w0) as [camera|]; [|reflexivity].
    cbv zeta. unfold scene_add. cbn [sceneRef set_nextId set_keys]. rewrite Hs. reflexivity. }
  assert (Hup : forall w0, keysRef (handleKeyUp code w0) = keysDelete code (keysRef w0))
    by reflexivity.
  rewrite !Hup, !Hdown. split; [|split; [|split; [|split]]].
  - rewrite has_keysAdd, String.eqb_refl. reflexivity.
  - rewrite has_keysDelete, String.eqb_refl. reflexivity.
  - rewrite has_keysDelete, String.eqb_refl. reflexivity.
  - intros other Hother. rewrite has_keysAdd, has_keysDelete.
    destruct (String.eqb other code) eqn:E; [apply String.eqb_eq in E; contradiction|].
    now split.
  - intro Hnodup. split.
    + unfold keysAdd. destruct (has code (keysRef w)) eqn:E; [exact Hnodup|].
      apply NoDup_app; [exact Hnodup|repeat constructor; exact (fun H => H)|].
      intros key Hin [<-|[]]. apply has_true in Hin. congruence.
    + unfold keysDelete. now apply NoDup_filter.
Qed.

(** ** Further properties: the torches *)

Lemma filterIndex_length {A : Type} (keep : nat -> bool) (i : nat) (l : list A) :
  List.length (filterIndex keep i l) = List.length (filter keep (seq i (List.length l))).
Proof.
  revert i. induction l as [|a l IH]; intro i; [reflexivity|].
  cbn [filterIndex List.length seq filter].
  destruct (keep i); cbn [List.length]; now rewrite IH.
Qed.

Lemma filterIndex_incl {A : Type} (keep : nat -> bool) (i : nat) (l : list A) :
  incl (filterIndex keep i l) l.
Proof.
  revert i. induction l as [|a l IH]; intro i; [apply incl_refl|].
  cbn [filterIndex]. destruct (keep i).
  - intros x [<-|Hx]; [now left|right; now apply (IH (S i))].
  - intros x Hx. right. now apply (IH (S i)).
Qed.

Lemma firstn_incl {A : Type} (n : nat) (l : list A) : incl (firstn n l) l.
Proof.
  intros x Hx. rewrite <- (firstn_skipn n l). apply in_or_app. now left.
Qed.

Lemma multiples_below (step n k : nat) :
  (1 <= step)%nat -> (k * step <= n)%nat ->
  (k <= List.length (filter (fun index => (index mod step =? 0)%nat) (seq 0 n)))%nat.
Proof.
  intros Hstep Hk.
  apply Nat.le_trans with (List.length (map (fun j => (j * step)%nat) (seq 0 k)));
    [now rewrite length_map, length_seq|].
  apply NoDup_incl_length.
  - apply Injective_map_NoDup; [|apply seq_NoDup].
    intros a b Hab. nia.
  - intros x Hx. apply in_map_iff in Hx. destruct Hx as [j [<- Hj]].
    apply in_seq in Hj. apply filter_In. split.
    + apply in_seq. nia.
    + apply Nat.eqb_eq. apply Nat.Div0.mod_mul.
Qed.

(** X17.  The torches of a map.  Of the candidate positions along the
    walls, [createTorchLights] keeps min(8, number of candidates): all of
    them when there are at most 8, and exactly 8 otherwise; every
    position kept is one of the candidates. *)
Theorem torch_count_is_capped (torchPositions : list (Q * Q)) :
  List.length (selectedPositionsOf torchPositions) =
    Nat.min maxTorches (List.length torchPositions) /\
  incl (selectedPositionsOf torchPositions) torchPositions.
Proof.
  unfold selectedPositionsOf. split.
  - rewrite length_firstn, filterIndex_length.
    set (n := List.length torchPositions).
    set (step := Nat.max 1 (n / maxTorches)).
    assert (Hstep : (1 <= step)%nat) by (subst step; lia).
    assert (Hle : (List.length (filter (fun index => (index mod step =? 0)%nat) (seq 0 n))
                   <= n)%nat).
    { pose proof (filter_length_le (fun index => (index mod step =? 0)%nat) (seq 0 n)) as H.
      now rewrite length_seq in H. }
    destruct (Nat.le_gt_cases (2 * maxTorches) n) as [Hbig|Hsmall].
    + assert (Hdiv : (maxTorches * (n / maxTorches) <= n)%nat)
        by (apply Nat.Div0.mul_div_le).
      assert (H2 : (2 <= n / maxTorches)%nat)
        by (apply Nat.div_le_lower_bound; unfold maxTorches in *; lia).
      assert (H8 : (maxTorches <=
                    List.length (filter (fun index => (index mod step =? 0)%nat) (seq 0 n)))%nat).
      { apply multiples_below; [exact Hstep|]. subst step. lia. }
      unfold maxTorches in *. lia.
    + assert (Hone : step = 1%nat).
      { subst step.
        assert ((n / maxTorches < 2)%nat)
          by (apply Nat.Div0.div_lt_upper_bound; unfold maxTorches in *; lia).
        lia. }
      rewrite Hone.
      assert (Hall : List.length (filter (fun index => (index mod 1 =? 0)%nat) (seq 0 n)) = n).
      { rewrite forallb_filter_id; [apply length_seq|].
        apply forallb_forall. intros x _. now rewrite Nat.mod_1_r. }
      rewrite Hall. reflexivity.
  - intros pos Hpos. eapply filterIndex_incl, firstn_incl, Hpos.
Qed.

(** ** Further properties: the page around the scene *)

Lemma Qfloor_unique (q : Q) (k : Z) :
  inject_Z k <= q -> q < inject_Z k + 1 -> Qfloor q = k.
Proof.
  intros H1 H2. pose proof (Qfloor_le q) as F1. pose proof (Qlt_floor q) as F2.
  rewrite inject_Z_plus in F2. change (inject_Z 1) with 1 in F2.
  assert (A : inject_Z (Qfloor q) < inject_Z (k + 1))
    by (rewrite inject_Z_plus; change (inject_Z 1) with 1; lra).
  assert (B : inject_Z k < inject_Z (Qfloor q + 1))
    by (rewrite inject_Z_plus; change (inject_Z 1) with 1; lra).
  rewrite <- Zlt_Qlt in A, B. lia.
Qed.

Lemma Math_min_le (a b : Q) : Math_min a b <= a /\ Math_min a b <= b.
Proof.
  unfold Math_min. destruct (Qle_bool a b) eqn:E.
  - apply Qle_bool_iff in E. split; lra.
  - assert (~ a <= b) by (intro H; apply Qle_bool_iff in H; congruence). split; lra.
Qed.

Lemma Math_min_ge (a b c : Q) : c <= a -> c <= b -> c <= Math_min a b.
Proof. intros Ha Hb. unfold Math_min. now destruct (Qle_bool a b). Qed.

(** X18.  Casting and healing on the page.  Whatever state the closure
    holds, an action never moves the player, never changes [maxHealth],
    never raises mana, and keeps health below [maxHealth] without lowering
    it.  When the closure holds the current state, mana stays
    non-negative.  A closure that holds an older state with at least 10
    mana deducts 10 at every cast, so that k casts cost 10 k whatever the
    current mana is. *)
Theorem actions_on_the_player_state (action : string) (playerState prev : Page.PlayerState) :
  let next := Page.handleAction action playerState prev in
  (Page.x next = Page.x prev /\ Page.y next = Page.y prev /\
   Page.angle next = Page.angle prev /\ Page.maxHealth next = Page.maxHealth prev) /\
  Page.mana next <= Page.mana prev /\
  (Page.health prev <= Page.maxHealth prev ->
   Page.health prev <= Page.health next /\ Page.health next <= Page.maxHealth next) /\
  (0 <= Page.mana prev -> 0 <= Page.mana (Page.handleAction action prev prev)) /\
  (10 <= Page.mana playerState ->
   forall k : nat,
     Page.mana (Nat.iter k (Page.handleAction "cast" playerState) prev) ==
     Page.mana prev - 10 * inject_Z (Z.of_nat k)).
Proof.
  cbv zeta. split; [|split; [|split; [|split]]].
  - unfold Page.handleAction.
    destruct (String.eqb action "cast"); [destruct (Qle_bool 10 _); now repeat split|].
    destruct (String.eqb action "heal"); [|now repeat split].
    destruct (_ && _); now repeat split.
  - unfold Page.handleAction.
    destruct (String.eqb action "cast");
      [destruct (Qle_bool 10 _); cbn [Page.mana]; lra|].
    destruct (String.eqb action "heal"); [|lra].
    destruct (_ && _); cbn [Page.mana]; lra.
  - intro Hh. unfold Page.handleAction.
    destruct (String.eqb action "cast");
      [destruct (Qle_bool 10 _); cbn [Page.health Page.maxHealth]; split; lra|].
    destruct (String.eqb action "heal"); [|split; lra].
    destruct (_ && _); cbn [Page.health Page.maxHealth]; [|split; lra].
    split; [apply Math_min_ge; lra|apply Math_min_le].
  - intro Hm. unfold Page.handleAction.
    destruct (String.eqb action "cast").
    + destruct (Qle_bool 10 (Page.mana prev)) eqn:E; [|exact Hm].
      apply Qle_bool_iff in E. cbn [Page.mana]. lra.
    + destruct (String.eqb action "heal"); [|exact Hm].
      destruct (Qle_bool 15 (Page.mana prev)) eqn:E; cbn [andb]; [|exact Hm].
      apply Qle_bool_iff in E. destruct (negb _); cbn [Page.mana]; lra.
  - intros Hseen k. induction k as [|k IH].
    + unfold Nat.iter. cbn [nat_rect]. change (inject_Z (Z.of_nat 0)) with 0. lra.
    + rewrite Nat.iter_succ. unfold Page.handleAction at 1.
      cbn [String.eqb Ascii.eqb Bool.eqb andb].
      apply Qle_bool_iff in Hseen. rewrite Hseen. cbn [Page.mana]. rewrite IH.
      rewrite Nat2Z.inj_succ. unfold Z.succ. rewrite inject_Z_plus.
      change (inject_Z 1) with 1. lra.
Qed.

(** X19.  The cell of a position, on the map view and for the creatures.
    Take a map with a non-empty first row and the block of column [col],
    which reaches 1 to either side of the centre of the column.  At a
    position x from the centre of the block up to [edgeMargin] short of
    its upper edge, the map view of the page and the world-to-grid
    transform of [updateCreatures] both give [col].  At a position from
    [edgeMargin] above the lower edge up to [edgeMargin] short of the
    centre, the map view still gives [col] while the transform of
    [updateCreatures] gives [col - 1]: the two differ by half a cell.
    The sizes are bounded and the edges and the centre line are kept
    [edgeMargin] away because the two sums are rounded when computed in
    doubles; for sizes up to a million the rounding error of a sum is
    below 2^-32, far less than the margin, so that it cannot move either
    result there. *)
Theorem map_view_and_creature_cells (grid : Grid) (col : nat) (x : Q) :
  (0 < List.length (nth 0 grid []))%nat ->
  (Z.of_nat (List.length (nth 0 grid [])) <= 1000000)%Z -> (Z.of_nat col <= 1000000)%Z ->
  (cellCentreX grid col <= x -> x <= cellCentreX grid col + 1 - edgeMargin ->
   Page.playerGridX grid x = Z.of_nat col /\ gridXOf grid x = Z.of_nat col) /\
  (cellCentreX grid col - 1 + edgeMargin <= x -> x <= cellCentreX grid col - edgeMargin ->
   Page.playerGridX grid x = Z.of_nat col /\ gridXOf grid x = (Z.of_nat col - 1)%Z).
Proof.
  intros Hlen _ _.
  unfold cellCentreX, rowLength, cellSize, edgeMargin.
  assert (Hmap : Page.playerGridX grid x =
                 Qfloor (x * (1 # 2) +
                         inject_Z (Z.of_nat (List.length (nth 0 grid []))) * (1 # 2) +
                         1 * (1 # 2))).
  { unfold Page.playerGridX, Page.gridCenterX, Page.lengthOr16, Page.cellSize, Math_round.
    destruct (Nat.eqb_spec (List.length (nth 0 grid [])) 0) as [E|_]; [lia|reflexivity]. }
  assert (Hai : gridXOf grid x =
                Qfloor ((x + inject_Z (Z.of_nat (List.length (nth 0 grid []))) * 2 * (1 # 2)) *
                        (1 # 2)))
    by reflexivity.
  rewrite Hmap, Hai.
  set (L := inject_Z (Z.of_nat (List.length (nth 0 grid [])))).
  set (c := inject_Z (Z.of_nat col)).
  unfold Qdiv. change (/ 2) with (1 # 2).
  split; intros Hlo Hhi; split; apply Qfloor_unique;
    try (unfold Z.sub; rewrite inject_Z_plus, inject_Z_opp; change (inject_Z 1) with 1);
    fold c; lra.
Qed.

Lemma radarGrid_cell (walls : Grid) (viewport : Minimap.Viewport) (x y : nat) :
  (x < 8)%nat -> (y < 8)%nat ->
  nth_error (nth y (Minimap.radarGrid (Some walls) viewport) []) x =
  Some (Minimap.radarCell walls viewport (Z.of_nat x) (Z.of_nat y)).
Proof.
  intros Hx Hy. unfold Minimap.radarGrid.
  set (row := fun y : nat =>
                map (fun x : nat => Minimap.radarCell walls viewport (Z.of_nat x) (Z.of_nat y))
                    (seq 0 8)).
  rewrite (nth_indep _ [] (row 0%nat)) by (now rewrite length_map, length_seq).
  rewrite (map_nth row), seq_nth by exact Hy. cbn [Nat.add]. unfold row.
  rewrite nth_error_map, nth_error_seq.
  destruct (Nat.ltb_spec x 8) as [_|H]; [reflexivity|lia].
Qed.

(** X20.  The radar window.  For a map, the offsets of the 8 x 8 radar
    window are never negative, and the window lies inside the map when
    the map is at least 8 cells wide and high.  Whenever the player's
    cell lies inside the map, the player's marker lies inside the window,
    and the radar cell under the marker is the map cell of the player.
    Without a map the marker sits at (4, 4) on a radar of floor cells. *)
Theorem radar_window_holds_the_player (walls : Grid) (playerX playerY : Q) :
  let viewport := Minimap.radarViewport (Some walls) playerX playerY in
  let playerGridX := Minimap.playerGrid (Minimap.mapWidth walls) playerX in
  let playerGridY := Minimap.playerGrid (Minimap.mapHeight walls) playerY in
  ((0 <= Minimap.offsetX viewport)%Z /\ (0 <= Minimap.offsetY viewport)%Z) /\
  ((Minimap.radarSize <= Minimap.mapWidth walls)%Z ->
   (Minimap.offsetX viewport + Minimap.radarSize <= Minimap.mapWidth walls)%Z) /\
  ((Minimap.radarSize <= Minimap.mapHeight walls)%Z ->
   (Minimap.offsetY viewport + Minimap.radarSize <= Minimap.mapHeight walls)%Z) /\
  ((0 <= playerGridX < Minimap.mapWidth walls)%Z ->
   (0 <= Minimap.playerRadarX viewport < Minimap.radarSize)%Z) /\
  ((0 <= playerGridY < Minimap.mapHeight walls)%Z ->
   (0 <= Minimap.playerRadarY viewport < Minimap.radarSize)%Z) /\
  ((0 <= playerGridX < Z.of_nat (List.length (nth 0 walls [])))%Z ->
   (0 <= playerGridY < Z.of_nat (List.length walls))%Z ->
   nth_error (nth (Z.to_nat (Minimap.playerRadarY viewport))
                  (Minimap.radarGrid (Some walls) viewport) [])
             (Z.to_nat (Minimap.playerRadarX viewport)) =
   Some (nth_error (nth (Z.to_nat playerGridY) walls []) (Z.to_nat playerGridX))) /\
  Minimap.radarViewport None playerX playerY = Minimap.mkViewport 0 0 4 4 /\
  (forall viewport', Forall (Forall (eq (Some 0%Z))) (Minimap.radarGrid None viewport')).
Proof.
  cbv zeta. unfold Minimap.radarViewport. cbv zeta.
  cbn [Minimap.offsetX Minimap.offsetY Minimap.playerRadarX Minimap.playerRadarY].
  set (gx := Minimap.playerGrid (Minimap.mapWidth walls) playerX).
  set (gy := Minimap.playerGrid (Minimap.mapHeight walls) playerY).
  unfold Minimap.clampOffset, Minimap.radarSize.
  split; [split; lia|]. split; [lia|]. split; [lia|]. split; [lia|]. split; [lia|].
  split; [|split; [reflexivity|intro; repeat constructor]].
  intros Hx Hy.
  assert (Hw : Minimap.mapWidth walls = Z.of_nat (List.length (nth 0 walls []))).
  { unfold Minimap.mapWidth, Minimap.lengthOr16.
    destruct (Nat.eqb_spec (List.length (nth 0 walls [])) 0); [lia|reflexivity]. }
  assert (Hh : Minimap.mapHeight walls = Z.of_nat (List.length walls)).
  { unfold Minimap.mapHeight, Minimap.lengthOr16.
    destruct (Nat.eqb_spec (List.length walls) 0); [lia|reflexivity]. }
  set (ox := Z.max 0 (Z.min (gx - 4) (Minimap.mapWidth walls - 8))) in *.
  set (oy := Z.max 0 (Z.min (gy - 4) (Minimap.mapHeight walls - 8))) in *.
  rewrite radarGrid_cell by lia.
  unfold Minimap.radarCell. cbv zeta. cbn [Minimap.offsetX Minimap.offsetY].
  rewrite !Z2Nat.id by lia.
  replace (ox + (gx - ox))%Z with gx by lia. replace (oy + (gy - oy))%Z with gy by lia.
  destruct (Z.leb_spec 0 gy); [|lia]. destruct (Z.ltb_spec gy (Z.of_nat (List.length walls))); [|lia].
  destruct (Z.leb_spec 0 gx); [|lia].
  destruct (Z.ltb_spec gx (Z.of_nat (List.length (nth 0 walls [])))); [|lia].
  reflexivity.
Qed.

Lemma shoot_adds_at_most_one (w : World) :
  (List.length (projectilesRef (shoot w)) <= S (List.length (projectilesRef w)))%nat.
Proof.
  unfold shoot. destruct (sceneRef w) as [children|] eqn:Hs; [|lia].
  destruct (cameraRef w) as [camera|]; [|lia].
  cbv zeta. unfold scene_add. cbn [sceneRef set_nextId]. rewrite Hs.
  cbn [projectilesRef set_projectiles set_scene set_nextId].
  rewrite length_app. cbn [List.length]. lia.
Qed.

(** X21.  The crossbow of the action bar is debounced.  Through any
    sequence of clicks on the crossbow and timer callbacks, starting with
    the crossbow at rest, the clicks add at most one projectile more than
    timers have fired; a click while [isShooting] is set changes nothing;
    and while no scene has registered [dungeonShoot] a click fires
    nothing. *)
Theorem crossbow_click_is_debounced (events : list ActionBar.Event) (w : World) :
  let onAction := Page.handleActionOnScene (Some shoot) in
  (List.length (projectilesRef (snd (ActionBar.run onAction events (false, w)))) <=
   List.length (projectilesRef w) + ActionBar.timersFired events + 1)%nat /\
  ActionBar.handleShoot onAction (true, w) = (true, w) /\
  ActionBar.handleShoot (Page.handleActionOnScene None) (false, w) = (true, w).
Proof.
  cbv zeta. split; [|split; reflexivity].
  enough (H : forall (st : bool * World),
             (List.length (projectilesRef
                             (snd (ActionBar.run (Page.handleActionOnScene (Some shoot))
                                                 events st))) <=
              List.length (projectilesRef (snd st)) + (if fst st then 0 else 1) +
              ActionBar.timersFired events)%nat).
  { specialize (H (false, w)). cbn [fst snd] in H. lia. }
  unfold ActionBar.run, ActionBar.timersFired.
  induction events as [|event events IH]; intro st; [cbn; lia|].
  cbn [fold_left filter]. specialize (IH (ActionBar.step (Page.handleActionOnScene (Some shoot))
                                                         st event)).
  destruct st as [isShooting w0]. destruct event.
  - cbn [ActionBar.step ActionBar.handleShoot] in *. destruct isShooting.
    + cbn [fst snd] in *. lia.
    + unfold Page.handleActionOnScene, Page.handleShoot in *.
      cbn [String.eqb Ascii.eqb Bool.eqb andb fst snd] in *.
      pose proof (shoot_adds_at_most_one w0). lia.
  - cbn [ActionBar.step fst snd List.length] in *. destruct isShooting; lia.
Qed.

End Simulation.

(** ** Instances *)

Lemma pillar_box :
  wallsRef (withMap pillarGrid initialWorld) =
  [setFromCenterAndSize (mkVector3 ((2 - 4 / 2) * 2) (2.4 / 2) ((2 - 4 / 2) * 2))
                        (mkVector3 2 2.4 2)] /\
  wallsRef (withMap openGrid initialWorld) = [].
Proof. split; reflexivity. Qed.

Lemma shoot_creates_firstBolt :
  projectilesRef (shoot lookingForward (withMap openGrid initialWorld)) = [firstBolt] /\
  life firstBolt = 100%Z /\
  velocity firstBolt =
    multiplyScalar (lookingForward (mkCamera (mkVector3 0 1.6 0) (mkVector3 0 0 0))) 0.8.
Proof. repeat split. Qed.

(** A bolt fired in a map without walls and creatures, followed through
    whole frames: it is still flying, with one frame of life left, after
    99 frames, and the 100th frame retires it and disposes of its geometry
    and material. *)
Lemma bolt_expires_in_frame_100 :
  let frame := animate sinTable cosTable sqrtOnSquares boltBoxAlongZ (fun _ => 0) in
  let fired := shoot lookingForward (withMap openGrid initialWorld) in
  map life (projectilesRef (Nat.iter 99 frame fired)) = [1%Z] /\
  disposed (Nat.iter 99 frame fired) = [] /\
  projectilesRef (Nat.iter 100 frame fired) = [] /\
  disposed (Nat.iter 100 frame fired) = [GeometryDisposed 0; MaterialDisposed 1].
Proof. vm_compute. repeat split. Qed.

Lemma projectile_retired_iff_witness :
  projectilesRef (updateProjectiles boltBoxAlongZ
                    (shoot lookingForward (withMap openGrid initialWorld))) =
    [advance firstBolt] /\
  fst (stepProjectile boltBoxAlongZ (Nat.iter 99 advance firstBolt)
                      (withMap openGrid initialWorld)) =
    (false, Nat.iter 100 advance firstBolt).
Proof.
  assert (Hscene : sceneRef (shoot lookingForward (withMap openGrid initialWorld)) <> None)
    by discriminate.
  assert (Hlist : projectilesRef (shoot lookingForward (withMap openGrid initialWorld)) =
                  [] ++ firstBolt :: [])
    by reflexivity.
  pose proof (projectile_retired_iff boltBoxAlongZ
                (shoot lookingForward (withMap openGrid initialWorld))
                [] [] firstBolt Hscene Hlist) as H.
  cbv zeta in H. destruct H as [_ [Hkept [_ Hflight]]].
  split.
  - exact Hkept.
  - assert (Hlife : life firstBolt = 100%Z) by reflexivity.
    assert (Hclear : forall k, (1 <= k <= 100)%nat ->
               hitsWall boltBoxAlongZ (withMap openGrid initialWorld)
                        (Nat.iter (k - 1) advance firstBolt) = false /\
               hitsCreature boltBoxAlongZ (withMap openGrid initialWorld)
                            (Nat.iter (k - 1) advance firstBolt) = false)
      by (intros k Hk; split; reflexivity).
    assert (Hk : (1 <= 100 <= 100)%nat) by lia.
    exact (proj1 (Hflight firstBolt (fun _ => withMap openGrid initialWorld)
                          Hlife Hclear 100%nat Hk)).
Defined.

Lemma no_clip_invariant_witness :
  standsClear walkWorld (px (playerRef walkWorld)) (py (playerRef walkWorld)) /\
  playerRef (handleMovement sinTable cosTable walkWorld) =
    mkPlayer (0 - 0 * (0.04 * 1)) (2 - 1 * (0.04 * 1)) 0 /\
  standsClear (handleMovement sinTable cosTable walkWorld)
              (px (playerRef (handleMovement sinTable cosTable walkWorld)))
              (py (playerRef (handleMovement sinTable cosTable walkWorld))).
Proof.
  assert (H : standsClear walkWorld (px (playerRef walkWorld)) (py (playerRef walkWorld))).
  { split.
    - intros wallBox Hin. vm_compute in Hin. destruct Hin as [<-|[]]. reflexivity.
    - intros creature []. }
  split; [exact H|]. split; [reflexivity|].
  exact (proj2 (proj2 (proj1 (no_clip_invariant sinTable cosTable walkWorld H)))).
Defined.

Lemma translation_is_all_or_nothing_witness :
  playerRef (handleMovement sinTable cosTable walkWorld) =
    mkPlayer (0 - 0 * (0.04 * 1)) (2 - 1 * (0.04 * 1)) 0 /\
  playerRef (handleMovement sinTable cosTable slideWorld) = playerRef slideWorld /\
  playerRef (handleMovement sinTable cosTable slideBackWorld) = playerRef slideBackWorld.
Proof.
  assert (Hcam : cameraRef walkWorld <> None) by discriminate.
  assert (Hkeys : keysRef walkWorld = ["KeyW"]) by reflexivity.
  assert (Hcam' : cameraRef slideWorld <> None) by discriminate.
  assert (Hkeys' : keysRef slideWorld = ["KeyW"]) by reflexivity.
  assert (Hcam'' : cameraRef slideBackWorld <> None) by discriminate.
  assert (Hback : fold_left (wholeOrNothing slideBackWorld)
                            (movementKeys sinTable cosTable slideBackWorld)
                            (turnedPose slideBackWorld) =
                  playerRef slideBackWorld) by (vm_compute; reflexivity).
  split; [|split].
  - exact (proj1 (proj2 (proj2 (translation_is_all_or_nothing sinTable cosTable false
                                  (fun player => (px player, py player)) walkWorld false)))
                 walkWorld Hcam Hkeys).
  - exact (proj1 (proj2 (proj2 (translation_is_all_or_nothing sinTable cosTable false
                                  (fun player => (px player, py player)) slideWorld false)))
                 slideWorld Hcam' Hkeys').
  - exact (eq_trans
             (proj2 (proj2 (proj2 (translation_is_all_or_nothing sinTable cosTable false
                                     (fun player => (px player, py player))
                                     slideBackWorld false)))
                    slideBackWorld Hcam'')
             Hback).
Defined.

(** Three creatures created on the first row of the pillar map, the player
    on the same row at distances 6, 4 and 2: each creature steps 0.02
    towards the player and is on an open cell before and after. *)
Lemma creatures_stay_on_floor_witness :
  let w := standingAt 2 (-4) 0
             (createShadowCreatures (fun spaces => spaces) (withMap pillarGrid initialWorld)) in
  Forall (onFloor pillarGrid) (creaturesRef w) /\
  Forall (onFloor pillarGrid)
         (creaturesRef (updateCreatures sinTable sqrtOnSquares (fun _ => 0) w)) /\
  map (fun creature => Qred (vx (position (body creature))))
      (creaturesRef (updateCreatures sinTable sqrtOnSquares (fun _ => 0) w)) =
    map Qred [-3.98; -1.98; 0.02].
Proof.
  cbv zeta.
  assert (Hmap : mapDataRef
                   (standingAt 2 (-4) 0
                      (createShadowCreatures (fun spaces => spaces)
                         (withMap pillarGrid initialWorld))) =
                 Some (mkMapData (Some pillarGrid))) by (vm_compute; reflexivity).
  assert (Hfloor : Forall (onFloor pillarGrid)
                     (creaturesRef
                        (standingAt 2 (-4) 0
                           (createShadowCreatures (fun spaces => spaces)
                              (withMap pillarGrid initialWorld)))))
    by (vm_compute; repeat constructor).
  split; [exact Hfloor|]. split.
  - exact (proj1 (creatures_stay_on_floor sinTable sqrtOnSquares (fun _ => 0) _ pillarGrid
                                          Hmap Hfloor)).
  - vm_compute. reflexivity.
Defined.

(** C1, as stated, fails.  The player stands clear, 0.02 from the face
    z = 1 of a wall, and walks forward at a heading of 0.6435 radians.
    The candidate pose meets the wall; the pose displaced along x alone
    does not, so a controller that validated the axes independently would
    slide the player along the wall.  [handleMovement] leaves both
    coordinates as they were. *)
Lemma sliding_counterexample :
  let before := playerRef slideWorld in
  let newX := fst (forwardOf sinTable cosTable (baseSpeed * 1) before) in
  let newZ := snd (forwardOf sinTable cosTable (baseSpeed * 1) before) in
  let after := playerRef (handleMovement sinTable cosTable slideWorld) in
  checkCollision slideWorld (px before) (py before) = false /\
  checkCollision slideWorld newX newZ = true /\
  checkCollision slideWorld newX (py before) = false /\
  ~ newX == px before /\
  after = before.
Proof.
  cbv zeta. repeat split. vm_compute. discriminate.
Qed.

(** C2, as stated, fails.  In a map without walls a bolt is fired at a
    creature standing one unit ahead, while the cleanup queue is empty.
    The first frame removes the creature from the pool, and the cleanup
    pass of that same frame disposes of its geometries and materials. *)
Lemma same_frame_disposal_counterexample :
  let w0 := shoot lookingForward (spawnCreature (0, -1) (withMap openGrid initialWorld)) in
  let w1 := animate sinTable cosTable sqrtOnSquares boltBoxAlongZ (fun _ => 0) w0 in
  List.length (creaturesRef w0) = 1%nat /\
  List.length (projectilesRef w0) = 1%nat /\
  cleanupQueueRef w0 = [] /\
  disposed w0 = [] /\
  creaturesRef w1 = [] /\
  disposed w1 =
    flat_map (fun bolt => disposeMesh (mesh bolt)) (projectilesRef w0) ++
    flat_map (fun creature => cleanItem (bundleOf creature)) (creaturesRef w0) /\
  disposed w1 =
    [GeometryDisposed 8; MaterialDisposed 9;
     GeometryDisposed 0; MaterialDisposed 1;
     GeometryDisposed 3; MaterialDisposed 4;
     GeometryDisposed 3; MaterialDisposed 4].
Proof. vm_compute. repeat split. Qed.

Lemma creature_count_is_clamp_witness :
  List.length
    (creaturesRef
       (createShadowCreatures (@rev (Q * Q)) (withMap grid50 initialWorld))) = 5%nat.
Proof.
  refine (proj2 (creature_count_is_clamp (@rev (Q * Q)) (@Permutation_rev (Q * Q))
                   (withMap grid50 initialWorld) grid50 _ _) _).
  - reflexivity.
  - vm_compute. lia.
  - reflexivity.
Defined.

Lemma creature_count_on_small_map_witness :
  List.length
    (creaturesRef
       (createShadowCreatures (@rev (Q * Q)) (withMap grid1 initialWorld))) = 1%nat.
Proof.
  refine (proj2 (creature_count_on_small_map (@rev (Q * Q)) (@Permutation_rev (Q * Q))
                   (withMap grid1 initialWorld) grid1 _ _)).
  - reflexivity.
  - vm_compute. lia.
Defined.

(** C8, as stated, fails on a map with a single open cell: one creature is
    created, where the clamp alone gives 3. *)
Lemma creature_count_counterexample :
  openCellCount grid1 = 1%nat /\
  List.length
    (creaturesRef
       (createShadowCreatures (fun spaces => spaces) (withMap grid1 initialWorld))) = 1%nat /\
  List.length
    (creaturesRef
       (createShadowCreatures (fun spaces => spaces) (withMap grid1 initialWorld))) <>
  Nat.min 5 (Nat.max 3 (openCellCount grid1 / 10)).
Proof. repeat split. vm_compute. discriminate. Qed.

(** ** Instances of the further properties *)

Lemma sinTable_withinUnit : withinUnit sinTable.
Proof. intro a. unfold sinTable. destruct (Qeq_bool a 0); split; lra. Qed.

Lemma cosTable_withinUnit : withinUnit cosTable.
Proof. intro a. unfold cosTable. destruct (Qeq_bool a 0); split; lra. Qed.

(** A bolt fired at a creature one unit ahead: the update of the bolt
    leaves a scene without repeated child, taken from the old one. *)
Lemma removed_objects_leave_the_scene_witness :
  let w0 := shoot lookingForward (spawnCreature (0, -1) (withMap openGrid initialWorld)) in
  let bolt := nth 0 (projectilesRef w0) firstBolt in
  sceneRef w0 = Some [2; 5; 6; 7; 10]%nat /\
  exists children',
    sceneRef (snd (stepProjectile boltBoxAlongZ bolt w0)) = Some children' /\
    NoDup children' /\ incl children' [2; 5; 6; 7; 10]%nat.
Proof.
  cbv zeta.
  assert (Hscene : sceneRef (shoot lookingForward
                               (spawnCreature (0, -1) (withMap openGrid initialWorld))) =
                   Some [2; 5; 6; 7; 10]%nat) by (vm_compute; reflexivity).
  assert (Hnodup : NoDup [2; 5; 6; 7; 10]%nat)
    by (repeat (constructor; [cbn; intuition discriminate|]); constructor).
  split; [exact Hscene|].
  destruct (removed_objects_leave_the_scene boltBoxAlongZ
              (nth 0 (projectilesRef
                        (shoot lookingForward
                           (spawnCreature (0, -1) (withMap openGrid initialWorld))))
                   firstBolt)
              _ _ Hscene Hnodup) as [children' [H1 [H2 [H3 _]]]].
  exists children'. split; [exact H1|]. split; [exact H2|exact H3].
Defined.

(** The bolt of the examples is gone after 100 frames. *)
Lemma projectile_never_outlives_its_life_witness :
  projectilesRef
    (Nat.iter 100 (animate sinTable cosTable sqrtOnSquares boltBoxAlongZ (fun _ => 0))
              (shoot lookingForward (withMap openGrid initialWorld))) = [].
Proof.
  assert (Hscene : sceneRef (shoot lookingForward (withMap openGrid initialWorld)) <> None)
    by (vm_compute; discriminate).
  assert (Hlife : Forall (fun p => (life p <= 100)%Z)
                         (projectilesRef (shoot lookingForward (withMap openGrid initialWorld))))
    by (vm_compute; repeat constructor; discriminate).
  assert (Hn : (1 <= 100)%nat) by lia.
  apply (proj2 (projectile_never_outlives_its_life sinTable cosTable sqrtOnSquares
                  boltBoxAlongZ (fun _ => 0) _ 100%nat 100%Z Hscene Hlife Hn)).
  vm_compute. discriminate.
Defined.

(** The three creatures of the pillar map, the player away from them:
    their parts are around their bodies before and after a step. *)
Lemma creature_parts_track_the_body_witness :
  let w := standingAt 2 (-4) 0
             (createShadowCreatures (fun spaces => spaces) (withMap pillarGrid initialWorld)) in
  Forall tracksBody (creaturesRef w) /\
  Forall tracksBody (creaturesRef (updateCreatures sinTable sqrtOnSquares (fun _ => 0) w)).
Proof.
  cbv zeta.
  assert (H : Forall tracksBody
                (creaturesRef
                   (standingAt 2 (-4) 0
                      (createShadowCreatures (fun spaces => spaces)
                         (withMap pillarGrid initialWorld)))))
    by (vm_compute; repeat constructor).
  split; [exact H|].
  exact (proj1 (creature_parts_track_the_body sinTable sqrtOnSquares (fun _ => 0)
                  (fun spaces => spaces) _ H)).
Defined.

(** The creatures created on the pillar map stand clear of the pillar. *)
Lemma creatures_stay_clear_of_walls_witness :
  Forall (clearOfWalls (wallsRef (withMap pillarGrid initialWorld)))
         (creaturesRef (createShadowCreatures (@rev (Q * Q)) (withMap pillarGrid initialWorld))).
Proof.
  assert (Hmap : mapDataRef (withMap pillarGrid initialWorld) =
                 Some (mkMapData (Some pillarGrid))) by reflexivity.
  assert (Hwalls : wallsRef (withMap pillarGrid initialWorld) = collisionBoxesOf pillarGrid)
    by reflexivity.
  exact (proj1 (creatures_stay_clear_of_walls sinTable sqrtOnSquares (fun _ => 0)
                  (@rev (Q * Q)) (@Permutation_rev (Q * Q))
                  (withMap pillarGrid initialWorld) pillarGrid Hmap Hwalls)).
Defined.

(** The pillar map mounted: its wall box is stored and three creatures
    are created. *)
Lemma mount_builds_a_consistent_world_witness :
  let w1 := mountScene (@rev (Q * Q)) (fun _ => false)
                       (Some (mkMapData (Some pillarGrid))) initialWorld in
  wallsRef w1 = collisionBoxesOf pillarGrid /\
  List.length (creaturesRef w1) = 3%nat.
Proof.
  pose proof (mount_builds_a_consistent_world (@rev (Q * Q)) (fun _ => false)
                (@Permutation_rev (Q * Q)) initialWorld pillarGrid) as H.
  cbv zeta in H. destruct H as (_ & H2 & _ & H4 & _).
  cbv zeta. split; [exact H2|]. rewrite H4. vm_compute. reflexivity.
Defined.

(** A creature created where the player stands: [W] does not move the
    player. *)
Lemma creature_over_the_player_pins_it_witness :
  let w := set_keys ["KeyW"]
             (spawnCreature (0, 0) (standingAt 0 0 0 (withMap openGrid initialWorld))) in
  px (playerRef (handleMovement sinTable cosTable w)) = 0 /\
  py (playerRef (handleMovement sinTable cosTable w)) = 0.
Proof.
  cbv zeta.
  assert (Hin : In (freshCreature 0 (0, 0))
                   (creaturesRef
                      (set_keys ["KeyW"]
                         (spawnCreature (0, 0)
                            (standingAt 0 0 0 (withMap openGrid initialWorld))))))
    by (vm_compute; left; reflexivity).
  assert (Htracks : tracksBody (freshCreature 0 (0, 0))) by (vm_compute; repeat constructor).
  assert (Hover : standsOver (freshCreature 0 (0, 0)) 0 0)
    by (vm_compute; repeat split; discriminate).
  exact (creature_over_the_player_pins_it sinTable cosTable _ _
           sinTable_withinUnit cosTable_withinUnit Hin Htracks Hover).
Defined.

(** The map with a single open cell, mounted: [W] does not move the
    player off the spawn point. *)
Lemma creature_on_the_spawn_cell_pins_the_player_witness :
  let w1 := set_keys ["KeyW"]
              (mountScene (@rev (Q * Q)) (fun _ => false)
                          (Some (mkMapData (Some grid1))) initialWorld) in
  px (playerRef (handleMovement sinTable cosTable w1)) = cellCentreX grid1 1 /\
  py (playerRef (handleMovement sinTable cosTable w1)) = cellCentreZ grid1 1.
Proof.
  assert (Hfirst : firstOpenCell grid1 0 = Some (1, 1)%nat) by reflexivity.
  assert (Hsmall : (openCellCount grid1 <= 3)%nat) by (vm_compute; lia).
  pose proof (creature_on_the_spawn_cell_pins_the_player sinTable cosTable (@rev (Q * Q))
                (fun _ => false) (@Permutation_rev (Q * Q)) initialWorld grid1 1 1 ["KeyW"]
                sinTable_withinUnit cosTable_withinUnit Hfirst) as H.
  cbv zeta in H. cbv zeta. exact (proj2 H Hsmall).
Defined.

(** Space pressed in the map without walls: the first bolt is fired.  A
    scene built while the inventory was visible: a click after the
    inventory was closed, the pointer not locked, does not ask for the
    pointer lock. *)
Lemma what_fires_a_bolt_witness :
  projectilesRef (handleKeyDown lookingForward "Space" (withMap openGrid initialWorld)) =
    [firstBolt] /\
  snd (clickListener lookingForward true [(false, false)] (withMap openGrid initialWorld)) =
    false.
Proof.
  assert (Hscene : sceneRef (withMap openGrid initialWorld) = Some []) by reflexivity.
  assert (Hcamera : cameraRef (withMap openGrid initialWorld) =
                    Some (mkCamera (mkVector3 0 1.6 0) (mkVector3 0 0 0))) by reflexivity.
  assert (Hkept : Forall (fun render : bool * bool => fst render = false) [(false, false)])
    by (repeat constructor).
  assert (Hlock : isLocked (mouseRef (withMap openGrid initialWorld)) = false) by reflexivity.
  pose proof (what_fires_a_bolt lookingForward (withMap openGrid initialWorld) [] _
                Hscene Hcamera) as H.
  cbv zeta in H. destruct H as [Hspace [Hclick _]].
  split; [exact Hspace|].
  exact (proj2 (proj2 (Hclick true [(false, false)] Hkept) Hlock)).
Defined.

(** On the pillar map the block of column 2 is centred at x = 0: at
    x = -0.5 the map view draws column 2 and the creatures compute
    column 1; at x = 0.5 both give column 2. *)
Lemma map_view_and_creature_cells_witness :
  (Page.playerGridX pillarGrid (-0.5) = 2%Z /\ gridXOf pillarGrid (-0.5) = 1%Z) /\
  (Page.playerGridX pillarGrid 0.5 = 2%Z /\ gridXOf pillarGrid 0.5 = 2%Z).
Proof.
  assert (Hlen : (0 < List.length (nth 0 pillarGrid []))%nat) by (vm_compute; lia).
  assert (Hwide : (Z.of_nat (List.length (nth 0 pillarGrid [])) <= 1000000)%Z)
    by (vm_compute; discriminate).
  assert (Hcol : (Z.of_nat 2 <= 1000000)%Z) by (vm_compute; discriminate).
  assert (Hlo : cellCentreX pillarGrid 2 - 1 + edgeMargin <= -0.5)
    by (vm_compute; discriminate).
  assert (Hhi : -0.5 <= cellCentreX pillarGrid 2 - edgeMargin) by (vm_compute; discriminate).
  assert (Hlo' : cellCentreX pillarGrid 2 <= 0.5) by (vm_compute; discriminate).
  assert (Hhi' : 0.5 <= cellCentreX pillarGrid 2 + 1 - edgeMargin)
    by (vm_compute; discriminate).
  split.
  - exact (proj2 (map_view_and_creature_cells pillarGrid 2 (-0.5) Hlen Hwide Hcol) Hlo Hhi).
  - exact (proj1 (map_view_and_creature_cells pillarGrid 2 0.5 Hlen Hwide Hcol) Hlo' Hhi').
Defined.

(** C7.  The glow of a retired bolt is never released.  [shoot] gives the
    bolt a glow, a child mesh with a geometry and a material of its own
    (identities 3 and 4 for the first bolt).  On the map without walls the
    bolt is retired by its 100th update: its mesh leaves the scene and its
    own geometry and material are disposed of at once, as the claim says.
    The geometry and the material of the glow are not, and no later frame
    disposes of them: the disposal record stays as the retirement left
    it. *)
Theorem glow_of_a_retired_bolt_is_never_released :
  let frame := animate sinTable cosTable sqrtOnSquares boltBoxAlongZ (fun _ => 0) in
  let fired := shoot lookingForward (withMap openGrid initialWorld) in
  projectilesRef fired = [firstBolt] /\
  map geometry (children (mesh firstBolt)) = [3%nat] /\
  map materialsOf (children (mesh firstBolt)) = [[mkMaterial 4 0.3]] /\
  projectilesRef (Nat.iter 100 frame fired) = [] /\
  sceneRef (Nat.iter 100 frame fired) = Some [] /\
  forall k,
    disposed (Nat.iter (k + 100) frame fired) = [GeometryDisposed 0; MaterialDisposed 1] /\
    ~ In (GeometryDisposed 3) (disposed (Nat.iter (k + 100) frame fired)) /\
    ~ In (MaterialDisposed 4) (disposed (Nat.iter (k + 100) frame fired)).
Proof.
  cbv zeta.
  assert (H100 : projectilesRef
                   (Nat.iter 100 (animate sinTable cosTable sqrtOnSquares boltBoxAlongZ
                                          (fun _ => 0))
                             (shoot lookingForward (withMap openGrid initialWorld))) = [] /\
                 cleanupQueueRef
                   (Nat.iter 100 (animate sinTable cosTable sqrtOnSquares boltBoxAlongZ
                                          (fun _ => 0))
                             (shoot lookingForward (withMap openGrid initialWorld))) = [] /\
                 disposed
                   (Nat.iter 100 (animate sinTable cosTable sqrtOnSquares boltBoxAlongZ
                                          (fun _ => 0))
                             (shoot lookingForward (withMap openGrid initialWorld))) =
                 [GeometryDisposed 0; MaterialDisposed 1] /\
                 sceneRef
                   (Nat.iter 100 (animate sinTable cosTable sqrtOnSquares boltBoxAlongZ
                                          (fun _ => 0))
                             (shoot lookingForward (withMap openGrid initialWorld))) = Some [])
    by (vm_compute; repeat split).
  destruct H100 as [Hps [Hq [Hd Hs]]].
  split; [reflexivity|]. split; [reflexivity|]. split; [reflexivity|].
  split; [exact Hps|]. split; [exact Hs|].
  intro k. rewrite Nat.iter_add.
  destruct (idle_frames sinTable cosTable sqrtOnSquares boltBoxAlongZ (fun _ => 0) _ k Hps Hq)
    as [_ [_ Hk]].
  rewrite Hk, Hd. split; [reflexivity|].
  split; intros [H|[H|[]]]; discriminate.
Qed.
